(** * tarzan: sharded tar datasets with a typed feature schema

    A shallow embedding of the [tarzan] package: the feature schema and its
    codecs ([tarzan/features]), the tar packing and unpacking protocol
    ([tarzan/writers/tar_writer.py], [tarzan/readers/tar_reader.py]), the
    shard writer, the reference-counted stream wrapper ([tarzan/utils.py])
    and the dataset manifest ([tarzan/info.py]).

    Python objects are modelled by one dynamic [value] type; exceptions by
    [result]; dictionaries by association lists in insertion order (Python
    dictionaries keep insertion order and have unique keys); mutable
    objects that are shared (stream wrappers) by an explicit store. *)

From Stdlib Require Import ZArith List String Ascii DecimalString DecimalNat Lia.
From Stdlib.Strings Require Import Byte.
From stdpp Require Import base list strings gmap.
Import ListNotations.
Set Warnings "-register-all,-clear-no-such-hyp".

(** ** The Python runtime the package relies on *)

Module Py.

(** Exception classes raised by the package or by the builtins it calls. *)
Inductive exn : Set :=
| ValueError
| TypeError
| KeyError
| IndexError
| AttributeError
| AssertionError
| RuntimeError
| ExtractError
| UnicodeError
| JSONDecodeError
| OSError
| RecursionError.

Inductive result (A : Type) : Type :=
| Ok (a : A)
| Raise (e : exn).
Arguments Ok {A} a.
Arguments Raise {A} e.

Definition bind {A B} (r : result A) (k : A -> result B) : result B :=
  match r with
  | Ok a => k a
  | Raise e => Raise e
  end.

Notation "'let*' x ':=' r 'in' k" := (bind r (fun x => k))
  (at level 10, x name, r at level 100, k at level 200).

(** [[f(x) for x in xs]] where [f] may raise: the first exception wins. *)
Fixpoint mapM {A B} (f : A -> result B) (xs : list A) : result (list B) :=
  match xs with
  | [] => Ok []
  | x :: xs' => let* y := f x in let* ys := mapM f xs' in Ok (y :: ys)
  end.

Definition bytes := list byte.

(** A [numpy.ndarray], C-contiguous: element type, shape and raw buffer. *)
Record ndarray : Set := mk_ndarray {
  a_dtype : string;
  a_shape : list nat;
  a_data : bytes
}.

(** Live Python values.  [VStream h] is a reference to the [StreamWrapper]
    stored at address [h]: the reader creates them and the decoders consume
    them.  [VFile data] is any other readable binary file object, whose
    [read()] returns [data] (an [io.BytesIO], an open file, a stream the
    caller hands to an encoder). *)
Inductive value : Type :=
| VNone
| VBool (b : bool)
| VInt (n : Z)
| VStr (s : string)
| VBytes (b : bytes)
| VList (xs : list value)
| VTuple (xs : list value)
| VDict (items : list (string * value))
| VArray (a : ndarray)
| VStream (h : nat)
| VFile (data : bytes)
| VAudioDecoder (fobj : value) (dtype : string) (shape : list (option Z))
    (sample_rate : option Z).

(** *** Dictionaries *)

Section Dict.
Context {V : Type}.

(** [d.get(k)] *)
Fixpoint dict_get (d : list (string * V)) (k : string) : option V :=
  match d with
  | [] => None
  | (k', v) :: d' => if String.eqb k' k then Some v else dict_get d' k
  end.

(** [d[k] = v]: an existing key keeps its position, a new key goes last. *)
Fixpoint dict_set (d : list (string * V)) (k : string) (v : V) : list (string * V) :=
  match d with
  | [] => [(k, v)]
  | (k', v') :: d' =>
      if String.eqb k' k then (k, v) :: d' else (k', v') :: dict_set d' k v
  end.

Definition keys (d : list (string * V)) : list string := map fst d.

End Dict.

(** *** Strings *)

Definition is_slash (c : ascii) : bool := Ascii.eqb c "/"%char.

(** [s.split("/")] *)
Fixpoint split_slash (s : string) : list string :=
  match s with
  | EmptyString => [EmptyString]
  | String c s' =>
      if is_slash c then EmptyString :: split_slash s'
      else match split_slash s' with
           | h :: t => String c h :: t
           | [] => [String c EmptyString]
           end
  end.

Definition is_digit (c : ascii) : bool :=
  (48 <=? nat_of_ascii c) && (nat_of_ascii c <=? 57).

Fixpoint all_digits (s : string) : bool :=
  match s with
  | EmptyString => true
  | String c s' => is_digit c && all_digits s'
  end.

(** [s.isdigit()] on an ASCII string: non-empty and decimal digits only. *)
Definition isdigit (s : string) : bool :=
  match s with
  | EmptyString => false
  | _ => all_digits s
  end.

(** [str(n)] for a non-negative integer. *)
Definition str (n : nat) : string := NilZero.string_of_uint (Nat.to_uint n).

(** [int(s)] for the strings [isdigit] accepts; [ValueError] otherwise. *)
Definition int (s : string) : result nat :=
  match NilZero.uint_of_string s with
  | Some u => Ok (Nat.of_uint u)
  | None => Raise ValueError
  end.

(** [sorted(items, key=...)]: the keys are computed first, then the items
    are sorted by key, stably. *)
Fixpoint insert_by_key {A} (x : nat * A) (l : list (nat * A)) : list (nat * A) :=
  match l with
  | [] => [x]
  | y :: l' => if fst x <=? fst y then x :: l else y :: insert_by_key x l'
  end.

Definition sort_by_key {A} (l : list (nat * A)) : list (nat * A) :=
  fold_right insert_by_key [] l.

Definition sorted {A} (key : A -> result nat) (items : list A) : result (list A) :=
  let* ks := mapM key items in
  Ok (map snd (sort_by_key (combine ks items))).

(** [os.path.basename] *)
Definition basename (p : string) : string := List.last (split_slash p) EmptyString.

End Py.
Import Py.

(** ** Tar packing and unpacking *)

Module Tar.

Inductive tartype : Set := REGTYPE | DIRTYPE.

(** [tarfile.TarInfo]: the header fields the package sets or reads. *)
Record TarInfo : Set := mkTarInfo {
  name : string;
  type : tartype;
  mode : N;
  size : nat
}.

(** [tarfile.TarInfo(name=...)]: a regular file of size 0, mode 0o644. *)
Definition new_TarInfo (n : string) : TarInfo :=
  {| name := n; type := REGTYPE; mode := 420%N; size := 0 |}.

Definition isfile (t : TarInfo) : bool :=
  match type t with REGTYPE => true | DIRTYPE => false end.
Definition isdir (t : TarInfo) : bool :=
  match type t with DIRTYPE => true | REGTYPE => false end.

(** A member of an archive: header and payload.  An archive is the list of
    its members in the order they were added; iterating an archive opened
    for reading yields the members in that order, with their names. *)
Record member : Set := mkMember {
  info : TarInfo;
  payload : bytes
}.

Definition tarfile := list member.

(** [tar.addfile(tarinfo, fileobj)] copies [tarinfo.size] bytes. *)
Definition addfile (tar : tarfile) (t : TarInfo) (data : bytes) : tarfile :=
  tar ++ [{| info := t; payload := firstn (size t) data |}].

(** *** tar_writer.py *)

Definition _add_dir_to_tar (tar : tarfile) (n : string) : tarfile :=
  addfile tar {| name := n; type := DIRTYPE; mode := 493%N; size := 0 |} [].

Section WriteLoops.
Variable rec : tarfile -> string -> value -> tarfile * result nat.
Variable prefix : string.

(** [for key, value in data.items(): ... size += _write_to_tar(...)] *)
Fixpoint write_items (tar : tarfile) (sz : nat) (items : list (string * value))
  : tarfile * result nat :=
  match items with
  | [] => (tar, Ok sz)
  | (key, v) :: rest =>
      if isdigit key then (tar, Raise ValueError)
      else match rec tar (prefix +:+ "/" +:+ key) v with
           | (tar', Ok n) => write_items tar' (sz + n) rest
           | (tar', Raise e) => (tar', Raise e)
           end
  end.

(** [for i, value in enumerate(data): ... size += _write_to_tar(...)] *)
Fixpoint write_elems (tar : tarfile) (sz : nat) (i : nat) (xs : list value)
  : tarfile * result nat :=
  match xs with
  | [] => (tar, Ok sz)
  | v :: rest =>
      match rec tar (prefix +:+ "/" +:+ str i) v with
      | (tar', Ok n) => write_elems tar' (sz + n) (S i) rest
      | (tar', Raise e) => (tar', Raise e)
      end
  end.

End WriteLoops.

(** [_write_to_tar(tar, prefix, data)]: the archive after the call (also
    when it raises part-way) and the payload size written.  The last branch
    is "assumed to be bytes or None": any other leaf fails in [len] or in
    [io.BytesIO] before a member is added. *)
Fixpoint _write_to_tar (tar : tarfile) (prefix : string) (data : value)
  : tarfile * result nat :=
  match data with
  | VDict items =>
      write_items _write_to_tar prefix (_add_dir_to_tar tar prefix) 0 items
  | VList xs =>
      write_elems _write_to_tar prefix (_add_dir_to_tar tar prefix) 0 0 xs
  | VNone => (addfile tar (new_TarInfo prefix) [], Ok 0)
  | VBytes b =>
      (addfile tar {| name := prefix; type := REGTYPE; mode := 420%N;
                      size := length b |} b,
       Ok (length b))
  | _ => (tar, Raise TypeError)
  end.

(** *** tar_reader.py *)

(** What unpacking builds: dictionaries, lists, and stream wrappers around
    extracted members.  A wrapper is identified with the member it was
    extracted from; its reference counting is the subject of the
    [StreamWrapper] module. *)
Inductive feature : Type :=
| FDict (items : list (string * feature))
| FList (xs : list feature)
| FStream (m : member).

Definition _get_tar_index (t : TarInfo) : string :=
  hd EmptyString (split_slash (name t)).

(** [tar_stream.extractfile(tarinfo)] is [None] for a directory. *)
Definition _get_inner_fobj (m : member) : result feature :=
  match type (info m) with
  | REGTYPE => Ok (FStream m)
  | DIRTYPE => Raise ExtractError
  end.

(** The body of [for part in parts[1:-1]: ...] followed by
    [current_dict[parts[-1]] = ...], on the dictionary reached so far.
    Descending into an entry that is a stream wrapper, not a dictionary,
    fails at the item assignment. *)
Fixpoint set_nested (d : list (string * feature)) (middle : list string)
    (last : string) (leaf : feature) : result (list (string * feature)) :=
  match middle with
  | [] => Ok (dict_set d last leaf)
  | part :: middle' =>
      match dict_get d part with
      | None =>
          let* sub := set_nested [] middle' last leaf in
          Ok (dict_set d part (FDict sub))
      | Some (FDict sub0) =>
          let* sub := set_nested sub0 middle' last leaf in
          Ok (dict_set d part (FDict sub))
      | Some _ => Raise TypeError
      end
  end.

(** One iteration of [for tarinfo in group] in the nested case. *)
Definition compose_step (nested : list (string * feature)) (m : member)
  : result (list (string * feature)) :=
  if isdir (info m) then Ok nested
  else
    let parts := split_slash (name (info m)) in
    let* leaf := _get_inner_fobj m in
    set_nested nested (removelast (tl parts)) (List.last parts EmptyString) leaf.

Fixpoint compose_loop (nested : list (string * feature)) (group : list member)
  : result (list (string * feature)) :=
  match group with
  | [] => Ok nested
  | m :: group' =>
      let* nested' := compose_step nested m in compose_loop nested' group'
  end.

Definition digit_key (item : string * feature) : bool := isdigit (fst item).
Definition int_key (item : string * feature) : result nat := int (fst item).

(** [_transform_dict]: values that are dictionaries are transformed first;
    the result becomes a list when all keys are decimal. *)
Fixpoint transform (f : feature) : result feature :=
  match f with
  | FDict items =>
      let* result_dict :=
        mapM (fun kv => match kv with
                        | (k, v) => let* v' := transform v in Ok (k, v')
                        end) items in
      if forallb digit_key result_dict then
        let* s := sorted int_key result_dict in Ok (FList (map snd s))
      else Ok (FDict result_dict)
  | _ => Ok f
  end.

Definition _transform_dict (input_dict : list (string * feature)) : result feature :=
  transform (FDict input_dict).

(** [_compose_feature(tar_stream, group)] *)
Definition _compose_feature (group : list member) : result feature :=
  match group with
  | [tarinfo] =>
      if isfile (info tarinfo) then _get_inner_fobj tarinfo
      else Raise AssertionError
  | _ =>
      let* nested := compose_loop [] group in _transform_dict nested
  end.

(** What a generator does: yields, then ends or raises. *)
Inductive gen (A : Type) : Type :=
| Done
| Yield (a : A) (rest : gen A)
| Fail (e : exn).
Arguments Done {A}.
Arguments Yield {A} a rest.
Arguments Fail {A} e.

Definition yield_composed (index : string) (group : list member)
    (rest : gen (string * feature)) : gen (string * feature) :=
  match _compose_feature group with
  | Ok f => Yield (index, f) rest
  | Raise e => Fail e
  end.

(** [_feature_stream]: [feature_group] is the list accumulated so far,
    [members] what the archive iterator still holds. *)
Fixpoint feature_stream_loop (feature_group : list member) (members : tarfile)
  : gen (string * feature) :=
  match members with
  | [] => Done
  | tarinfo :: rest =>
      let index := _get_tar_index (info tarinfo) in
      let feature_group := feature_group ++ [tarinfo] in
      match rest with
      | [] => yield_composed index feature_group Done
      | next :: _ =>
          if negb (String.eqb (_get_tar_index (info next)) index)
          then yield_composed index feature_group (feature_stream_loop [] rest)
          else feature_stream_loop feature_group rest
      end
  end.

Definition _feature_stream (stream : tarfile) : gen (string * feature) :=
  feature_stream_loop [] stream.

End Tar.

(** ** utils.py: the reference-counted stream wrapper *)

Module Utils.

(** The wrapped file object: its content, read position and closed flag. *)
Record File : Set := mkFile {
  f_data : bytes;
  f_pos : nat;
  f_closed : bool
}.

Record StreamWrapper : Set := mkStreamWrapper {
  file_obj : File;
  child_counter : Z;
  parent_stream : option nat;
  close_on_last_child : bool;
  name : option string;
  closed : bool
}.

(** The objects of a run: wrappers by address (addresses are given out in
    order of construction), and the two class attributes. *)
Record heap : Type := mkHeap {
  wrappers : list StreamWrapper;
  session_streams : gset nat;
  debug_unclosed_streams : bool
}.

Definition empty_heap (debug : bool) : heap :=
  {| wrappers := []; session_streams := ∅; debug_unclosed_streams := debug |}.

Definition set_wrappers (ws : list StreamWrapper) (h : heap) : heap :=
  {| wrappers := ws;
     session_streams := session_streams h;
     debug_unclosed_streams := debug_unclosed_streams h |}.

Definition set_session_streams (r : gset nat) (h : heap) : heap :=
  {| wrappers := wrappers h;
     session_streams := r;
     debug_unclosed_streams := debug_unclosed_streams h |}.

(** An attribute update on the wrapper at address [i]. *)
Definition upd (i : nat) (f : StreamWrapper -> StreamWrapper) (h : heap) : heap :=
  set_wrappers (alter f i (wrappers h)) h.

Definition add_child (d : Z) (w : StreamWrapper) : StreamWrapper :=
  {| file_obj := file_obj w; child_counter := child_counter w + d;
     parent_stream := parent_stream w;
     close_on_last_child := close_on_last_child w;
     name := name w; closed := closed w |}.

(** [self.file_obj.close(); self.closed = True] *)
Definition mark_closed (w : StreamWrapper) : StreamWrapper :=
  {| file_obj := {| f_data := f_data (file_obj w); f_pos := f_pos (file_obj w);
                    f_closed := true |};
     child_counter := child_counter w;
     parent_stream := parent_stream w;
     close_on_last_child := close_on_last_child w;
     name := name w; closed := true |}.

Definition set_close_on_last_child (w : StreamWrapper) : StreamWrapper :=
  {| file_obj := file_obj w; child_counter := child_counter w;
     parent_stream := parent_stream w;
     close_on_last_child := true;
     name := name w; closed := closed w |}.

Definition set_file (f : File) (w : StreamWrapper) : StreamWrapper :=
  {| file_obj := f; child_counter := child_counter w;
     parent_stream := parent_stream w;
     close_on_last_child := close_on_last_child w;
     name := name w; closed := closed w |}.

(** [StreamWrapper(file_obj, parent_stream, name)]: the address of the new
    wrapper.  A parent that is not a wrapper of the heap is the
    [RuntimeError] of the [isinstance] test. *)
Definition __init__ (file : File) (parent : option nat) (nm : option string)
    (h : heap) : result nat * heap :=
  let self := length (wrappers h) in
  let w := {| file_obj := file; child_counter := 0; parent_stream := parent;
              close_on_last_child := false; name := nm; closed := false |} in
  let register h :=
    if debug_unclosed_streams h
    then set_session_streams ({[self]} ∪ session_streams h) h else h in
  match parent with
  | None => (Ok self, register (set_wrappers (wrappers h ++ [w]) h))
  | Some p =>
      match wrappers h !! p with
      | None => (Raise RuntimeError, h)
      | Some _ =>
          (Ok self,
           register (set_wrappers (alter (add_child 1) p (wrappers h) ++ [w]) h))
      end
  end.

(** [close]: [fuel] bounds the calls nested through [parent_stream]. *)
Fixpoint close_fuel (fuel : nat) (self : nat) (h : heap) : result unit * heap :=
  match fuel with
  | 0 => (Raise RecursionError, h)
  | S fuel' =>
      match wrappers h !! self with
      | None => (Raise AttributeError, h)
      | Some w =>
          if closed w then (Ok tt, h)
          else if debug_unclosed_streams h
                  && negb (bool_decide (self ∈ session_streams h))
          then (Raise KeyError, h)
          else
            let h1 :=
              if debug_unclosed_streams h
              then set_session_streams (session_streams h ∖ {[self]}) h
              else h in
            let rh :=
              match parent_stream w with
              | None => (Ok tt, h1)
              | Some p =>
                  let h2 := upd p (add_child (-1)) h1 in
                  match wrappers h2 !! p with
                  | None => (Raise AttributeError, h2)
                  | Some pw =>
                      if (child_counter pw =? 0)%Z && close_on_last_child pw
                      then close_fuel fuel' p h2
                      else (Ok tt, h2)
                  end
              end in
            match rh with
            | (Ok _, h3) => (Ok tt, upd self mark_closed h3)
            | (Raise e, h3) => (Raise e, h3)
            end
      end
  end.

(** A chain of parents is never longer than the heap. *)
Definition close (self : nat) (h : heap) : result unit * heap :=
  close_fuel (length (wrappers h)) self h.

Definition autoclose (self : nat) (h : heap) : result unit * heap :=
  let h1 := upd self set_close_on_last_child h in
  match wrappers h1 !! self with
  | None => (Raise AttributeError, h)
  | Some w => if (child_counter w =? 0)%Z then close self h1 else (Ok tt, h1)
  end.

(** [stream.read()], delegated to the file object by [__getattr__]. *)
Definition read (self : nat) (h : heap) : result bytes * heap :=
  match wrappers h !! self with
  | None => (Raise AttributeError, h)
  | Some w =>
      let f := file_obj w in
      if f_closed f then (Raise ValueError, h)
      else (Ok (skipn (f_pos f) (f_data f)),
            upd self (set_file {| f_data := f_data f; f_pos := length (f_data f);
                                  f_closed := false |}) h)
  end.

End Utils.

(** ** features: the schema and its codecs *)

(** What the package takes from Python's codecs, [json], [numpy] and the
    file system. *)
Class Runtime : Type := {
  (** [s.encode("utf-8")] and [b.decode("utf-8")] *)
  utf8_encode : string -> result bytes;
  utf8_decode : bytes -> result string;
  (** [json.dumps] and [json.loads] *)
  json_dumps : value -> result string;
  json_loads : string -> result value;
  (** [np.dtype(s)]: the name of the element type, [None] when [s] is not
      understood, and its item size in bytes *)
  np_dtype : string -> option string;
  np_itemsize : string -> nat;
  (** [np.asarray(example, dtype=...)] on a value that is not an array *)
  np_asarray : value -> string -> result ndarray;
  (** [open(filename, "rb").read()] *)
  read_file : string -> result bytes
}.

Module Np.
Section Np.
Context `{Runtime}.

Definition prod (shape : list nat) : nat := fold_right Nat.mul 1 shape.

(** [np.frombuffer(buffer, dtype=dtype)]: a one-dimensional array. *)
Definition frombuffer (buffer : bytes) (dtype : string) : result ndarray :=
  match np_dtype dtype with
  | None => Raise TypeError
  | Some d =>
      let n := np_itemsize d in
      if n =? 0 then Raise ValueError
      else if length buffer mod n =? 0
      then Ok {| a_dtype := d; a_shape := [length buffer / n]; a_data := buffer |}
      else Raise ValueError
  end.

Definition known_dims (newshape : list Z) : list nat :=
  map Z.to_nat (List.filter (fun d => negb (d =? -1)%Z) newshape).

(** [a.reshape(newshape)]: at most one dimension may be [-1]; it is
    inferred from the size of the array and the other dimensions. *)
Definition reshape (a : ndarray) (newshape : list Z) : result ndarray :=
  let size := prod (a_shape a) in
  let known := prod (known_dims newshape) in
  if existsb (fun d => (d <? -1)%Z) newshape then Raise ValueError
  else
    match length (List.filter (fun d => (d =? -1)%Z) newshape) with
    | 0 =>
        if known =? size
        then Ok {| a_dtype := a_dtype a; a_shape := map Z.to_nat newshape;
                   a_data := a_data a |}
        else Raise ValueError
    | 1 =>
        if (known =? 0) || negb (size mod known =? 0) then Raise ValueError
        else Ok {| a_dtype := a_dtype a;
                   a_shape := map (fun d => if (d =? -1)%Z then size / known
                                            else Z.to_nat d) newshape;
                   a_data := a_data a |}
    | _ => Raise ValueError
    end.

End Np.
End Np.

(** *** tensor.py: the part of the shape algebra that encoding uses *)

Module Shape.

Record Dimension : Set := mkDimension { value : option Z }.

(** [Dimension(value)] *)
Definition new_Dimension (v : option Z) : result Dimension :=
  match v with
  | Some n => if (n <? 0)%Z then Raise ValueError else Ok (mkDimension (Some n))
  | None => Ok (mkDimension None)
  end.

Definition Dimension_is_compatible_with (self other : Dimension) : bool :=
  match value self, value other with
  | Some a, Some b => (a =? b)%Z
  | _, _ => true
  end.

(** A shape: [None] when the rank is unknown. *)
Record TensorShape : Set := mkTensorShape { dims : option (list Dimension) }.

(** [TensorShape(dims)] for a tuple or list of sizes. *)
Definition new_TensorShape (ds : list (option Z)) : result TensorShape :=
  bind (mapM new_Dimension ds) (fun l => Ok (mkTensorShape (Some l))).

Definition rank (s : TensorShape) : option nat := option_map (@length _) (dims s).
Definition ndims (s : TensorShape) : option nat := rank s.

Definition assert_same_rank (self other : TensorShape) : result unit :=
  match rank self, rank other with
  | Some a, Some b => if negb (a =? b) then Raise ValueError else Ok tt
  | _, _ => Ok tt
  end.

Fixpoint zip_compatible (xs ys : list Dimension) : bool :=
  match xs, ys with
  | x :: xs', y :: ys' =>
      if negb (Dimension_is_compatible_with x y) then false
      else zip_compatible xs' ys'
  | _, _ => true
  end.

Definition is_compatible_with (self other : TensorShape) : bool :=
  match dims self, dims other with
  | Some xs, Some ys =>
      if negb (length xs =? length ys) then false else zip_compatible xs ys
  | _, _ => true
  end.

Definition assert_is_compatible_with (self other : TensorShape) : result unit :=
  if negb (is_compatible_with self other) then Raise ValueError else Ok tt.

(** [assert_shape_match(shape1, shape2)] *)
Definition assert_shape_match (shape1 : list nat) (shape2 : list (option Z))
  : result unit :=
  bind (new_TensorShape (map (fun n => Some (Z.of_nat n)) shape1)) (fun shape1 =>
  bind (new_TensorShape shape2) (fun shape2 =>
  match ndims shape1, ndims shape2 with
  | Some _, Some _ =>
      bind (assert_same_rank shape1 shape2) (fun _ =>
      assert_is_compatible_with shape1 shape2)
  | _, _ => Raise ValueError
  end)).

End Shape.

(** The schema of a column.  [Dict] is a mapping of names to schemas (a
    [Features] object at the top), [ListOf] a list whose first element is
    the schema of the elements; the others are the feature classes. *)
Inductive FeatureType : Type :=
| Dict (fields : list (string * FeatureType))
| ListOf (elems : list FeatureType)
| Sequence (feature : FeatureType) (length : Z)
| Tensor (shape : list (option Z)) (dtype : string)
| Scalar (dtype : string)
| Text
| Json
| Audio (shape : list (option Z)) (dtype : string) (sample_rate : option Z).

(** Computations that read and close stream wrappers. *)
Definition M (A : Type) : Type := Utils.heap -> result A * Utils.heap.

Definition ret {A} (a : A) : M A := fun h => (Ok a, h).
Definition raise {A} (e : exn) : M A := fun h => (Raise e, h).
Definition lift {A} (r : result A) : M A := fun h => (r, h).
Definition bindM {A B} (m : M A) (k : A -> M B) : M B :=
  fun h => match m h with
           | (Ok a, h') => k a h'
           | (Raise e, h') => (Raise e, h')
           end.

Notation "'do*' x ':=' m 'in' k" := (bindM m (fun x => k))
  (at level 10, x name, m at level 100, k at level 200).

Fixpoint mapMM {A B} (f : A -> M B) (xs : list A) : M (list B) :=
  match xs with
  | [] => ret []
  | x :: xs' => do* y := f x in do* ys := mapMM f xs' in ret (y :: ys)
  end.

(** [example = fobj.read(); fobj.close()] on a stream wrapper. *)
Definition read_and_close (h : nat) : M bytes :=
  do* example := Utils.read h in
  do* _ := Utils.close h in
  ret example.

Module Text.
Section Text.
Context `{Runtime}.

Definition encode_example (example : Py.value) : result Py.value :=
  match example with
  | VStr s => let* b := utf8_encode s in Ok (VBytes b)
  | _ => Raise AttributeError
  end.

Definition decode_bytes (example : Py.value) : M Py.value :=
  match example with
  | VBytes b => lift (let* s := utf8_decode b in Ok (VStr s))
  | _ => raise AttributeError
  end.

Definition decode_example (example : Py.value) : M Py.value :=
  match example with
  | VStream fobj =>
      do* example := read_and_close fobj in
      match example with
      | [] => ret VNone
      | _ => decode_bytes (VBytes example)
      end
  | _ => decode_bytes example
  end.

End Text.
End Text.

Module Json.
Section Json.
Context `{Runtime}.

Definition encode_example (example : Py.value) : result Py.value :=
  let* s := json_dumps example in Text.encode_example (VStr s).

(** [json.loads] takes a string; on [None] it raises [TypeError]. *)
Definition loads (s : Py.value) : result Py.value :=
  match s with
  | VStr s => json_loads s
  | _ => Raise TypeError
  end.

Definition decode_example (example : Py.value) : M Py.value :=
  do* s := Text.decode_example example in lift (loads s).

End Json.
End Json.

Module Tensor.
Section Tensor.
Context `{Runtime}.
Variable shape : list (option Z).
Variable dtype : string.

(** [example.dtype != self.dtype] *)
Definition dtype_differs (a : ndarray) : bool :=
  match np_dtype dtype with
  | Some d => negb (String.eqb (a_dtype a) d)
  | None => true
  end.

Definition encode_example (example : Py.value) : result Py.value :=
  let* a := match example with
            | VArray a => Ok a
            | _ => np_asarray example dtype
            end in
  if dtype_differs a then Raise ValueError
  else
    let* _ := Shape.assert_shape_match (a_shape a) shape in
    Ok (VBytes (a_data a)).

Definition decode_bytes (example : Py.value) : M Py.value :=
  match example with
  | VBytes b =>
      let shape := map (fun dim => match dim with None => (-1)%Z | Some d => d end)
                     shape in
      lift (let* a := Np.frombuffer b dtype in
            let* a := Np.reshape a shape in
            Ok (VArray a))
  | _ => raise TypeError
  end.

Definition decode_example (example : Py.value) : M Py.value :=
  match example with
  | VStream fobj =>
      do* example := read_and_close fobj in
      match example with
      | [] => ret VNone
      | _ => decode_bytes (VBytes example)
      end
  | _ => decode_bytes example
  end.

End Tensor.
End Tensor.

Module Audio.
Section Audio.
Context `{Runtime}.
Variable shape : list (option Z).
Variable dtype : string.
Variable sample_rate : option Z.

(** A path is read from the file system, an array is refused, anything
    else is asked to [read()]: a file object ([VFile]) answers, the other
    values have no such attribute. *)
Definition encode_example (audio_or_path_or_fobj : Py.value) : result Py.value :=
  match audio_or_path_or_fobj with
  | VStr filename => let* audio := read_file filename in Ok (VBytes audio)
  | VArray _ => Raise ValueError
  | VFile audio => Ok (VBytes audio)
  | _ => Raise AttributeError
  end.

Definition decode_example (audio_data : Py.value) : M Py.value :=
  let audio_fobj := match audio_data with
                    | VBytes b => VFile b
                    | _ => audio_data
                    end in
  ret (VAudioDecoder audio_fobj dtype shape sample_rate).

End Audio.
End Audio.

(** *** features.py: schema-directed encoding and decoding *)

Module Features.
Section Features.
Context `{Runtime}.

(** [schema.encode_example(obj)] and [schema.decode_example(obj)] of the
    feature classes. *)
Definition encode_example (schema : FeatureType) (obj : Py.value) : result Py.value :=
  match schema with
  | Tensor shape dtype => Tensor.encode_example shape dtype obj
  | Scalar dtype => Tensor.encode_example [] dtype obj
  | Text => Text.encode_example obj
  | Json => Json.encode_example obj
  | Audio _ _ _ => Audio.encode_example obj
  | Dict _ | ListOf _ | Sequence _ _ => Raise AttributeError
  end.

Definition decode_example (schema : FeatureType) (obj : Py.value) : M Py.value :=
  match schema with
  | Tensor shape dtype => Tensor.decode_example shape dtype obj
  | Scalar dtype => Tensor.decode_example [] dtype obj
  | Text => Text.decode_example obj
  | Json => Json.decode_example obj
  | Audio shape dtype sample_rate => Audio.decode_example shape dtype sample_rate obj
  | Dict _ | ListOf _ | Sequence _ _ => raise AttributeError
  end.

(** [d[key]] *)
Definition getitem {V} (d : list (string * V)) (key : string) : result V :=
  match dict_get d key with
  | Some v => Ok v
  | None => Raise KeyError
  end.

(** The values [zip_dict] and the traversal take for dictionaries; any
    other value fails in [itertools.chain] or in [d[key]]. *)
Definition as_dict (obj : Py.value) : result (list (string * Py.value)) :=
  match obj with
  | VDict items => Ok items
  | _ => Raise TypeError
  end.

(** [for o in obj] on the containers of the model: lists, tuples, strings,
    byte strings and dictionaries ([len(obj)] is defined on the same
    values; arrays are not iterated in the model). *)
Definition iter (obj : Py.value) : result (list Py.value) :=
  match obj with
  | VList xs | VTuple xs => Ok xs
  | VStr s => Ok (map (fun c => VStr (String c EmptyString)) (list_ascii_of_string s))
  | VBytes b => Ok (map (fun c => VInt (Z.of_N (Byte.to_N c))) b)
  | VDict items => Ok (map VStr (keys items))
  | _ => Raise TypeError
  end.

(** The keys of [objs] that [schema] does not have: [zip_dict] reaches
    them after the keys of the schema and fails on [schema[key]]. *)
Definition extra_keys {V} (schema : list (string * V))
    (objs : list (list (string * Py.value))) : list string :=
  List.filter (fun k => match dict_get schema k with Some _ => false | None => true end)
    (concat (map keys objs)).

Definition no_extra_keys {V} (schema : list (string * V))
    (objs : list (list (string * Py.value))) : result unit :=
  match extra_keys schema objs with
  | [] => Ok tt
  | _ => Raise KeyError
  end.

Section Encode.
Variable rec : FeatureType -> Py.value -> result Py.value.

(** [{k: rec(sub_schema, sub_obj) for k, (sub_schema, sub_obj) in
    zip_dict(schema, obj)}], keys in the order of the schema. *)
Fixpoint encode_fields (fields : list (string * FeatureType))
    (obj : list (string * Py.value)) : result (list (string * Py.value)) :=
  match fields with
  | [] => Ok []
  | (k, sub_schema) :: rest =>
      let* sub_obj := getitem obj k in
      let* v := rec sub_schema sub_obj in
      let* vs := encode_fields rest obj in
      Ok ((k, v) :: vs)
  end.

(** [[rec(sub_schema, o) for o in obj]] if [len(obj) > 0], else
    [list(obj)]. *)
Definition encode_elements (sub_schema : FeatureType) (obj : Py.value)
  : result Py.value :=
  let* xs := iter obj in
  let* ys := mapM (rec sub_schema) xs in
  Ok (VList ys).

(** [zip_dict(schema.feature, *obj)] on a list of dictionaries:
    [list_dict[k] = [rec(sub_schema, o[k]) for o in obj]]. *)
Fixpoint encode_columns (fields : list (string * FeatureType))
    (structs : list (list (string * Py.value))) : result (list (string * Py.value)) :=
  match fields with
  | [] => Ok []
  | (k, sub_schema) :: rest =>
      let* dict_tuples := mapM (fun o => getitem o k) structs in
      let* column := mapM (rec sub_schema) dict_tuples in
      let* vs := encode_columns rest structs in
      Ok ((k, VList column) :: vs)
  end.

(** [zip_dict(schema.feature, obj)] on one dictionary of lists:
    [list_dict[k] = [rec(sub_schema, o) for o in sub_objs]]. *)
Fixpoint encode_lists (fields : list (string * FeatureType))
    (obj : list (string * Py.value)) : result (list (string * Py.value)) :=
  match fields with
  | [] => Ok []
  | (k, sub_schema) :: rest =>
      let* sub_objs := getitem obj k in
      let* xs := iter sub_objs in
      let* column := mapM (rec sub_schema) xs in
      let* vs := encode_lists rest obj in
      Ok ((k, VList column) :: vs)
  end.

End Encode.

(** [schema[0]] *)
Definition first_schema (elems : list FeatureType) : result FeatureType :=
  match elems with
  | sub_schema :: _ => Ok sub_schema
  | [] => Raise IndexError
  end.

Fixpoint encode_nested_example (schema : FeatureType) (obj : Py.value) (level : nat)
  : result Py.value :=
  let rec s o := encode_nested_example s o (S level) in
  match schema with
  | Dict fields =>
      match obj with
      | VNone => if level =? 0 then Raise ValueError else Ok VNone
      | _ =>
          let* items := as_dict obj in
          let* vs := encode_fields rec fields items in
          let* _ := no_extra_keys fields [items] in
          Ok (VDict vs)
      end
  | ListOf elems =>
      match elems with
      | [] => Raise IndexError
      | sub_schema :: _ =>
          match obj with
          | VNone => Ok VNone
          | _ => encode_elements rec sub_schema obj
          end
      end
  | Sequence feature _ =>
      match obj with
      | VNone => Ok VNone
      | _ =>
          match feature with
          | Dict fields =>
              match obj with
              | VList structs | VTuple structs =>
                  let* structs := mapM as_dict structs in
                  let* vs := encode_columns rec fields structs in
                  let* _ := no_extra_keys fields structs in
                  Ok (VDict vs)
              | _ =>
                  let* items := as_dict obj in
                  let* vs := encode_lists rec fields items in
                  let* _ := no_extra_keys fields [items] in
                  Ok (VDict vs)
              end
          | _ =>
              match obj with
              | VStr _ => Raise ValueError
              | _ => encode_elements rec feature obj
              end
          end
      end
  | _ =>
      match obj with
      | VNone => Ok VNone
      | _ => encode_example schema obj
      end
  end.

Section Decode.
Variable rec : FeatureType -> Py.value -> M Py.value.

Fixpoint decode_fields (fields : list (string * FeatureType))
    (obj : list (string * Py.value)) : M (list (string * Py.value)) :=
  match fields with
  | [] => ret []
  | (k, sub_schema) :: rest =>
      do* sub_obj := lift (getitem obj k) in
      do* v := rec sub_schema sub_obj in
      do* vs := decode_fields rest obj in
      ret ((k, v) :: vs)
  end.

(** The list case, [decode_nested_example([sub_schema], obj)]. *)
Definition decode_elements (sub_schema : FeatureType) (obj : Py.value) : M Py.value :=
  match obj with
  | VNone => ret VNone
  | _ =>
      do* xs := lift (iter obj) in
      do* ys := mapMM (rec sub_schema) xs in
      ret (VList ys)
  end.

(** [{k: decode_nested_example([schema.feature[k]], obj[k])
      for k in schema.feature}] *)
Fixpoint decode_columns (fields : list (string * FeatureType)) (obj : Py.value)
  : M (list (string * Py.value)) :=
  match fields with
  | [] => ret []
  | (k, sub_schema) :: rest =>
      do* column := lift (let* items := as_dict obj in getitem items k) in
      do* v := decode_elements sub_schema column in
      do* vs := decode_columns rest obj in
      ret ((k, v) :: vs)
  end.

End Decode.

Fixpoint decode_nested_example (schema : FeatureType) (obj : Py.value)
  : M Py.value :=
  match schema with
  | Dict fields =>
      match obj with
      | VNone => ret VNone
      | _ =>
          do* items := lift (as_dict obj) in
          do* vs := decode_fields decode_nested_example fields items in
          do* _ := lift (no_extra_keys fields [items]) in
          ret (VDict vs)
      end
  | ListOf elems =>
      match elems with
      | [] => raise IndexError
      | sub_schema :: _ => decode_elements decode_nested_example sub_schema obj
      end
  | Sequence feature _ =>
      match feature with
      | Dict fields =>
          do* vs := decode_columns decode_nested_example fields obj in
          ret (VDict vs)
      | _ => decode_elements decode_nested_example feature obj
      end
  | _ =>
      match obj with
      | VNone => ret VNone
      | _ => decode_example schema obj
      end
  end.

(** [Features.encode_example] and [Features.decode_example] *)
Definition Features_encode_example (self : list (string * FeatureType))
    (example : Py.value) : result Py.value :=
  encode_nested_example (Dict self) example 0.

Definition Features_decode_example (self : list (string * FeatureType))
    (example : Py.value) : M Py.value :=
  do* items := lift (as_dict example) in
  let present :=
    List.filter (fun kv => match dict_get items (fst kv) with
                           | Some _ => true
                           | None => false
                           end) self in
  do* vs := decode_fields decode_nested_example present items in
  do* _ := lift (no_extra_keys present [items]) in
  ret (VDict vs).

End Features.
End Features.

(** ** A small runtime, to evaluate the codecs on concrete values *)

Module Sample.

Definition is_ascii (c : ascii) : bool := nat_of_ascii c <? 128.

(** UTF-8 on ASCII text; other text is not handled by this runtime. *)
Definition ascii_encode (s : string) : result bytes :=
  if forallb is_ascii (list_ascii_of_string s)
  then Ok (map byte_of_ascii (list_ascii_of_string s))
  else Raise UnicodeError.

Definition ascii_decode (b : bytes) : result string :=
  if forallb (fun c => is_ascii (ascii_of_byte c)) b
  then Ok (string_of_list_ascii (map ascii_of_byte b))
  else Raise UnicodeError.

(** JSON for the three literals. *)
Definition literal_dumps (v : value) : result string :=
  match v with
  | VNone => Ok "null"
  | VBool true => Ok "true"
  | VBool false => Ok "false"
  | _ => Raise TypeError
  end.

Definition literal_loads (s : string) : result value :=
  if String.eqb s "null" then Ok VNone
  else if String.eqb s "true" then Ok (VBool true)
  else if String.eqb s "false" then Ok (VBool false)
  else Raise JSONDecodeError.

Definition dtype_name (s : string) : option string :=
  if String.eqb s "uint8" || String.eqb s "u1" then Some "uint8"
  else if String.eqb s "int32" || String.eqb s "i4" then Some "int32"
  else if String.eqb s "float32" || String.eqb s "f4" then Some "float32"
  else None.

Definition dtype_itemsize (d : string) : nat :=
  if String.eqb d "uint8" then 1 else 4.

(** [np.asarray] of a small non-negative integer as [uint8]. *)
Definition small_asarray (v : value) (dtype : string) : result ndarray :=
  match v, dtype_name dtype with
  | VInt n, Some "uint8" =>
      if ((0 <=? n) && (n <? 256))%Z
      then match Byte.of_N (Z.to_N n) with
           | Some b => Ok {| a_dtype := "uint8"; a_shape := []; a_data := [b] |}
           | None => Raise ValueError
           end
      else Raise ValueError
  | _, _ => Raise TypeError
  end.

Definition one_file (filename : string) : result bytes :=
  if String.eqb filename "clip.wav" then Ok [x52; x49; x46; x46]
  else Raise OSError.

#[export] Instance runtime : Runtime := {|
  utf8_encode := ascii_encode;
  utf8_decode := ascii_decode;
  json_dumps := literal_dumps;
  json_loads := literal_loads;
  np_dtype := dtype_name;
  np_itemsize := dtype_itemsize;
  np_asarray := small_asarray;
  read_file := one_file
|}.

End Sample.

(** ** info.py: the dataset manifest *)

Module Info.

Record DatasetInfo : Type := mkDatasetInfo {
  description : string;
  file_list : list string;
  features : option (list (string * FeatureType));
  size_in_bytes : option Z;
  metadata : option (list (string * Py.value))
}.

(** *** utils.asdict on the dataclasses of the package *)

Definition of_option {A} (f : A -> Py.value) (o : option A) : Py.value :=
  match o with
  | Some a => f a
  | None => VNone
  end.

(** A field whose default is [None] is left out when it is [None]. *)
Definition unless_None (k : string) (v : Py.value) : list (string * Py.value) :=
  match v with
  | VNone => []
  | _ => [(k, v)]
  end.

(** [_asdict_inner] on a schema: a dataclass gives its fields in order,
    [_type] always, [length] unless it is the default; the shape stays a
    tuple. *)
Fixpoint asdict_feature (f : FeatureType) : Py.value :=
  match f with
  | Dict fields => VDict (map (fun kv => (fst kv, asdict_feature (snd kv))) fields)
  | ListOf elems => VList (map asdict_feature elems)
  | Sequence feature length =>
      VDict ([("feature", asdict_feature feature)]
             ++ (if (length =? -1)%Z then [] else [("length", VInt length)])
             ++ [("_type", VStr "Sequence")])
  | Tensor shape dtype =>
      VDict [("shape", VTuple (map (of_option VInt) shape));
             ("dtype", VStr dtype); ("_type", VStr "Tensor")]
  | Scalar dtype =>
      VDict [("shape", VTuple []); ("dtype", VStr dtype); ("_type", VStr "Scalar")]
  | Text => VDict [("_type", VStr "Text")]
  | Json => VDict [("_type", VStr "Json")]
  | Audio shape dtype sample_rate =>
      VDict [("shape", VTuple (map (of_option VInt) shape));
             ("dtype", VStr dtype); ("_type", VStr "Audio");
             ("sample_rate", of_option VInt sample_rate)]
  end.

(** [asdict(info)]: [description] and [file_list] have no plain default and
    are always written; the metadata is copied as it is. *)
Definition asdict (info : DatasetInfo) : Py.value :=
  VDict ([("description", VStr (description info));
          ("file_list", VList (map VStr (file_list info)))]
         ++ unless_None "features" (of_option (fun fs => asdict_feature (Dict fs))
                                      (features info))
         ++ unless_None "size_in_bytes" (of_option VInt (size_in_bytes info))
         ++ unless_None "metadata" (of_option VDict (metadata info))).

(** What [json.loads(json.dumps(v))] returns on the trees [asdict] builds:
    tuples are read back as lists. *)
Fixpoint jsonify (v : Py.value) : Py.value :=
  match v with
  | VList xs | VTuple xs => VList (map jsonify xs)
  | VDict items => VDict (map (fun kv => (fst kv, jsonify (snd kv))) items)
  | _ => v
  end.

(** The trees [json.dumps] takes: byte strings, arrays and file objects
    are not JSON serializable. *)
Fixpoint serialisable (v : Py.value) : bool :=
  match v with
  | VNone | VBool _ | VInt _ | VStr _ => true
  | VList xs | VTuple xs => forallb serialisable xs
  | VDict items => forallb (fun kv => serialisable (snd kv)) items
  | _ => false
  end.

(** [write_to_json]: the content of the manifest file, as the JSON value
    it holds; [json.dumps] raises [TypeError] on the other trees. *)
Definition to_json (info : DatasetInfo) : result Py.value :=
  if serialisable (asdict info) then Ok (jsonify (asdict info))
  else Raise TypeError.

Section FromDict.
Context `{Runtime}.

(** A dimension, an optional integer: other values are not dimensions of
    the model. *)
Definition as_optional_int (v : Py.value) : result (option Z) :=
  match v with
  | VNone => Ok None
  | VInt n => Ok (Some n)
  | _ => Raise TypeError
  end.

(** [Tensor.__init__] and [__post_init__]: the shape becomes a tuple, the
    dtype must be a string that [np.dtype] understands. *)
Definition checked_tensor (shape dtype : Py.value)
  : result (list (option Z) * string) :=
  let* dims := Features.iter shape in
  let* shape := mapM as_optional_int dims in
  match dtype with
  | VStr s =>
      match np_dtype s with
      | Some _ => Ok (shape, s)
      | None => Raise ValueError
      end
  | _ => Raise TypeError
  end.

(** A required argument of a constructor. *)
Definition required {V} (kwargs : list (string * V)) (k : string) : result V :=
  match dict_get kwargs k with
  | Some v => Ok v
  | None => Raise TypeError
  end.

Definition with_default {V} (kwargs : list (string * V)) (k : string) (d : V) : V :=
  match dict_get kwargs k with
  | Some v => v
  | None => d
  end.

(** The call of [class_type] on the items of [obj] that are fields of the
    class, for the classes of [tarzan.features] other than [Sequence].
    [Scalar] takes its dtype and swallows the shape, [Audio] has a default
    for every argument.  A name that is not one of the feature classes
    fails, in [getattr] or in [fields]; the model raises [AttributeError]
    for all of them. *)
Definition construct (class_name : string) (obj : list (string * Py.value))
  : result FeatureType :=
  if String.eqb class_name "Text" then Ok Text
  else if String.eqb class_name "Json" then Ok Json
  else if String.eqb class_name "Tensor" then
    let* shape := required obj "shape" in
    let* dtype := required obj "dtype" in
    let* sd := checked_tensor shape dtype in
    Ok (Tensor (fst sd) (snd sd))
  else if String.eqb class_name "Scalar" then
    let* dtype := required obj "dtype" in
    let* sd := checked_tensor (VTuple []) dtype in
    Ok (Scalar (snd sd))
  else if String.eqb class_name "Audio" then
    let* sd := checked_tensor (with_default obj "shape" (VTuple [VNone]))
                 (with_default obj "dtype" (VStr "float32")) in
    let* sample_rate := as_optional_int (with_default obj "sample_rate" VNone) in
    Ok (Audio (fst sd) (snd sd) sample_rate)
  else Raise AttributeError.

(** [generate_from_dict]: [generated] holds, for every item of a
    dictionary, what the recursive call on its value returns; the mapping
    branch takes them all in order, the [Sequence] branch the one of
    ["feature"]. *)
Fixpoint generate_from_dict (obj : Py.value) : result FeatureType :=
  match obj with
  | VList xs =>
      let* elems := mapM generate_from_dict xs in Ok (ListOf elems)
  | VDict items =>
      let generated := map (fun kv => (fst kv, generate_from_dict (snd kv))) items in
      match dict_get items "_type" with
      | None | Some (VDict _) =>
          let* fields := mapM (fun kr => let* v := snd kr in Ok (fst kr, v))
                           generated in
          Ok (Dict fields)
      | Some (VStr class_name) =>
          if String.eqb class_name "Sequence" then
            match dict_get generated "feature" with
            | None => Raise KeyError
            | Some r =>
                let* feature := r in
                match with_default items "length" (VInt (-1)) with
                | VInt length => Ok (Sequence feature length)
                | _ => Raise TypeError
                end
            end
          else construct class_name items
      | Some _ => Raise TypeError
      end
  | VStr _ | VTuple _ => Raise AttributeError
  | _ => Raise TypeError
  end.

(** [Features.from_dict]: the generated object is unpacked as keyword
    arguments, which needs a mapping. *)
Definition Features_from_dict (dic : Py.value)
  : result (list (string * FeatureType)) :=
  let* obj := generate_from_dict dic in
  match obj with
  | Dict fields => Ok fields
  | _ => Raise TypeError
  end.

Definition as_str (v : Py.value) : result string :=
  match v with
  | VStr s => Ok s
  | _ => Raise TypeError
  end.

(** [DatasetInfo.from_dict], with [__post_init__]: fields that are absent
    take their defaults, a [features] that is not [None] is regenerated. *)
Definition from_dict (dataset_info_dict : Py.value) : result DatasetInfo :=
  let* d := Features.as_dict dataset_info_dict in
  let* description :=
    match dict_get d "description" with
    | Some v => as_str v
    | None => Ok EmptyString
    end in
  let* file_list :=
    match dict_get d "file_list" with
    | Some v => let* xs := Features.iter v in mapM as_str xs
    | None => Ok []
    end in
  let* features :=
    match with_default d "features" VNone with
    | VNone => Ok None
    | v => let* fs := Features_from_dict v in Ok (Some fs)
    end in
  let* size_in_bytes := as_optional_int (with_default d "size_in_bytes" VNone) in
  let* metadata :=
    match with_default d "metadata" VNone with
    | VNone => Ok None
    | VDict items => Ok (Some items)
    | _ => Raise TypeError
    end in
  Ok {| description := description; file_list := file_list; features := features;
        size_in_bytes := size_in_bytes; metadata := metadata |}.

(** [DatasetInfo.from_json] of the file [write_to_json] wrote. *)
Definition from_json (file : Py.value) : result DatasetInfo := from_dict file.

End FromDict.
End Info.

(** ** writers: one archive, and shards with their manifest *)

Module Writers.

(** The files the writers leave: archives, with their members, the
    manifest, with the JSON value it holds, and a file that was opened and
    not written to. *)
Inductive file : Type :=
| Archive (members : Tar.tarfile)
| Manifest (content : Py.value)
| Blank.

Abbreviation filesystem := (gmap string file).

(** [a.keys() != b.keys()]: key views compare as sets. *)
Definition subset (a b : list string) : bool :=
  forallb (fun k => existsb (String.eqb k) b) a.

Definition keys_differ (a b : list string) : bool :=
  negb (subset a b && subset b a).

(** *** tar_writer.py *)

Module TarWriter.

(** [tar_name] is the file [tar_stream] was opened on.  [features] is
    [None] when the writer is given the schema of a manifest that has
    none. *)
Record TarWriter : Type := mkTarWriter {
  tar_name : string;
  tar_stream : Tar.tarfile;
  features : option (list (string * FeatureType));
  written_idx : gset string
}.

(** [tarfile.open(path, "w|")] creates the file. *)
Definition __init__ (path : string) (features : option (list (string * FeatureType)))
    (fs : filesystem) : TarWriter * filesystem :=
  ({| tar_name := path; tar_stream := []; features := features; written_idx := ∅ |},
   <[path := Archive []]> fs).

Section Write.
Context `{Runtime}.

Definition write (self : TarWriter) (idx : string) (objects : Py.value)
  : result nat * TarWriter :=
  match objects, features self with
  | VDict items, Some fields =>
      if keys_differ (keys items) (keys fields) then (Raise ValueError, self)
      else if bool_decide (idx ∈ written_idx self) then (Raise ValueError, self)
      else
        match Features.Features_encode_example fields objects with
        | Raise e => (Raise e, self)
        | Ok written_obj =>
            match Tar._write_to_tar (tar_stream self) idx written_obj with
            | (tar, Raise e) =>
                (Raise e,
                 {| tar_name := tar_name self; tar_stream := tar;
                    features := features self; written_idx := written_idx self |})
            | (tar, Ok size) =>
                (Ok size,
                 {| tar_name := tar_name self; tar_stream := tar;
                    features := features self;
                    written_idx := {[idx]} ∪ written_idx self |})
            end
        end
  | _, _ => (Raise AttributeError, self)
  end.

End Write.

(** [tar_stream.close()]: the members written so far are the archive. *)
Definition close (self : TarWriter) (fs : filesystem) : filesystem :=
  <[tar_name self := Archive (tar_stream self)]> fs.

End TarWriter.

(** *** shard_writer.py *)

Module ShardWriter.

Record ShardWriter : Type := mkShardWriter {
  path : string;
  pattern : string;
  info : Info.DatasetInfo;
  max_count : Z;
  max_size : Z;
  writer_stream : option TarWriter.TarWriter;
  shard : nat;
  count : nat;
  size : nat;
  total_count : nat;
  fname : option string
}.

Definition outcome : Type := result unit * ShardWriter * filesystem.

(** [self.info.file_list.append(name)] *)
Definition append_file (i : Info.DatasetInfo) (name : string) : Info.DatasetInfo :=
  {| Info.description := Info.description i;
     Info.file_list := Info.file_list i ++ [name];
     Info.features := Info.features i;
     Info.size_in_bytes := Info.size_in_bytes i;
     Info.metadata := Info.metadata i |}.

Definition finish (self : ShardWriter) (fs : filesystem) : outcome :=
  match writer_stream self with
  | Some w =>
      let fs := TarWriter.close w fs in
      match fname self with
      | None => (Raise AssertionError, self, fs)
      | Some f =>
          (Ok tt,
           {| path := path self; pattern := pattern self;
              info := append_file (info self) (basename f);
              max_count := max_count self; max_size := max_size self;
              writer_stream := None; shard := shard self; count := count self;
              size := size self; total_count := total_count self;
              fname := fname self |},
           fs)
      end
  | None => (Ok tt, self, fs)
  end.

Section Shards.
(** [pattern % shard], the formatting of an integer by a pattern *)
Variable percent : string -> nat -> result string.
Context `{Runtime}.

Definition next_stream (self : ShardWriter) (fs : filesystem) : outcome :=
  match finish self fs with
  | (Ok _, self, fs) =>
      match percent (pattern self) (shard self) with
      | Raise e => (Raise e, self, fs)
      | Ok f =>
          let '(w, fs) := TarWriter.__init__ f (Info.features (info self)) fs in
          (Ok tt,
           {| path := path self; pattern := pattern self; info := info self;
              max_count := max_count self; max_size := max_size self;
              writer_stream := Some w; shard := S (shard self); count := 0;
              size := 0; total_count := total_count self; fname := Some f |},
           fs)
      end
  | failed => failed
  end.

(** [os.makedirs(path, exist_ok=True)] leaves no file. *)
Definition __init__ (path : string) (info : Info.DatasetInfo) (pattern : string)
    (max_count max_size : Z) (fs : filesystem) : outcome :=
  next_stream
    {| path := path; pattern := path +:+ "/" +:+ pattern +:+ ".tar"; info := info;
       max_count := max_count; max_size := max_size; writer_stream := None;
       shard := 0; count := 0; size := 0; total_count := 0; fname := None |}
    fs.

Definition rolls (self : ShardWriter) : bool :=
  match writer_stream self with
  | None => true
  | Some _ =>
      (Z.of_nat (count self) >=? max_count self)%Z
      || (Z.of_nat (size self) >? max_size self)%Z
  end.

Definition write (self : ShardWriter) (obj : Py.value) (fs : filesystem) : outcome :=
  match (if rolls self then next_stream self fs else (Ok tt, self, fs)) with
  | (Ok _, self, fs) =>
      match writer_stream self with
      | None => (Raise AttributeError, self, fs)
      | Some w =>
          match TarWriter.write w (str (count self)) obj with
          | (Raise e, w) =>
              (Raise e,
               {| path := path self; pattern := pattern self; info := info self;
                  max_count := max_count self; max_size := max_size self;
                  writer_stream := Some w; shard := shard self; count := count self;
                  size := size self; total_count := total_count self;
                  fname := fname self |},
               fs)
          | (Ok sz, w) =>
              (Ok tt,
               {| path := path self; pattern := pattern self; info := info self;
                  max_count := max_count self; max_size := max_size self;
                  writer_stream := Some w; shard := shard self;
                  count := count self + 1; size := size self + sz;
                  total_count := total_count self + 1; fname := fname self |},
               fs)
          end
      end
  | failed => failed
  end.

(** [close]: the last shard is finished and the manifest written next to
    the shards; its file is opened before the manifest is serialized. *)
Definition close (self : ShardWriter) (fs : filesystem) : outcome :=
  match finish self fs with
  | (Ok _, self, fs) =>
      match Info.to_json (info self) with
      | Ok content =>
          (Ok tt, self, <[path self +:+ "/dataset_info.json" := Manifest content]> fs)
      | Raise e =>
          (Raise e, self, <[path self +:+ "/dataset_info.json" := Blank]> fs)
      end
  | failed => failed
  end.

End Shards.
End ShardWriter.
End Writers.

(** * Properties *)

(** ** Facts about the runtime functions *)

Module PyFacts.

Fixpoint no_slash (s : string) : bool :=
  match s with
  | EmptyString => true
  | String c s' => negb (is_slash c) && no_slash s'
  end.

Lemma split_slash_nonempty s : split_slash s <> [].
Proof.
  destruct s as [|c s]; simpl; [discriminate|].
  destruct (is_slash c); [discriminate|].
  destruct (split_slash s); discriminate.
Qed.

Lemma split_no_slash s : no_slash s = true -> split_slash s = [s].
Proof.
  induction s as [|c s IH]; simpl; [reflexivity|].
  intros [Hc Hs]%andb_prop. apply negb_true_iff in Hc. rewrite Hc.
  now rewrite (IH Hs).
Qed.

Lemma append_nil_l k : "" +:+ k = k.
Proof. reflexivity. Qed.

Lemma append_cons c s k : String c s +:+ k = String c (s +:+ k).
Proof. reflexivity. Qed.

Lemma split_slash_append s k :
  no_slash k = true ->
  split_slash (s +:+ "/" +:+ k) = split_slash s ++ [k].
Proof.
  intros Hk. induction s as [|c s IH].
  - rewrite append_nil_l, append_cons, append_nil_l. simpl.
    now rewrite (split_no_slash k Hk).
  - rewrite append_cons. simpl. destruct (is_slash c); simpl.
    + now rewrite <- IH.
    + rewrite IH. pose proof (split_slash_nonempty s) as Hne.
      destruct (split_slash s); [contradiction|reflexivity].
Qed.

Lemma digits_of_uint u :
  all_digits (NilEmpty.string_of_uint u) = true /\
  no_slash (NilEmpty.string_of_uint u) = true.
Proof. induction u; simpl; tauto. Qed.

Lemma str_nonempty n : str n <> EmptyString.
Proof.
  unfold str, NilZero.string_of_uint.
  destruct (Nat.to_uint n); simpl; discriminate.
Qed.

Lemma isdigit_str n : isdigit (str n) = true.
Proof.
  pose proof (str_nonempty n) as Hne. unfold isdigit.
  destruct (str n) eqn:E; [contradiction|]. rewrite <- E.
  unfold str, NilZero.string_of_uint.
  destruct (Nat.to_uint n) eqn:Eu; try reflexivity;
    rewrite <- Eu; apply digits_of_uint.
Qed.

Lemma no_slash_str n : no_slash (str n) = true.
Proof.
  unfold str, NilZero.string_of_uint.
  destruct (Nat.to_uint n) eqn:Eu; try reflexivity;
    rewrite <- Eu; apply digits_of_uint.
Qed.

Lemma int_str n : int (str n) = Ok n.
Proof.
  unfold int, str. pose proof (DecimalNat.Unsigned.of_to n) as Hn.
  destruct (Nat.to_uint n) eqn:Eu;
    try (rewrite NilZero.usu by discriminate; now rewrite Hn).
  simpl in *. now rewrite <- Hn.
Qed.

Lemma str_inj n m : str n = str m -> n = m.
Proof.
  intros H. pose proof (int_str n) as Hn. rewrite H, int_str in Hn.
  now inversion Hn.
Qed.

(** Sorting a list whose keys already increase leaves it as it is. *)
Lemma sort_by_key_seq {A} (xs : list A) i :
  sort_by_key (combine (seq i (length xs)) xs) = combine (seq i (length xs)) xs.
Proof.
  revert i. induction xs as [|x xs IH]; intros i; simpl; [reflexivity|].
  unfold sort_by_key in *. simpl. rewrite IH.
  destruct xs as [|y ys]; simpl; [reflexivity|].
  destruct (Nat.leb_spec i (S i)); [reflexivity|lia].
Qed.

Lemma bind_Ok {A B} (r : result A) (k : A -> result B) b :
  bind r k = Ok b -> exists a, r = Ok a /\ k a = Ok b.
Proof. destruct r; simpl; [eauto|discriminate]. Qed.

Lemma mapM_app {A B} (f : A -> result B) xs ys :
  mapM f (xs ++ ys) =
  bind (mapM f xs) (fun a => bind (mapM f ys) (fun b => Ok (a ++ b))).
Proof.
  induction xs as [|x xs IH]; simpl.
  - destruct (mapM f ys); reflexivity.
  - destruct (f x); simpl; [|reflexivity]. rewrite IH.
    destruct (mapM f xs); simpl; [|reflexivity].
    destruct (mapM f ys); reflexivity.
Qed.

Lemma dict_get_app_None {V} (d : list (string * V)) k v :
  dict_get d k = None -> dict_set d k v = d ++ [(k, v)].
Proof.
  induction d as [|[k' v'] d IH]; simpl; [reflexivity|].
  destruct (String.eqb k' k); [discriminate|]. intros H. now rewrite IH.
Qed.

Lemma dict_get_last {V} (d : list (string * V)) k v :
  dict_get d k = None -> dict_get (d ++ [(k, v)]) k = Some v.
Proof.
  induction d as [|[k' v'] d IH]; simpl.
  - now rewrite String.eqb_refl.
  - destruct (String.eqb k' k); [discriminate|]. exact IH.
Qed.

Lemma dict_set_last {V} (d : list (string * V)) k v v' :
  dict_get d k = None -> dict_set (d ++ [(k, v)]) k v' = d ++ [(k, v')].
Proof.
  induction d as [|[k0 v0] d IH]; simpl.
  - now rewrite String.eqb_refl.
  - destruct (String.eqb k0 k); [discriminate|]. intros H. now rewrite IH.
Qed.

Lemma dict_get_snoc_ne {V} (d : list (string * V)) k k' v :
  k <> k' -> dict_get (d ++ [(k, v)]) k' = dict_get d k'.
Proof.
  intros Hne. induction d as [|[k0 v0] d IH]; simpl.
  - destruct (String.eqb_spec k k'); [contradiction|reflexivity].
  - now rewrite IH.
Qed.

Lemma dict_get_None_keys {V} (d : list (string * V)) k :
  dict_get d k = None <-> ~ In k (keys d).
Proof.
  induction d as [|[k0 v0] d IH]; simpl; [tauto|].
  destruct (String.eqb_spec k0 k); [|tauto].
  split; [discriminate|]. intros H. exfalso. apply H. now left.
Qed.

End PyFacts.

(** ** Tar layout: what the writer emits and what the reader rebuilds *)

Module TarFacts.
Import Tar PyFacts.

(** Induction over values, with the hypothesis for every child. *)
Fixpoint value_ind' (P : value -> Prop)
    (HNone : P VNone) (HBool : forall b, P (VBool b)) (HInt : forall n, P (VInt n))
    (HStr : forall s, P (VStr s)) (HBytes : forall b, P (VBytes b))
    (HList : forall xs, Forall P xs -> P (VList xs))
    (HTuple : forall xs, Forall P xs -> P (VTuple xs))
    (HDict : forall items, Forall (fun kv => P (snd kv)) items -> P (VDict items))
    (HArray : forall a, P (VArray a)) (HStream : forall h, P (VStream h))
    (HFile : forall d, P (VFile d))
    (HDec : forall f dt sh sr, P f -> P (VAudioDecoder f dt sh sr))
    (v : value) {struct v} : P v :=
  let rec := value_ind' P HNone HBool HInt HStr HBytes HList HTuple HDict
               HArray HStream HFile HDec in
  match v with
  | VNone => HNone
  | VBool b => HBool b
  | VInt n => HInt n
  | VStr s => HStr s
  | VBytes b => HBytes b
  | VList xs =>
      HList xs ((fix go xs : Forall P xs :=
                   match xs with
                   | [] => @List.Forall_nil _ _
                   | x :: r => @List.Forall_cons _ _ x r (rec x) (go r)
                   end) xs)
  | VTuple xs =>
      HTuple xs ((fix go xs : Forall P xs :=
                    match xs with
                    | [] => @List.Forall_nil _ _
                    | x :: r => @List.Forall_cons _ _ x r (rec x) (go r)
                    end) xs)
  | VDict items =>
      HDict items ((fix go items : Forall (fun kv => P (snd kv)) items :=
                      match items with
                      | [] => @List.Forall_nil _ _
                      | kv :: r => @List.Forall_cons _ _ kv r (rec (snd kv)) (go r)
                      end) items)
  | VArray a => HArray a
  | VStream h => HStream h
  | VFile d => HFile d
  | VAudioDecoder f dt sh sr => HDec f dt sh sr (rec f)
  end.

(** A dictionary key the layout can carry: one path component that is
    not reserved for list positions. *)
Definition good_key (k : string) : bool := no_slash k && negb (isdigit k).

Fixpoint nodupb (ks : list string) : bool :=
  match ks with
  | [] => true
  | k :: r => negb (existsb (String.eqb k) r) && nodupb r
  end.

(** Encoded record trees that survive packing and unpacking: dictionaries
    and lists are non-empty, dictionary keys are [good_key]s, leaves are
    byte strings or [None]. *)
Fixpoint packable (t : value) : bool :=
  match t with
  | VDict items =>
      match items with
      | [] => false
      | _ => nodupb (keys items) &&
             forallb (fun kv => good_key (fst kv) && packable (snd kv)) items
      end
  | VList xs =>
      match xs with
      | [] => false
      | _ => forallb packable xs
      end
  | VBytes _ | VNone => true
  | _ => false
  end.

(** The trees of the claim as the specification words them: string-keyed
    dictionaries without all-digit keys, lists, byte strings and [None]. *)
Fixpoint spec_tree (t : value) : bool :=
  match t with
  | VDict items =>
      nodupb (keys items) &&
      forallb (fun kv => negb (isdigit (fst kv)) && spec_tree (snd kv)) items
  | VList xs => forallb spec_tree xs
  | VBytes _ | VNone => true
  | _ => false
  end.

(** Reading every stream wrapper of an unpacked tree to the end. *)
Fixpoint read_tree (f : feature) : value :=
  match f with
  | FDict items => VDict (map (fun kv => (fst kv, read_tree (snd kv))) items)
  | FList xs => VList (map read_tree xs)
  | FStream m => VBytes (payload m)
  end.

(** The written tree as it is read back: [None] leaves have no content. *)
Fixpoint null_as_empty (t : value) : value :=
  match t with
  | VDict items => VDict (map (fun kv => (fst kv, null_as_empty (snd kv))) items)
  | VList xs => VList (map null_as_empty xs)
  | VNone => VBytes []
  | _ => t
  end.

(** Packing [t] under [index] and unpacking the archive gives back [index]
    and [t]. *)
Definition layout_fidelity (index : string) (t : value) : Prop :=
  exists tar sz f,
    _write_to_tar [] index t = (tar, Ok sz) /\
    _feature_stream tar = Yield (index, f) Done /\
    read_tree f = null_as_empty t.

(** *** Keyed trees: dictionaries and lists with their path components *)

Inductive ktree : Type :=
| KLeaf (b : bytes)
| KNode (as_list : bool) (kids : list (string * ktree)).

Fixpoint ktree_ind' (P : ktree -> Prop)
    (HLeaf : forall b, P (KLeaf b))
    (HNode : forall l kids, Forall (fun kc => P (snd kc)) kids -> P (KNode l kids))
    (t : ktree) {struct t} : P t :=
  match t with
  | KLeaf b => HLeaf b
  | KNode l kids =>
      HNode l kids ((fix go kids : Forall (fun kc => P (snd kc)) kids :=
                       match kids with
                       | [] => @List.Forall_nil _ _
                       | kc :: r =>
                           @List.Forall_cons _ _ kc r
                             (ktree_ind' P HLeaf HNode (snd kc)) (go r)
                       end) kids)
  end.

(** [[(str(i), f(x)) for i, x in enumerate(xs, start=i)]] *)
Fixpoint index_with {A B} (f : A -> B) (i : nat) (xs : list A) : list (string * B) :=
  match xs with
  | [] => []
  | x :: r => (str i, f x) :: index_with f (S i) r
  end.

Fixpoint to_ktree (t : value) : ktree :=
  match t with
  | VDict items => KNode false (map (fun kv => (fst kv, to_ktree (snd kv))) items)
  | VList xs => KNode true (index_with to_ktree 0 xs)
  | VBytes b => KLeaf b
  | _ => KLeaf []
  end.

Definition file_member (n : string) (b : bytes) : member :=
  {| info := {| name := n; type := REGTYPE; mode := 420%N; size := length b |};
     payload := b |}.

Definition dir_member (n : string) : member :=
  {| info := {| name := n; type := DIRTYPE; mode := 493%N; size := 0 |};
     payload := [] |}.

Definition child_prefix (prefix : string) (kc : string * ktree) : string :=
  prefix +:+ "/" +:+ fst kc.

(** The members [_write_to_tar] adds for a tree, in order. *)
Fixpoint emitted (prefix : string) (t : ktree) : list member :=
  match t with
  | KLeaf b => [file_member prefix b]
  | KNode _ kids =>
      dir_member prefix ::
      flat_map (fun kc => emitted (prefix +:+ "/" +:+ fst kc) (snd kc)) kids
  end.

Inductive wf : ktree -> Prop :=
| wf_leaf b : wf (KLeaf b)
| wf_node (l : bool) (kids : list (string * ktree)) :
    kids <> [] ->
    NoDup (keys kids) ->
    Forall (fun k => no_slash k = true) (keys kids) ->
    (if l then keys kids = map str (seq 0 (length kids))
     else Forall (fun k => isdigit k = false) (keys kids)) ->
    Forall (fun kc => wf (snd kc)) kids ->
    wf (KNode l kids).

Lemma firstn_length_all {A} (l : list A) : firstn (length l) l = l.
Proof. induction l; simpl; congruence. Qed.

Lemma write_file_member tar prefix b :
  addfile tar {| name := prefix; type := REGTYPE; mode := 420%N; size := length b |} b
  = tar ++ [file_member prefix b].
Proof. unfold addfile, file_member. cbn [size]. now rewrite firstn_length_all. Qed.

Lemma write_items_emitted prefix items :
  Forall (fun kv => packable (snd kv) = true ->
            forall tar p, exists sz,
              _write_to_tar tar p (snd kv) = (tar ++ emitted p (to_ktree (snd kv)), Ok sz))
         items ->
  forallb (fun kv => good_key (fst kv) && packable (snd kv)) items = true ->
  forall tar sz, exists sz',
    write_items _write_to_tar prefix tar sz items =
    (tar ++ flat_map (fun kc => emitted (prefix +:+ "/" +:+ fst kc) (snd kc))
              (map (fun kv => (fst kv, to_ktree (snd kv))) items), Ok sz').
Proof.
  induction 1 as [|[k v] items Hv _ IH]; intros Hall tar sz; simpl.
  - exists sz. now rewrite app_nil_r.
  - simpl in Hall. apply andb_prop in Hall as [Hkv Hall].
    apply andb_prop in Hkv as [Hk Hp].
    unfold good_key in Hk. apply andb_prop in Hk as [_ Hd].
    apply negb_true_iff in Hd. rewrite Hd.
    destruct (Hv Hp tar (prefix +:+ "/" +:+ k)) as [n Hn]. simpl in Hn. rewrite Hn.
    destruct (IH Hall (tar ++ emitted (prefix +:+ "/" +:+ k) (to_ktree v)) (sz + n))
      as [sz' Hsz'].
    exists sz'. rewrite Hsz'. now rewrite <- app_assoc.
Qed.

Lemma write_elems_emitted prefix xs :
  Forall (fun v => packable v = true ->
            forall tar p, exists sz,
              _write_to_tar tar p v = (tar ++ emitted p (to_ktree v), Ok sz)) xs ->
  forallb packable xs = true ->
  forall tar sz i, exists sz',
    write_elems _write_to_tar prefix tar sz i xs =
    (tar ++ flat_map (fun kc => emitted (prefix +:+ "/" +:+ fst kc) (snd kc))
              (index_with to_ktree i xs), Ok sz').
Proof.
  induction 1 as [|v xs Hv _ IH]; intros Hall tar sz i; simpl.
  - exists sz. now rewrite app_nil_r.
  - simpl in Hall. apply andb_prop in Hall as [Hp Hall].
    destruct (Hv Hp tar (prefix +:+ "/" +:+ str i)) as [n Hn]. rewrite Hn.
    destruct (IH Hall (tar ++ emitted (prefix +:+ "/" +:+ str i) (to_ktree v))
                (sz + n) (S i)) as [sz' Hsz'].
    exists sz'. rewrite Hsz'. now rewrite <- app_assoc.
Qed.

(** On a packable tree the writer never raises and adds exactly the
    members of the keyed tree. *)
Lemma write_emitted t :
  packable t = true ->
  forall tar prefix, exists sz,
    _write_to_tar tar prefix t = (tar ++ emitted prefix (to_ktree t), Ok sz).
Proof.
  induction t using value_ind'; intros Hp tar prefix; try discriminate.
  - exists 0. reflexivity.
  - exists (length b). simpl. now rewrite write_file_member.
  - simpl in Hp. destruct xs as [|x xs]; [discriminate|].
    destruct (write_elems_emitted prefix (x :: xs) H Hp
                (_add_dir_to_tar tar prefix) 0 0) as [sz Hsz].
    exists sz. cbn [_write_to_tar to_ktree emitted]. rewrite Hsz.
    unfold _add_dir_to_tar, addfile. cbn [size firstn].
    now rewrite <- app_assoc.
  - simpl in Hp. destruct items as [|kv items]; [discriminate|].
    apply andb_prop in Hp as [_ Hp].
    destruct (write_items_emitted prefix (kv :: items) H Hp
                (_add_dir_to_tar tar prefix) 0) as [sz Hsz].
    exists sz. cbn [_write_to_tar to_ktree emitted]. rewrite Hsz.
    unfold _add_dir_to_tar, addfile. cbn [size firstn].
    now rewrite <- app_assoc.
Qed.

Lemma nodupb_NoDup ks : nodupb ks = true -> NoDup ks.
Proof.
  induction ks as [|k ks IH]; simpl; intros H; [constructor|].
  apply andb_prop in H as [Hk Hks]. constructor; [|auto].
  apply negb_true_iff in Hk. intros Hin%list_elem_of_In.
  assert (existsb (String.eqb k) ks = true) as E; [|congruence].
  apply existsb_exists. exists k. split; [assumption|apply String.eqb_refl].
Qed.

Lemma keys_index_with {A B} (f : A -> B) i xs :
  keys (index_with f i xs) = map str (seq i (length xs)).
Proof.
  revert i. induction xs as [|x xs IH]; intros i; [reflexivity|].
  unfold keys in *. simpl. now rewrite IH.
Qed.

Lemma length_index_with {A B} (f : A -> B) i xs :
  length (index_with f i xs) = length xs.
Proof. revert i. induction xs; intros i; simpl; [reflexivity|]. now f_equal. Qed.

Lemma NoDup_map_str l : NoDup l -> NoDup (map str l).
Proof.
  induction 1 as [|x l Hx Hl IH]; simpl; constructor; [|assumption].
  intros Hin%list_elem_of_In. apply in_map_iff in Hin as (y & Hy & Hin).
  apply str_inj in Hy. subst y. apply Hx. now apply list_elem_of_In.
Qed.

Lemma keys_map_snd {A B} (g : A -> B) (items : list (string * A)) :
  keys (map (fun kv => (fst kv, g (snd kv))) items) = keys items.
Proof. unfold keys. rewrite map_map. reflexivity. Qed.

Lemma packable_wf t : packable t = true -> wf (to_ktree t).
Proof.
  induction t using value_ind'; intros Hp; try discriminate; simpl;
    try constructor.
  - (* list *)
    simpl in Hp. destruct xs as [|x xs]; [discriminate|]. discriminate.
  - rewrite keys_index_with. apply NoDup_map_str.
    apply NoDup_ListNoDup, List.seq_NoDup.
  - rewrite keys_index_with. apply Forall_forall. intros k Hk.
    apply list_elem_of_In, in_map_iff in Hk as (n & <- & _). apply no_slash_str.
  - now rewrite keys_index_with, length_index_with.
  - simpl in Hp. destruct xs as [|x xs]; [discriminate|].
    assert (forall i, Forall (fun kc => wf (snd kc)) (index_with to_ktree i (x :: xs))) as G;
      [|apply G].
    revert H Hp. generalize (x :: xs). clear.
    induction 1 as [|v l Hv _ IH]; intros Hp i; simpl; constructor.
    + simpl in Hp. apply andb_prop in Hp as [Hp _]. simpl. auto.
    + simpl in Hp. apply andb_prop in Hp as [_ Hp]. auto.
  - simpl in Hp. destruct items; [discriminate|discriminate].
  - simpl in Hp. destruct items as [|kv items]; [discriminate|].
    apply andb_prop in Hp as [Hn _]. apply nodupb_NoDup in Hn.
    now rewrite keys_map_snd.
  - simpl in Hp. destruct items as [|kv items]; [discriminate|].
    apply andb_prop in Hp as [_ Hp]. rewrite keys_map_snd.
    rewrite forallb_forall in Hp. apply Forall_forall. intros k Hk.
    apply list_elem_of_In, in_map_iff in Hk as (kv' & <- & Hin).
    apply Hp in Hin. apply andb_prop in Hin as [Hg _].
    unfold good_key in Hg. now apply andb_prop in Hg as [Hg _].
  - simpl in Hp. destruct items as [|kv items]; [discriminate|].
    apply andb_prop in Hp as [_ Hp]. rewrite keys_map_snd.
    rewrite forallb_forall in Hp. apply Forall_forall. intros k Hk.
    apply list_elem_of_In, in_map_iff in Hk as (kv' & <- & Hin).
    apply Hp in Hin. apply andb_prop in Hin as [Hg _].
    unfold good_key in Hg. apply andb_prop in Hg as [_ Hg].
    now apply negb_true_iff in Hg.
  - simpl in Hp. destruct items as [|kv items]; [discriminate|].
    apply andb_prop in Hp as [_ Hp]. revert H Hp. generalize (kv :: items). clear.
    induction 1 as [|kv l Hv _ IH]; intros Hp; simpl; constructor.
    + simpl in Hp. apply andb_prop in Hp as [Hp _].
      apply andb_prop in Hp as [_ Hp]. simpl. auto.
    + simpl in Hp. apply andb_prop in Hp as [_ Hp]. auto.
Qed.

(** *** The reader on the members of a keyed tree *)

(** [current_dict[...] = leaf] at the end of a path of components. *)
Definition insert_path (d : list (string * feature)) (path : list string)
    (leaf : feature) : result (list (string * feature)) :=
  set_nested d (removelast path) (List.last path EmptyString) leaf.

Fixpoint insert_all (d : list (string * feature))
    (leaves : list (list string * feature)) : result (list (string * feature)) :=
  match leaves with
  | [] => Ok d
  | pl :: rest => let* d' := insert_path d (fst pl) (snd pl) in insert_all d' rest
  end.

Definition under (k : string) (pl : list string * feature) : list string * feature :=
  (k :: fst pl, snd pl).

Definition below (pp : list string) (pl : list string * feature)
  : list string * feature :=
  (pp ++ fst pl, snd pl).

(** The file members of a tree with their paths relative to its root. *)
Fixpoint rleaves (prefix : string) (t : ktree) : list (list string * feature) :=
  match t with
  | KLeaf b => [([], FStream (file_member prefix b))]
  | KNode _ kids =>
      flat_map (fun kc => map (under (fst kc))
                            (rleaves (prefix +:+ "/" +:+ fst kc) (snd kc))) kids
  end.

(** The nested dictionary built from the members, lists still keyed by
    position. *)
Fixpoint dictified (prefix : string) (t : ktree) : feature :=
  match t with
  | KLeaf b => FStream (file_member prefix b)
  | KNode _ kids =>
      FDict (map (fun kc => (fst kc, dictified (prefix +:+ "/" +:+ fst kc) (snd kc)))
               kids)
  end.

(** The tree the reader returns. *)
Fixpoint expected (prefix : string) (t : ktree) : feature :=
  match t with
  | KLeaf b => FStream (file_member prefix b)
  | KNode l kids =>
      if l then
        FList (map (fun kc => expected (prefix +:+ "/" +:+ fst kc) (snd kc)) kids)
      else
        FDict (map (fun kc => (fst kc, expected (prefix +:+ "/" +:+ fst kc) (snd kc)))
                 kids)
  end.

Lemma bind_ret {A} (r : result A) : bind r Ok = r.
Proof. now destruct r. Qed.

Lemma bind_ext {A B} (r : result A) (f g : A -> result B) :
  (forall a, f a = g a) -> bind r f = bind r g.
Proof. intros H. destruct r; simpl; auto. Qed.

Lemma bind_assoc {A B C} (r : result A) (f : A -> result B) (g : B -> result C) :
  bind (bind r f) g = bind r (fun a => bind (f a) g).
Proof. now destruct r. Qed.

Lemma compose_loop_app d a b :
  compose_loop d (a ++ b) = bind (compose_loop d a) (fun d' => compose_loop d' b).
Proof.
  revert d. induction a as [|m a IH]; intros d; simpl; [reflexivity|].
  rewrite bind_assoc. apply bind_ext. intros d'. apply IH.
Qed.

Lemma insert_all_app d a b :
  insert_all d (a ++ b) = bind (insert_all d a) (fun d' => insert_all d' b).
Proof.
  revert d. induction a as [|m a IH]; intros d; simpl; [reflexivity|].
  rewrite bind_assoc. apply bind_ext. intros d'. apply IH.
Qed.

Lemma insert_path_one d k leaf : insert_path d [k] leaf = Ok (dict_set d k leaf).
Proof. reflexivity. Qed.

Lemma insert_path_cons d k p leaf :
  p <> [] ->
  insert_path d (k :: p) leaf =
  match dict_get d k with
  | None => let* sub := insert_path [] p leaf in Ok (dict_set d k (FDict sub))
  | Some (FDict sub0) =>
      let* sub := insert_path sub0 p leaf in Ok (dict_set d k (FDict sub))
  | Some _ => Raise TypeError
  end.
Proof. destruct p as [|k' p]; [contradiction|]. intros _. reflexivity. Qed.

(** Members of a subtree written under [prefix], whose components are
    [index :: pp], are inserted at [pp] followed by their relative path. *)
Lemma compose_emitted t :
  wf t ->
  forall prefix index pp d,
    split_slash prefix = index :: pp ->
    (pp <> [] \/ exists l kids, t = KNode l kids) ->
    compose_loop d (emitted prefix t) =
    insert_all d (map (below pp) (rleaves prefix t)).
Proof.
  induction t as [b|l kids IH] using ktree_ind'; intros Hwf prefix index pp d Hs Hpp.
  - destruct Hpp as [Hpp|(l & kids & [=])].
    simpl. unfold compose_step, file_member, isdir, _get_inner_fobj. simpl.
    rewrite Hs, !bind_ret. unfold insert_path, below. simpl.
    rewrite app_nil_r. destruct pp as [|k pp]; [contradiction|]. reflexivity.
  - inversion Hwf as [|l' kids' _ _ Hns _ Hkids]; subst l' kids'. clear Hwf Hpp.
    cbn [emitted rleaves compose_loop]. unfold compose_step at 1. simpl.
    revert d. induction IH as [|[k c] kids Hc _ IHkids]; intros d; [reflexivity|].
    cbn [flat_map fst snd]. rewrite compose_loop_app, map_app, insert_all_app.
    inversion Hkids as [|? ? Hwc Hkids']; subst.
    inversion Hns as [|? ? Hk Hns']; subst.
    cbn [fst snd] in Hc, Hwc, Hk.
    rewrite (Hc Hwc (prefix +:+ "/" +:+ k) index (pp ++ [k]) d).
    + rewrite map_map.
      replace (map (fun x => below pp (under k x)) (rleaves (prefix +:+ "/" +:+ k) c))
        with (map (below (pp ++ [k])) (rleaves (prefix +:+ "/" +:+ k) c)).
      * apply bind_ext. intros d'. apply IHkids; assumption.
      * apply map_ext. intros [p leaf]. unfold below, under. simpl.
        now rewrite <- app_assoc.
    + rewrite split_slash_append by assumption. now rewrite Hs.
    + left. now destruct pp.
Qed.

Lemma rleaves_paths t prefix :
  wf t -> rleaves prefix t <> [] /\
          ((exists l kids, t = KNode l kids) ->
           Forall (fun pl => fst pl <> []) (rleaves prefix t)).
Proof.
  revert prefix. induction t as [b|l kids IH] using ktree_ind'; intros prefix Hwf.
  - split; [discriminate|]. now intros (l & kids & [=]).
  - inversion Hwf as [|? ? Hne _ _ _ Hkids]; subst. split.
    + destruct kids as [|[k c] kids]; [contradiction|]. simpl.
      inversion IH as [|? ? Hc _]; subst. inversion Hkids as [|? ? Hwc _]; subst.
      destruct (Hc (prefix +:+ "/" +:+ k) Hwc) as [Hc' _]. simpl in Hc'.
      destruct (rleaves (prefix +:+ "/" +:+ k) c); [contradiction|discriminate].
    + intros _. simpl. clear. induction kids as [|[k c] kids IHk]; simpl.
      * constructor.
      * apply Forall_app. split; [|exact IHk].
        apply Forall_forall. intros pl Hin.
        apply list_elem_of_In, in_map_iff in Hin as (pl' & <- & _). discriminate.
Qed.

(** Inserting under a key that holds a dictionary works inside it. *)
Lemma insert_all_lift leaves :
  Forall (fun pl => fst pl <> []) leaves ->
  forall d k sub sub',
    dict_get d k = None ->
    insert_all sub leaves = Ok sub' ->
    insert_all (d ++ [(k, FDict sub)]) (map (under k) leaves) =
    Ok (d ++ [(k, FDict sub')]).
Proof.
  induction 1 as [|[p leaf] leaves Hp _ IH]; intros d k sub sub' Hd Hins; simpl in *.
  - congruence.
  - apply bind_Ok in Hins as (sub1 & H1 & Hrest).
    rewrite insert_path_cons by assumption.
    rewrite dict_get_last by assumption. rewrite H1. simpl.
    rewrite dict_set_last by assumption. now apply IH.
Qed.

(** The first insertion under a fresh key creates its dictionary. *)
Lemma insert_all_fresh leaves d k :
  leaves <> [] ->
  Forall (fun pl => fst pl <> []) leaves ->
  dict_get d k = None ->
  insert_all d (map (under k) leaves) =
  insert_all (d ++ [(k, FDict [])]) (map (under k) leaves).
Proof.
  intros Hne Hall Hd. destruct leaves as [|[p leaf] leaves]; [contradiction|].
  inversion Hall as [|? ? Hp _]; subst. simpl in *.
  rewrite !insert_path_cons by assumption.
  rewrite Hd, dict_get_last by assumption.
  destruct (insert_path [] p leaf); simpl; [|reflexivity].
  now rewrite dict_get_app_None, dict_set_last by assumption.
Qed.

Definition dictified_kid (prefix : string) (kc : string * ktree) : string * feature :=
  (fst kc, dictified (prefix +:+ "/" +:+ fst kc) (snd kc)).

Lemma keys_dictified prefix kids : keys (map (dictified_kid prefix) kids) = keys kids.
Proof. unfold keys. rewrite map_map. reflexivity. Qed.

Lemma insert_kids prefix kids :
  Forall (fun kc => forall p d k, dict_get d k = None ->
            insert_all d (map (under k) (rleaves p (snd kc))) =
            Ok (d ++ [(k, dictified p (snd kc))])) kids ->
  NoDup (keys kids) ->
  forall acc,
    (forall k, In k (keys kids) -> dict_get acc k = None) ->
    insert_all acc
      (flat_map (fun kc => map (under (fst kc))
                             (rleaves (prefix +:+ "/" +:+ fst kc) (snd kc))) kids) =
    Ok (acc ++ map (dictified_kid prefix) kids).
Proof.
  induction 1 as [|[k c] kids Hc _ IH]; intros Hnd acc Hacc; simpl.
  - now rewrite app_nil_r.
  - inversion Hnd as [|? ? Hk Hnd']; subst. simpl in *.
    rewrite insert_all_app, Hc by auto. simpl.
    rewrite IH; [now rewrite <- app_assoc|assumption|].
    intros k' Hk'. rewrite dict_get_snoc_ne; [auto|].
    intros ->. apply Hk. now apply list_elem_of_In.
Qed.

(** The members of a well-formed subtree, inserted under a fresh key,
    add exactly the dictionary of that subtree. *)
Lemma insert_dictified t :
  wf t ->
  forall prefix d k,
    dict_get d k = None ->
    insert_all d (map (under k) (rleaves prefix t)) =
    Ok (d ++ [(k, dictified prefix t)]).
Proof.
  induction t as [b|l kids IH] using ktree_ind'; intros Hwf prefix d k Hd.
  - cbn [rleaves map insert_all under fst snd]. rewrite insert_path_one.
    simpl. now rewrite dict_get_app_None.
  - pose proof (rleaves_paths _ prefix Hwf) as [Hne Hall].
    specialize (Hall ltac:(eauto)).
    inversion Hwf as [|? ? _ Hnd _ _ Hkids]; subst.
    rewrite insert_all_fresh by assumption.
    apply insert_all_lift; [assumption|assumption|].
    change (rleaves prefix (KNode l kids)) with
      (flat_map (fun kc => map (under (fst kc))
                   (rleaves (prefix +:+ "/" +:+ fst kc) (snd kc))) kids).
    rewrite (insert_kids prefix kids); [reflexivity| |assumption|reflexivity].
    clear -IH Hkids. induction IH as [|kc kids Hc _ IHk]; constructor.
    + inversion Hkids; subst. auto.
    + inversion Hkids; subst. auto.
Qed.

Lemma insert_node prefix l kids :
  wf (KNode l kids) ->
  insert_all [] (rleaves prefix (KNode l kids)) =
  Ok (map (dictified_kid prefix) kids).
Proof.
  intros Hwf. inversion Hwf as [|? ? _ Hnd _ _ Hkids]; subst.
  change (rleaves prefix (KNode l kids)) with
    (flat_map (fun kc => map (under (fst kc))
                 (rleaves (prefix +:+ "/" +:+ fst kc) (snd kc))) kids).
  rewrite (insert_kids prefix kids); [reflexivity| |assumption|reflexivity].
  apply Forall_forall. intros kc Hin p d k Hd.
  apply insert_dictified; [|assumption].
  rewrite Forall_forall in Hkids. auto.
Qed.

Definition expected_kid (prefix : string) (kc : string * ktree) : string * feature :=
  (fst kc, expected (prefix +:+ "/" +:+ fst kc) (snd kc)).

Lemma mapM_int_str l : mapM int (map str l) = Ok l.
Proof. induction l as [|n l IH]; simpl; [reflexivity|]. now rewrite int_str, IH. Qed.

Lemma mapM_int_key (items : list (string * feature)) :
  mapM int_key items = mapM int (keys items).
Proof.
  induction items as [|kv items IH]; simpl; [reflexivity|].
  unfold int_key at 1. now rewrite IH.
Qed.

Lemma map_snd_combine {A B} (l1 : list A) (l2 : list B) :
  length l1 = length l2 -> map snd (combine l1 l2) = l2.
Proof.
  revert l2. induction l1 as [|a l1 IH]; intros [|b l2]; simpl; try discriminate.
  - reflexivity.
  - intros [= Hlen]. now rewrite IH.
Qed.

Lemma forallb_digit_keys (items : list (string * feature)) :
  forallb digit_key items = forallb isdigit (keys items).
Proof. induction items as [|kv items IH]; simpl; [reflexivity|]. now rewrite IH. Qed.

Lemma forallb_isdigit_str l : forallb isdigit (map str l) = true.
Proof. induction l; simpl; [reflexivity|]. now rewrite isdigit_str. Qed.

Definition transform_item (kv : string * feature) : result (string * feature) :=
  match kv with
  | (k, v) => let* v' := transform v in Ok (k, v')
  end.

Lemma transform_FDict items :
  transform (FDict items) =
  let* result_dict := mapM transform_item items in
  if forallb digit_key result_dict then
    let* s := sorted int_key result_dict in Ok (FList (map snd s))
  else Ok (FDict result_dict).
Proof. reflexivity. Qed.

Lemma dictified_node prefix l kids :
  dictified prefix (KNode l kids) = FDict (map (dictified_kid prefix) kids).
Proof. reflexivity. Qed.

Lemma expected_node prefix (l : bool) kids :
  expected prefix (KNode l kids) =
  if l then FList (map snd (map (expected_kid prefix) kids))
  else FDict (map (expected_kid prefix) kids).
Proof. destruct l; simpl; [|reflexivity]. now rewrite map_map. Qed.

(** [_transform_dict] turns the position-keyed dictionaries back into
    lists and leaves the others alone. *)
Lemma transform_dictified t :
  wf t -> forall prefix, transform (dictified prefix t) = Ok (expected prefix t).
Proof.
  induction t as [b|l kids IH] using ktree_ind'; intros Hwf prefix; [reflexivity|].
  inversion Hwf as [|? ? Hne _ _ Hkeys Hkids]; subst.
  rewrite dictified_node, transform_FDict, expected_node.
  assert (mapM transform_item (map (dictified_kid prefix) kids)
          = Ok (map (expected_kid prefix) kids)) as ->.
  { clear Hne Hkeys Hwf. induction IH as [|[k c] kids Hc _ IHk]; [reflexivity|].
    inversion Hkids; subst. cbn [map mapM transform_item dictified_kid fst snd] in *.
    rewrite Hc by assumption. cbn [bind]. now rewrite IHk. }
  cbn [bind]. rewrite forallb_digit_keys.
  assert (keys (map (expected_kid prefix) kids) = keys kids) as Hk.
  { unfold keys. now rewrite map_map. }
  rewrite Hk. destruct l.
  - rewrite Hkeys at 1. rewrite forallb_isdigit_str.
    unfold sorted. rewrite mapM_int_key, Hk, Hkeys, mapM_int_str. cbn [bind].
    replace (length kids) with (length (map (expected_kid prefix) kids))
      by apply length_map.
    rewrite sort_by_key_seq, map_snd_combine by now rewrite length_seq.
    reflexivity.
  - destruct kids as [|[k c] kids]; [contradiction|].
    inversion Hkeys as [|? ? Hd _]; subst. simpl in *. now rewrite Hd.
Qed.

Lemma read_expected t :
  packable t = true ->
  forall prefix, read_tree (expected prefix (to_ktree t)) = null_as_empty t.
Proof.
  induction t using value_ind'; intros Hp prefix; try discriminate;
    try reflexivity.
  - (* list *)
    cbn [to_ktree expected read_tree null_as_empty]. f_equal.
    assert (forallb packable xs = true) as Hall.
    { simpl in Hp. destruct xs; [discriminate|assumption]. }
    clear Hp. generalize 0. induction H as [|x xs Hx _ IH]; intros i; [reflexivity|].
    simpl in Hall. apply andb_prop in Hall as [Hpx Hall].
    simpl. now rewrite Hx, IH.
  - (* dict *)
    cbn [to_ktree expected read_tree null_as_empty]. f_equal.
    assert (forallb (fun kv => good_key (fst kv) && packable (snd kv)) items = true)
      as Hall.
    { simpl in Hp. destruct items; [discriminate|].
      now apply andb_prop in Hp as [_ Hp]. }
    clear Hp. induction H as [|[k v] items Hv _ IH]; [reflexivity|].
    simpl in Hall. apply andb_prop in Hall as [Hpx Hall].
    apply andb_prop in Hpx as [_ Hpx].
    simpl in *. now rewrite Hv, IH.
Qed.

Lemma emitted_index t :
  wf t ->
  forall prefix index pp,
    split_slash prefix = index :: pp ->
    Forall (fun m => _get_tar_index (info m) = index) (emitted prefix t).
Proof.
  induction t as [b|l kids IH] using ktree_ind'; intros Hwf prefix index pp Hs.
  - constructor; [|constructor]. unfold _get_tar_index. simpl. now rewrite Hs.
  - inversion Hwf as [|? ? _ _ Hns _ Hkids]; subst. simpl. constructor.
    + unfold _get_tar_index. simpl. now rewrite Hs.
    + clear Hwf. induction IH as [|[k c] kids Hc _ IHk]; [constructor|].
      inversion Hkids; subst. inversion Hns; subst. simpl in *.
      apply Forall_app. split; [|auto].
      apply (Hc ltac:(assumption) _ index (pp ++ [k])).
      rewrite split_slash_append by assumption. now rewrite Hs.
Qed.

Lemma emitted_nonempty prefix t : emitted prefix t <> [].
Proof. destruct t; discriminate. Qed.

Lemma feature_stream_loop_next group m m' rest :
  feature_stream_loop group (m :: m' :: rest) =
  if negb (String.eqb (_get_tar_index (info m')) (_get_tar_index (info m)))
  then yield_composed (_get_tar_index (info m)) (group ++ [m])
         (feature_stream_loop [] (m' :: rest))
  else feature_stream_loop (group ++ [m]) (m' :: rest).
Proof. reflexivity. Qed.

(** Members that share one index form one group. *)
Lemma feature_stream_one_index index members :
  members <> [] ->
  Forall (fun m => _get_tar_index (info m) = index) members ->
  forall group,
    feature_stream_loop group members = yield_composed index (group ++ members) Done.
Proof.
  induction members as [|m members IH]; intros Hne Hall group; [contradiction|].
  pose proof (List.Forall_inv Hall) as Hm.
  pose proof (List.Forall_inv_tail Hall) as Hall'. cbn beta in Hm.
  destruct members as [|m' members].
  - simpl. now rewrite Hm.
  - rewrite feature_stream_loop_next. pose proof (List.Forall_inv Hall') as Hm'.
    cbn beta in Hm'. rewrite Hm', Hm, String.eqb_refl. cbn [negb].
    rewrite IH by (discriminate || assumption). now rewrite <- app_assoc.
Qed.

Lemma compose_expected index t :
  no_slash index = true -> wf t ->
  _compose_feature (emitted index t) = Ok (expected index t).
Proof.
  intros Hi Hwf. destruct t as [b|l kids]; [reflexivity|].
  assert (exists m ms, emitted index (KNode l kids) = dir_member index :: m :: ms)
    as (m & ms & He).
  { inversion Hwf as [|? ? Hne _ _ _ _]; subst.
    destruct kids as [|[k c] kids]; [contradiction|]. simpl.
    pose proof (emitted_nonempty (index +:+ "/" +:+ k) c) as Hc.
    destruct (emitted (index +:+ "/" +:+ k) c); [contradiction|]. simpl. eauto. }
  unfold _compose_feature. rewrite He, <- He.
  rewrite (compose_emitted _ Hwf index index [] []);
    [|now apply split_no_slash|right; eauto].
  replace (map (below []) (rleaves index (KNode l kids)))
    with (rleaves index (KNode l kids)).
  - rewrite insert_node by assumption. cbn [bind]. unfold _transform_dict.
    apply (transform_dictified _ Hwf index).
  - rewrite <- (map_id (rleaves index (KNode l kids))) at 1.
    apply map_ext. now intros [p leaf].
Qed.

(** *** Tar layout fidelity *)

(** C1, as amended: for every index string without a slash and every
    encoded record tree whose dictionaries and lists are non-empty, whose
    dictionary keys are distinct path components (no slash) that are not all
    digits, and whose leaves are byte strings or [None], [_write_to_tar]
    succeeds and [_feature_stream] over the members it wrote yields exactly
    one pair: the index, and a tree of the same shape whose stream wrappers
    hold the leaves' bytes, a [None] leaf being read back as no bytes and
    list elements standing in their written order. *)
Theorem tar_layout_fidelity index t :
  no_slash index = true ->
  packable t = true ->
  layout_fidelity index t.
Proof.
  intros Hi Hp. destruct (write_emitted t Hp [] index) as [sz Hw].
  pose proof (packable_wf t Hp) as Hwf.
  exists (emitted index (to_ktree t)), sz, (expected index (to_ktree t)).
  split; [exact Hw|]. split.
  - unfold _feature_stream.
    rewrite (feature_stream_one_index index).
    + unfold yield_composed. cbn [app]. now rewrite compose_expected.
    + apply emitted_nonempty.
    + apply (emitted_index _ Hwf index index []). now apply split_no_slash.
  - now apply read_expected.
Qed.

Definition sample_record : value :=
  VDict [("text", VBytes [x68; x69]);
         ("tags", VList [VBytes [x61]; VNone; VBytes [x62]]);
         ("meta", VDict [("lang", VBytes [x65; x6e])])].

Lemma tar_layout_fidelity_witness :
  no_slash "7" = true /\ packable sample_record = true /\
  layout_fidelity "7" sample_record.
Proof.
  split; [reflexivity|]. split; [reflexivity|].
  apply (tar_layout_fidelity "7" sample_record); reflexivity.
Defined.

(** C1 as stated fails: an empty list inside a record leaves only a
    directory entry, which the reader skips, so its key is lost. *)
Lemma tar_layout_fidelity_counterexample :
  spec_tree (VDict [("a", VList []); ("b", VBytes [x78])]) = true /\
  ~ layout_fidelity "0" (VDict [("a", VList []); ("b", VBytes [x78])]).
Proof.
  split; [reflexivity|]. intros (tar & sz & f & Hw & Hs & Hr).
  vm_compute in Hw. injection Hw as <- _.
  vm_compute in Hs. injection Hs as <-.
  vm_compute in Hr. discriminate Hr.
Qed.

(** A record that is an empty dictionary is one directory entry: the
    reader's assertion that a lone member is a file fails. *)
Example empty_record_not_read_back :
  _feature_stream (fst (_write_to_tar [] "0" (VDict []))) = Fail AssertionError.
Proof. reflexivity. Qed.

(** An index with a slash is not the first path component of its members. *)
Example slash_index_not_read_back :
  exists f, _feature_stream (fst (_write_to_tar [] "a/b" (VBytes [x78])))
            = Yield ("a", f) Done.
Proof. eexists. reflexivity. Qed.

(** *** Groups without file entries *)

Definition all_directories (group : list member) : bool :=
  forallb (fun m => isdir (info m)) group.

Lemma compose_loop_directories group d :
  all_directories group = true -> compose_loop d group = Ok d.
Proof.
  induction group as [|m group IH]; intros Hall; [reflexivity|].
  simpl in Hall. apply andb_prop in Hall as [Hm Hall].
  simpl. unfold compose_step. rewrite Hm. simpl. now apply IH.
Qed.

(** C10: [_transform_dict] of the empty dictionary is the empty list (the
    test that all keys are decimal holds vacuously), so a group that takes
    the nested branch of [_compose_feature] (its length is not 1) and has
    directory entries only is composed to the empty list, not to an empty
    dictionary. *)
Theorem group_without_files_is_empty_list group :
  length group <> 1 ->
  all_directories group = true ->
  _transform_dict [] = Ok (FList []) /\
  _compose_feature group = Ok (FList []).
Proof.
  intros Hlen Hall. split; [reflexivity|].
  unfold _compose_feature.
  destruct group as [|m [|m' group]]; [reflexivity|contradiction|].
  now rewrite compose_loop_directories.
Qed.

Lemma group_without_files_is_empty_list_witness :
  _compose_feature (fst (_write_to_tar [] "0" (VDict [("col", VList [])])))
  = Ok (FList []).
Proof.
  apply (group_without_files_is_empty_list
           (fst (_write_to_tar [] "0" (VDict [("col", VList [])]))));
    [discriminate|reflexivity].
Defined.

(** *** No composed tree holds an empty dictionary *)

Fixpoint feature_ind' (P : feature -> Prop)
    (HDict : forall items, Forall (fun kv => P (snd kv)) items -> P (FDict items))
    (HList : forall xs, Forall P xs -> P (FList xs))
    (HStream : forall m, P (FStream m))
    (f : feature) {struct f} : P f :=
  match f with
  | FDict items =>
      HDict items ((fix go items : Forall (fun kv => P (snd kv)) items :=
                      match items with
                      | [] => @List.Forall_nil _ _
                      | kv :: r =>
                          @List.Forall_cons _ _ kv r
                            (feature_ind' P HDict HList HStream (snd kv)) (go r)
                      end) items)
  | FList xs =>
      HList xs ((fix go xs : Forall P xs :=
                   match xs with
                   | [] => @List.Forall_nil _ _
                   | x :: r =>
                       @List.Forall_cons _ _ x r
                         (feature_ind' P HDict HList HStream x) (go r)
                   end) xs)
  | FStream m => HStream m
  end.

(** What [compose_loop] builds: dictionaries and stream wrappers only. *)
Fixpoint dicts_of_streams (f : feature) : bool :=
  match f with
  | FDict items => forallb (fun kv => dicts_of_streams (snd kv)) items
  | FList _ => false
  | FStream _ => true
  end.

Fixpoint no_empty_dict (f : feature) : bool :=
  match f with
  | FDict items =>
      match items with
      | [] => false
      | _ => forallb (fun kv => no_empty_dict (snd kv)) items
      end
  | FList xs => forallb no_empty_dict xs
  | FStream _ => true
  end.

Lemma dict_get_forallb {V} (P : V -> bool) (d : list (string * V)) k v :
  forallb (fun kv => P (snd kv)) d = true -> dict_get d k = Some v -> P v = true.
Proof.
  induction d as [|[k' v'] d IH]; simpl; [discriminate|].
  intros [Hv Hd]%andb_prop. destruct (String.eqb k' k); [now intros [= <-]|auto].
Qed.

Lemma dict_set_forallb {V} (P : V -> bool) (d : list (string * V)) k v :
  forallb (fun kv => P (snd kv)) d = true -> P v = true ->
  forallb (fun kv => P (snd kv)) (dict_set d k v) = true.
Proof.
  induction d as [|[k' v'] d IH]; simpl; intros Hd Hv.
  - now rewrite Hv.
  - apply andb_prop in Hd as [Hv' Hd]. destruct (String.eqb k' k); simpl.
    + now rewrite Hv, Hd.
    + now rewrite Hv', IH.
Qed.

Lemma set_nested_streams middle : forall d last m d',
  dicts_of_streams (FDict d) = true ->
  set_nested d middle last (FStream m) = Ok d' ->
  dicts_of_streams (FDict d') = true.
Proof.
  induction middle as [|part middle IH]; intros d last m d' Hd Hset; simpl in *.
  - injection Hset as <-. now apply (dict_set_forallb dicts_of_streams).
  - destruct (dict_get d part) as [[sub0|xs|m0]|] eqn:Hget; try discriminate.
    + apply bind_Ok in Hset as (sub & Hsub & [= <-]).
      apply (dict_set_forallb dicts_of_streams); [assumption|].
      apply (IH sub0 last m); [|assumption].
      apply (dict_get_forallb dicts_of_streams _ _ _ Hd Hget).
    + apply bind_Ok in Hset as (sub & Hsub & [= <-]).
      apply (dict_set_forallb dicts_of_streams); [assumption|].
      now apply (IH [] last m).
Qed.

Lemma compose_loop_streams group : forall d d',
  dicts_of_streams (FDict d) = true ->
  compose_loop d group = Ok d' ->
  dicts_of_streams (FDict d') = true.
Proof.
  induction group as [|m group IH]; intros d d' Hd Hc; simpl in Hc.
  - now injection Hc as <-.
  - apply bind_Ok in Hc as (d1 & Hstep & Hrest). apply (IH d1); [|assumption].
    unfold compose_step in Hstep. destruct (isdir (info m)).
    + now injection Hstep as <-.
    + apply bind_Ok in Hstep as (leaf & Hleaf & Hset).
      unfold _get_inner_fobj in Hleaf.
      destruct (type (info m)); [|discriminate]. injection Hleaf as <-.
      eapply set_nested_streams; eassumption.
Qed.

Lemma insert_by_key_In {A} (x y : nat * A) l :
  In y (insert_by_key x l) -> y = x \/ In y l.
Proof.
  induction l as [|z l IH]; simpl.
  - intros [<-|[]]. now left.
  - destruct (fst x <=? fst z); simpl; intros [H|H]; subst; auto.
    destruct (IH H); auto.
Qed.

Lemma sort_by_key_In {A} (y : nat * A) l : In y (sort_by_key l) -> In y l.
Proof.
  induction l as [|x l IH]; simpl; [auto|].
  intros H. apply insert_by_key_In in H as [->|H]; auto.
Qed.

Lemma sorted_In {A} (key : A -> result nat) items s (x : A) :
  sorted key items = Ok s -> In x s -> In x items.
Proof.
  unfold sorted. intros (ks & _ & [= <-])%bind_Ok Hin.
  apply in_map_iff in Hin as ([k y] & <- & Hin).
  apply sort_by_key_In in Hin. now apply in_combine_r in Hin.
Qed.

Lemma transform_no_empty_dict f :
  dicts_of_streams f = true ->
  forall f', transform f = Ok f' -> no_empty_dict f' = true.
Proof.
  induction f as [items IH|xs _|m] using feature_ind'; intros Hf f' Ht;
    [|discriminate|now injection Ht as <-].
  rewrite transform_FDict in Ht. apply bind_Ok in Ht as (R & HR & Ht).
  assert (forallb (fun kv => no_empty_dict (snd kv)) R = true) as HRok.
  { clear Ht. simpl in Hf. revert R HR.
    induction IH as [|[k v] items Hv _ IHi]; intros R HR; simpl in HR.
    - now injection HR as <-.
    - simpl in Hf. apply andb_prop in Hf as [Hfv Hf].
      apply bind_Ok in HR as ([k' v'] & Hkv & HR).
      apply bind_Ok in HR as (R' & HR' & [= <-]).
      apply bind_Ok in Hkv as (v1 & Hv1 & [= <- <-]).
      simpl. rewrite (Hv Hfv v1 Hv1). now apply IHi. }
  destruct (forallb digit_key R) eqn:Hdig.
  - apply bind_Ok in Ht as (s & Hs & [= <-]). simpl.
    apply forallb_forall. intros x Hx.
    apply in_map_iff in Hx as (kv & <- & Hin).
    rewrite forallb_forall in HRok. apply (HRok kv).
    eapply sorted_In; eassumption.
  - injection Ht as <-. simpl. destruct R; [discriminate|assumption].
Qed.

(** Whatever group is composed, the tree holds no empty dictionary. *)
Lemma compose_never_empty_dict group f :
  _compose_feature group = Ok f -> no_empty_dict f = true.
Proof.
  unfold _compose_feature. intros H.
  assert (bind (compose_loop [] group) _transform_dict = Ok f ->
          no_empty_dict f = true) as G.
  { intros (nested & Hn & Ht)%bind_Ok.
    apply (transform_no_empty_dict (FDict nested)); [|assumption].
    now apply (compose_loop_streams group [] nested). }
  destruct group as [|m [|m' group]]; [now apply G| |now apply G].
  destruct (isfile (info m)); [|discriminate].
  unfold _get_inner_fobj in H. destruct (type (info m)); [|discriminate].
  now injection H as <-.
Qed.

End TarFacts.

(** ** The reference-count invariant of stream wrappers *)

Module UtilsFacts.
Import Utils.

Fixpoint count {A} (P : A -> bool) (l : list A) : nat :=
  match l with
  | [] => 0
  | x :: l' => (if P x then 1 else 0) + count P l'
  end.

(** [w] is a child of the wrapper at [p] that has not been closed. *)
Definition is_open_child (p : nat) (w : StreamWrapper) : bool :=
  bool_decide (parent_stream w = Some p) && negb (closed w).

Definition open_children (h : heap) (p : nat) : nat :=
  count (is_open_child p) (wrappers h).

Definition counters_ok (h : heap) : Prop :=
  forall p w, wrappers h !! p = Some w ->
              child_counter w = Z.of_nat (open_children h p).

Definition parents_before (h : heap) : Prop :=
  forall i w p, wrappers h !! i = Some w -> parent_stream w = Some p -> p < i.

Definition registered (h : heap) : Prop :=
  debug_unclosed_streams h = true ->
  forall i w, wrappers h !! i = Some w -> closed w = false ->
              i ∈ session_streams h.

Record good (h : heap) : Prop := mkGood {
  good_counters : counters_ok h;
  good_parents : parents_before h;
  good_registered : registered h
}.

(** The calls of a run. *)
Inductive call : Type :=
| New (file : File) (parent : option nat) (nm : option string)
| Close (self : nat)
| Autoclose (self : nat)
| Read (self : nat).

Definition exec (c : call) (h : heap) : heap :=
  match c with
  | New file parent nm => snd (__init__ file parent nm h)
  | Close self => snd (close self h)
  | Autoclose self => snd (autoclose self h)
  | Read self => snd (read self h)
  end.

Inductive reachable : heap -> Prop :=
| reach_empty debug : reachable (empty_heap debug)
| reach_step c h : reachable h -> reachable (exec c h).

Definition counter_at (h : heap) (i : nat) : Z :=
  match wrappers h !! i with Some w => child_counter w | None => 0 end.

Definition closed_at (h : heap) (i : nat) : bool :=
  match wrappers h !! i with Some w => closed w | None => false end.

Definition autoclose_at (h : heap) (i : nat) : bool :=
  match wrappers h !! i with Some w => close_on_last_child w | None => false end.

Lemma count_app {A} (P : A -> bool) l1 l2 :
  count P (l1 ++ l2) = count P l1 + count P l2.
Proof. induction l1 as [|x l1 IH]; simpl; [reflexivity|]. rewrite IH. lia. Qed.

Lemma count_alter {A} (P : A -> bool) (f : A -> A) l i x :
  l !! i = Some x ->
  count P (alter f i l) + (if P x then 1 else 0) =
  count P l + (if P (f x) then 1 else 0).
Proof.
  revert i. induction l as [|y l IH]; intros [|i] Hi; simpl in *; try discriminate.
  - injection Hi as ->. destruct (P x), (P (f x)); lia.
  - specialize (IH i Hi). unfold alter in IH.
    destruct (P y), (P x), (P (f x)); lia.
Qed.

Lemma count_alter_same {A} (P : A -> bool) (f : A -> A) l i :
  (forall x, P (f x) = P x) -> count P (alter f i l) = count P l.
Proof.
  intros Hf. revert i. induction l as [|y l IH]; intros [|i]; simpl; auto.
  - now rewrite Hf.
  - f_equal. apply IH.
Qed.

(** *** Attribute updates *)

Lemma lookup_upd_ne i j f h :
  i <> j -> wrappers (upd i f h) !! j = wrappers h !! j.
Proof. intros. simpl. now apply list_lookup_alter_ne. Qed.

Lemma lookup_upd_eq i f h :
  wrappers (upd i f h) !! i = f <$> wrappers h !! i.
Proof. simpl. apply list_lookup_alter_eq. Qed.

Lemma upd_upd_ne i j f g h :
  i <> j -> upd i f (upd j g h) = upd j g (upd i f h).
Proof.
  intros. unfold upd, set_wrappers. simpl. f_equal.
  now apply list_alter_alter_ne.
Qed.

Lemma upd_set_session_streams i f r h :
  upd i f (set_session_streams r h) = set_session_streams r (upd i f h).
Proof. reflexivity. Qed.

Lemma parents_before_upd i f h :
  (forall w, parent_stream (f w) = parent_stream w) ->
  parents_before h -> parents_before (upd i f h).
Proof.
  intros Hf Hh j w p Hj Hp. simpl in Hj. rewrite list_lookup_alter in Hj.
  destruct (decide (i = j)) as [->|].
  - destruct (wrappers h !! j) as [w0|] eqn:E; [|discriminate].
    injection Hj as <-. rewrite Hf in Hp. eauto.
  - eauto.
Qed.

Lemma parents_before_set_session_streams r h :
  parents_before h -> parents_before (set_session_streams r h).
Proof. exact id. Qed.

(** *** One call of [close], unfolded *)

(** The part of [close] before the parent is looked at. *)
Definition unregister (self : nat) (h : heap) : heap :=
  if debug_unclosed_streams h
  then set_session_streams (session_streams h ∖ {[self]}) h
  else h.

Definition detach (self : nat) (h : heap) : heap :=
  match wrappers h !! self with
  | Some w =>
      match parent_stream w with
      | Some p => upd p (add_child (-1)) (unregister self h)
      | None => unregister self h
      end
  | None => h
  end.

(** [close] of a wrapper whose parent does not close with it. *)
Definition close_one (self : nat) (h : heap) : heap :=
  upd self mark_closed (detach self h).

Lemma upd_unregister i f x h : upd i f (unregister x h) = unregister x (upd i f h).
Proof. unfold unregister. simpl. now destruct (debug_unclosed_streams h). Qed.

Lemma wrappers_unregister x h : wrappers (unregister x h) = wrappers h.
Proof. unfold unregister. now destruct (debug_unclosed_streams h). Qed.

Lemma parents_before_unregister x h :
  parents_before h -> parents_before (unregister x h).
Proof. unfold parents_before. now rewrite wrappers_unregister. Qed.

Lemma close_fuel_S fuel self h :
  close_fuel (S fuel) self h =
  match wrappers h !! self with
  | None => (Raise AttributeError, h)
  | Some w =>
      if closed w then (Ok tt, h)
      else if debug_unclosed_streams h
              && negb (bool_decide (self ∈ session_streams h))
      then (Raise KeyError, h)
      else
        let rh :=
          match parent_stream w with
          | None => (Ok tt, unregister self h)
          | Some p =>
              let h2 := upd p (add_child (-1)) (unregister self h) in
              match wrappers h2 !! p with
              | None => (Raise AttributeError, h2)
              | Some pw =>
                  if (child_counter pw =? 0)%Z && close_on_last_child pw
                  then close_fuel fuel p h2
                  else (Ok tt, h2)
              end
          end in
        match rh with
        | (Ok _, h3) => (Ok tt, upd self mark_closed h3)
        | (Raise e, h3) => (Raise e, h3)
        end
  end.
Proof. reflexivity. Qed.

(** Marking a wrapper closed commutes with closing one that was built
    before it. *)
Lemma close_fuel_commute fuel : forall p x h,
  parents_before h -> p < x ->
  close_fuel fuel p (upd x mark_closed h) =
  (fst (close_fuel fuel p h), upd x mark_closed (snd (close_fuel fuel p h))).
Proof.
  induction fuel as [|fuel IH]; intros p x h Hpar Hpx; [reflexivity|].
  rewrite !close_fuel_S. rewrite lookup_upd_ne by lia.
  destruct (wrappers h !! p) as [w|] eqn:Hw; [|reflexivity].
  destruct (closed w); [reflexivity|].
  change (debug_unclosed_streams (upd x mark_closed h))
    with (debug_unclosed_streams h).
  change (session_streams (upd x mark_closed h)) with (session_streams h).
  destruct (debug_unclosed_streams h && negb (bool_decide (p ∈ session_streams h)));
    [reflexivity|].
  rewrite <- upd_unregister.
  destruct (parent_stream w) as [pp|] eqn:Hpp; cbn zeta.
  - assert (pp < p) as Hlt by (eapply Hpar; eassumption).
    rewrite (upd_upd_ne pp x) by lia. rewrite lookup_upd_ne by lia.
    set (h2 := upd pp (add_child (-1)) (unregister p h)).
    destruct (wrappers h2 !! pp) as [pw|]; [|reflexivity].
    destruct ((child_counter pw =? 0)%Z && close_on_last_child pw).
    + rewrite IH; [|apply parents_before_upd; [easy|];
                     now apply parents_before_unregister|lia].
      destruct (close_fuel fuel pp h2) as [[u|e] h3]; simpl; [|reflexivity].
      now rewrite upd_upd_ne by lia.
    + simpl. now rewrite upd_upd_ne by lia.
  - simpl. now rewrite upd_upd_ne by lia.
Qed.

(** [close] of an open wrapper is [close_one], followed by [close] of the
    parent when that was its last child and it closes with its children. *)
Lemma close_fuel_open fuel self h w :
  parents_before h ->
  wrappers h !! self = Some w ->
  closed w = false ->
  (debug_unclosed_streams h = true -> self ∈ session_streams h) ->
  match parent_stream w with
  | None => close_fuel (S fuel) self h = (Ok tt, close_one self h)
  | Some p =>
      forall pw, wrappers h !! p = Some pw ->
        if (child_counter pw - 1 =? 0)%Z && close_on_last_child pw
        then forall h', close_fuel fuel p (close_one self h) = (Ok tt, h') ->
                        close_fuel (S fuel) self h = (Ok tt, h')
        else close_fuel (S fuel) self h = (Ok tt, close_one self h)
  end.
Proof.
  intros Hpar Hw Hopen Hreg. rewrite close_fuel_S, Hw, Hopen.
  assert (debug_unclosed_streams h
          && negb (bool_decide (self ∈ session_streams h)) = false) as ->.
  { destruct (debug_unclosed_streams h); [|reflexivity]. simpl.
    apply negb_false_iff, bool_decide_eq_true. auto. }
  unfold close_one, detach. rewrite Hw.
  destruct (parent_stream w) as [p|] eqn:Hp; [|reflexivity].
  intros pw Hpw. cbn zeta.
  assert (p < self) as Hlt by (eapply Hpar; eassumption).
  rewrite lookup_upd_eq, wrappers_unregister, Hpw. simpl.
  replace (child_counter pw + -1)%Z with (child_counter pw - 1)%Z by lia.
  destruct ((child_counter pw - 1 =? 0)%Z && close_on_last_child pw);
    [|reflexivity].
  intros h' Hh'. rewrite close_fuel_commute in Hh';
    [|apply parents_before_upd; [easy|]; now apply parents_before_unregister|lia].
  destruct (close_fuel fuel p (upd p (add_child (-1)) (unregister self h)))
    as [[[]|e] h3]; simpl in Hh'; [|discriminate].
  inversion Hh'. reflexivity.
Qed.

(** *** [close_one] keeps the invariant *)

Lemma is_open_child_add_child q d w :
  is_open_child q (add_child d w) = is_open_child q w.
Proof. reflexivity. Qed.

Lemma open_children_unregister x h q :
  open_children (unregister x h) q = open_children h q.
Proof. unfold open_children. now rewrite wrappers_unregister. Qed.

Lemma open_children_close_one self h w q :
  wrappers h !! self = Some w -> closed w = false ->
  open_children (close_one self h) q
  + (if bool_decide (parent_stream w = Some q) then 1 else 0)
  = open_children h q.
Proof.
  intros Hw Hopen. unfold close_one, open_children. cbn [upd set_wrappers wrappers].
  assert (wrappers (detach self h) !! self = Some w
          \/ exists d, wrappers (detach self h) !! self = Some (add_child d w))
    as Hself.
  { unfold detach. rewrite Hw. destruct (parent_stream w) as [p|].
    - cbn [upd set_wrappers wrappers]. rewrite wrappers_unregister.
      rewrite list_lookup_alter. destruct (decide (p = self)) as [->|].
      + right. exists (-1)%Z. now rewrite Hw.
      + now left.
    - left. now rewrite wrappers_unregister. }
  assert (count (is_open_child q) (wrappers (detach self h))
          = count (is_open_child q) (wrappers h)) as Hdet.
  { unfold detach. rewrite Hw. destruct (parent_stream w) as [p|].
    - cbn [upd set_wrappers wrappers]. rewrite wrappers_unregister.
      now apply count_alter_same.
    - now rewrite wrappers_unregister. }
  rewrite <- Hdet.
  destruct Hself as [Hs|[d Hs]];
    pose proof (count_alter (is_open_child q) mark_closed _ _ _ Hs) as Hc;
    unfold is_open_child in Hc |- *; simpl in Hc; rewrite Hopen in Hc;
    rewrite andb_false_r in Hc; simpl in Hc;
    destruct (bool_decide (parent_stream w = Some q)); simpl in Hc; lia.
Qed.

Lemma wrappers_close_one self h w :
  wrappers h !! self = Some w ->
  wrappers (close_one self h) =
  alter mark_closed self
    (match parent_stream w with
     | Some p => alter (add_child (-1)) p (wrappers h)
     | None => wrappers h
     end).
Proof.
  intros Hw. unfold close_one, detach. rewrite Hw.
  destruct (parent_stream w); cbn [upd set_wrappers wrappers];
    now rewrite wrappers_unregister.
Qed.

Lemma good_close_one self h w :
  good h -> wrappers h !! self = Some w -> closed w = false ->
  good (close_one self h).
Proof.
  intros [Hc Hp Hr] Hw Hopen. split.
  - intros q w' Hq.
    pose proof (open_children_close_one self h w q Hw Hopen) as Hcount.
    rewrite (wrappers_close_one self h w Hw) in Hq.
    rewrite list_lookup_alter in Hq.
    destruct (parent_stream w) as [p|] eqn:Hpw.
    + assert (p < self) as Hlt by (eapply Hp; eassumption).
      destruct (decide (self = q)) as [<-|Hne].
      * rewrite list_lookup_alter_ne, Hw in Hq by lia. injection Hq as <-.
        simpl. rewrite (Hc self w Hw).
        rewrite bool_decide_eq_false_2 in Hcount by (intros [=]; lia). lia.
      * rewrite list_lookup_alter in Hq. destruct (decide (p = q)) as [<-|Hne2].
        -- destruct (wrappers h !! p) as [wp|] eqn:Hwp; [|discriminate].
           injection Hq as <-. simpl. rewrite (Hc p wp Hwp).
           rewrite bool_decide_eq_true_2 in Hcount by reflexivity. lia.
        -- rewrite (Hc q w' Hq).
           rewrite bool_decide_eq_false_2 in Hcount by congruence. lia.
    + rewrite bool_decide_eq_false_2 in Hcount by discriminate.
      destruct (decide (self = q)) as [<-|Hne].
      * rewrite Hw in Hq. injection Hq as <-. simpl. rewrite (Hc self w Hw). lia.
      * rewrite (Hc q w' Hq). lia.
  - unfold close_one, detach. rewrite Hw.
    destruct (parent_stream w); repeat apply parents_before_upd; try easy;
      now apply parents_before_unregister.
  - intros Hdebug i wi Hi Hwi.
    assert (debug_unclosed_streams (close_one self h) = debug_unclosed_streams h)
      as Hd.
    { unfold close_one, detach, unregister. rewrite Hw.
      destruct (parent_stream w), (debug_unclosed_streams h) eqn:E; simpl; auto. }
    rewrite Hd in Hdebug.
    assert (session_streams (close_one self h) = session_streams h ∖ {[self]})
      as ->.
    { unfold close_one, detach, unregister. rewrite Hw, Hdebug.
      destruct (parent_stream w); reflexivity. }
    rewrite (wrappers_close_one self h w Hw) in Hi.
    rewrite list_lookup_alter in Hi.
    destruct (decide (self = i)) as [<-|Hne].
    + apply fmap_Some in Hi as (w0 & _ & ->). discriminate Hwi.
    + apply elem_of_difference. split; [|set_solver].
      destruct (parent_stream w) as [p|]; [|now apply (Hr Hdebug i wi)].
      rewrite list_lookup_alter in Hi. destruct (decide (p = i)) as [<-|Hne2].
      * destruct (wrappers h !! p) as [wp|] eqn:Hwp; [|discriminate].
        injection Hi as <-. now apply (Hr Hdebug p wp).
      * now apply (Hr Hdebug i wi).
Qed.

Lemma length_close_one self h :
  length (wrappers (close_one self h)) = length (wrappers h).
Proof.
  unfold close_one, detach. cbn [upd set_wrappers wrappers].
  rewrite length_alter. destruct (wrappers h !! self) as [w|]; [|reflexivity].
  destruct (parent_stream w); cbn [upd set_wrappers wrappers];
    rewrite ?length_alter; apply (f_equal (@length _)), wrappers_unregister.
Qed.

(** On a heap that satisfies the invariant, [close] returns and keeps it. *)
Lemma close_fuel_good self : forall fuel h,
  good h -> self < fuel -> self < length (wrappers h) ->
  exists h', close_fuel fuel self h = (Ok tt, h') /\ good h' /\
             length (wrappers h') = length (wrappers h).
Proof.
  induction self as [self IH] using lt_wf_ind. intros [|fuel] h Hg Hf Hlen; [lia|].
  destruct (lookup_lt_is_Some_2 _ _ Hlen) as [w Hw].
  destruct (closed w) eqn:Hopen.
  { exists h. rewrite close_fuel_S, Hw, Hopen. auto. }
  pose proof (close_fuel_open fuel self h w (good_parents _ Hg) Hw Hopen) as Hstep.
  specialize (Hstep (fun Hd => good_registered _ Hg Hd self w Hw Hopen)).
  pose proof (good_close_one self h w Hg Hw Hopen) as Hg1.
  destruct (parent_stream w) as [p|] eqn:Hp.
  - assert (p < self) as Hlt by (eapply (good_parents _ Hg); eassumption).
    destruct (lookup_lt_is_Some_2 (wrappers h) p ltac:(lia)) as [pw Hpw].
    specialize (Hstep pw Hpw).
    destruct ((child_counter pw - 1 =? 0)%Z && close_on_last_child pw).
    + destruct (IH p Hlt fuel (close_one self h) Hg1 ltac:(lia)
                  ltac:(rewrite length_close_one; lia)) as (h' & Hh' & Hg' & Hl').
      exists h'. split; [now apply Hstep|]. split; [assumption|].
      now rewrite Hl', length_close_one.
    + exists (close_one self h). auto using length_close_one.
  - exists (close_one self h). auto using length_close_one.
Qed.

(** *** Construction and the other calls keep the invariant *)

Lemma no_children_beyond h q :
  parents_before h -> length (wrappers h) <= q -> open_children h q = 0.
Proof.
  unfold open_children, parents_before. generalize (wrappers h) as ws.
  induction ws as [|w ws IH] using rev_ind; intros Hp Hq; [reflexivity|].
  rewrite length_app in Hq. simpl in Hq. rewrite count_app. simpl.
  rewrite IH.
  - unfold is_open_child. destruct (bool_decide_reflect (parent_stream w = Some q))
      as [Hw|]; [|reflexivity].
    specialize (Hp (length ws) w q (list_lookup_middle _ _ _ _ eq_refl) Hw). lia.
  - intros i wi p Hi. apply (Hp i wi p). now apply lookup_app_l_Some.
  - lia.
Qed.

Definition register (self : nat) (h : heap) : heap :=
  if debug_unclosed_streams h
  then set_session_streams ({[self]} ∪ session_streams h) h else h.

Definition new_wrapper (file : File) (parent : option nat) (nm : option string)
  : StreamWrapper :=
  {| file_obj := file; child_counter := 0; parent_stream := parent;
     close_on_last_child := false; name := nm; closed := false |}.

Lemma init_heap file parent nm h :
  snd (__init__ file parent nm h) =
  match parent with
  | None =>
      register (length (wrappers h))
        (set_wrappers (wrappers h ++ [new_wrapper file None nm]) h)
  | Some p =>
      match wrappers h !! p with
      | None => h
      | Some _ =>
          register (length (wrappers h))
            (set_wrappers (alter (add_child 1) p (wrappers h)
                           ++ [new_wrapper file (Some p) nm]) h)
      end
  end.
Proof.
  unfold __init__. destruct parent as [p|]; [|reflexivity].
  now destruct (wrappers h !! p).
Qed.

Lemma wrappers_register x h : wrappers (register x h) = wrappers h.
Proof. unfold register. now destruct (debug_unclosed_streams h). Qed.

Lemma good_extend h ws' (w : StreamWrapper) :
  good h ->
  length ws' = length (wrappers h) ->
  (forall q, count (is_open_child q) ws' = open_children h q) ->
  (forall i wi, ws' !! i = Some wi ->
     exists w0, wrappers h !! i = Some w0 /\
                parent_stream wi = parent_stream w0 /\ closed wi = closed w0 /\
                child_counter wi =
                (child_counter w0
                 + if bool_decide (parent_stream w = Some i) then 1 else 0)%Z) ->
  closed w = false -> child_counter w = 0%Z ->
  (forall p, parent_stream w = Some p -> p < length (wrappers h)) ->
  good (register (length (wrappers h)) (set_wrappers (ws' ++ [w]) h)).
Proof.
  intros [Hc Hp Hr] Hlen Hcount Hold Hopen Hzero Hparent.
  assert (forall q, open_children
                      (register (length (wrappers h)) (set_wrappers (ws' ++ [w]) h)) q
                    = open_children h q
                      + if bool_decide (parent_stream w = Some q) then 1 else 0)
    as Hchildren.
  { intros q. unfold open_children. rewrite wrappers_register. simpl.
    rewrite count_app, Hcount. simpl. unfold is_open_child at 1.
    rewrite Hopen, andb_true_r.
    destruct (bool_decide (parent_stream w = Some q)); simpl;
      unfold open_children; lia. }
  split.
  - intros q wq Hq. rewrite Hchildren. rewrite wrappers_register in Hq.
    simpl in Hq. apply lookup_app_Some in Hq as [Hq|[Hge Hq]].
    + destruct (Hold q wq Hq) as (w0 & Hw0 & _ & _ & Hcnt).
      rewrite Hcnt, (Hc q w0 Hw0).
      destruct (bool_decide (parent_stream w = Some q)); lia.
    + destruct (q - length ws') as [|n] eqn:E; [|now destruct n].
      injection Hq as <-. rewrite Hzero.
      rewrite no_children_beyond by (assumption || lia).
      rewrite bool_decide_eq_false_2; [reflexivity|].
      intros Hw. apply Hparent in Hw. lia.
  - intros i wi p Hi Hpi. rewrite wrappers_register in Hi. simpl in Hi.
    apply lookup_app_Some in Hi as [Hi|[Hge Hi]].
    + destruct (Hold i wi Hi) as (w0 & Hw0 & Hpar & _). rewrite Hpar in Hpi. eauto.
    + destruct (i - length ws') as [|n] eqn:E; [|now destruct n].
      injection Hi as <-. apply Hparent in Hpi. lia.
  - intros Hdebug i wi Hi Hwi.
    assert (debug_unclosed_streams h = true) as Hd.
    { unfold register in Hdebug. simpl in Hdebug.
      destruct (debug_unclosed_streams h) eqn:E; simpl in Hdebug; congruence. }
    unfold register in Hi |- *. simpl in Hi |- *. rewrite Hd in Hi |- *.
    simpl in Hi |- *.
    apply lookup_app_Some in Hi as [Hi|[Hge Hi]].
    + destruct (Hold i wi Hi) as (w0 & Hw0 & _ & Hcl & _). rewrite Hcl in Hwi.
      apply elem_of_union_r. now apply (Hr Hd i w0).
    + destruct (i - length ws') as [|n] eqn:E; [|now destruct n].
      apply elem_of_union_l, elem_of_singleton. lia.
Qed.

Lemma good_init file parent nm h :
  good h -> good (snd (__init__ file parent nm h)).
Proof.
  intros Hg. rewrite init_heap. destruct parent as [p|].
  - destruct (wrappers h !! p) as [pw|] eqn:Hpw; [|assumption].
    apply good_extend; try easy.
    + apply length_alter.
    + intros q. now apply count_alter_same.
    + intros i wi Hi. rewrite list_lookup_alter in Hi. simpl.
      destruct (decide (p = i)) as [->|Hne].
      * rewrite Hpw in Hi. injection Hi as <-. exists pw.
        rewrite bool_decide_eq_true_2 by reflexivity. auto.
      * exists wi. rewrite bool_decide_eq_false_2 by congruence.
        repeat split; auto. lia.
    + intros p' [= <-]. eapply lookup_lt_Some; eassumption.
  - apply good_extend; try easy.
    intros i wi Hi. exists wi. simpl. repeat split; auto. lia.
Qed.

Lemma good_upd_attr i f h :
  (forall w, parent_stream (f w) = parent_stream w) ->
  (forall w, closed (f w) = closed w) ->
  (forall w, child_counter (f w) = child_counter w) ->
  good h -> good (upd i f h).
Proof.
  intros Hpar Hcl Hcnt [Hc Hp Hr].
  assert (forall q, open_children (upd i f h) q = open_children h q) as Hchildren.
  { intros q. apply count_alter_same. intros w. unfold is_open_child.
    now rewrite Hpar, Hcl. }
  split.
  - intros q wq Hq. rewrite Hchildren. simpl in Hq. rewrite list_lookup_alter in Hq.
    destruct (decide (i = q)) as [->|]; [|auto].
    apply fmap_Some in Hq as (w0 & Hw0 & ->). rewrite Hcnt. auto.
  - now apply parents_before_upd.
  - intros Hd j wj Hj Hwj. simpl in *. rewrite list_lookup_alter in Hj.
    destruct (decide (i = j)) as [->|]; [|eauto].
    apply fmap_Some in Hj as (w0 & Hw0 & ->). rewrite Hcl in Hwj. eauto.
Qed.

Lemma good_close self h : good h -> good (snd (close self h)).
Proof.
  intros Hg. unfold close.
  destruct (decide (self < length (wrappers h))) as [Hlt|Hge].
  - destruct (close_fuel_good self _ h Hg Hlt Hlt) as (h' & -> & Hg' & _).
    exact Hg'.
  - destruct (length (wrappers h)) as [|n] eqn:E; [exact Hg|].
    rewrite close_fuel_S, (lookup_ge_None_2 (wrappers h) self) by lia. exact Hg.
Qed.

Lemma good_exec c h : good h -> good (exec c h).
Proof.
  intros Hg. destruct c as [file parent nm|self|self|self]; simpl.
  - now apply good_init.
  - now apply good_close.
  - unfold autoclose.
    destruct (wrappers (upd self set_close_on_last_child h) !! self) as [w|];
      [|assumption].
    destruct (child_counter w =? 0)%Z.
    + apply good_close. now apply good_upd_attr.
    + now apply good_upd_attr.
  - unfold read. destruct (wrappers h !! self) as [w|]; [|assumption].
    destruct (f_closed (file_obj w)); [assumption|]. now apply good_upd_attr.
Qed.

Lemma good_empty debug : good (empty_heap debug).
Proof. split; intros ?; intros; simpl in *; discriminate. Qed.

Lemma reachable_good h : reachable h -> good h.
Proof. induction 1; auto using good_empty, good_exec. Qed.

(** *** What one [close] changes *)

(** [close] touches no wrapper built after [self], and on [self] itself
    only the closed flags. *)
Lemma close_fuel_frame fuel : forall self h r h',
  parents_before h ->
  close_fuel fuel self h = (r, h') ->
  (forall j, self < j -> wrappers h' !! j = wrappers h !! j) /\
  (forall w, wrappers h !! self = Some w ->
     exists w', wrappers h' !! self = Some w' /\
                (w' = w \/ w' = mark_closed w) /\
                (r = Ok tt -> closed w' = true)).
Proof.
  induction fuel as [|fuel IH]; intros self h r h' Hpar Hclose.
  { injection Hclose as <- <-. split; [auto|]. intros w Hw. exists w.
    repeat split; auto. discriminate. }
  rewrite close_fuel_S in Hclose.
  destruct (wrappers h !! self) as [w|] eqn:Hw.
  2:{ injection Hclose as <- <-. split; [auto|]. intros w [=]. }
  destruct (closed w) eqn:Hopen.
  { injection Hclose as <- <-. split; [auto|]. intros w0 [= <-]. eauto. }
  destruct (debug_unclosed_streams h && negb (bool_decide (self ∈ session_streams h))).
  { injection Hclose as <- <-. split; [auto|]. intros w0 [= <-]. exists w.
    repeat split; auto. discriminate. }
  destruct (parent_stream w) as [p|] eqn:Hp; cbn zeta in Hclose.
  - assert (p < self) as Hlt by (eapply Hpar; eassumption).
    set (h2 := upd p (add_child (-1)) (unregister self h)) in *.
    assert (forall j, p < j -> wrappers h2 !! j = wrappers h !! j) as H2.
    { intros j Hj. unfold h2. rewrite lookup_upd_ne by lia.
      now rewrite wrappers_unregister. }
    assert (parents_before h2) as Hpar2.
    { apply parents_before_upd; [easy|]. now apply parents_before_unregister. }
    assert (exists (r3 : result unit) h3,
               (forall j, p < j -> wrappers h3 !! j = wrappers h !! j) /\
               match r3 with
               | Ok _ => r = Ok tt /\ h' = upd self mark_closed h3
               | Raise e => r = Raise e /\ h' = h3
               end) as (r3 & h3 & H3 & Hres).
    { destruct (wrappers h2 !! p) as [pw|].
      - destruct ((child_counter pw =? 0)%Z && close_on_last_child pw).
        + destruct (close_fuel fuel p h2) as [r3 h3] eqn:Hrec.
          destruct (IH p h2 r3 h3 Hpar2 Hrec) as [Hframe _].
          exists r3, h3. split.
          * intros j Hj. rewrite Hframe by lia. now apply H2.
          * destruct r3; injection Hclose as <- <-; auto.
        + exists (Ok tt), h2. split; [exact H2|]. now injection Hclose as <- <-.
      - exists (Raise AttributeError), h2. split; [exact H2|].
        now injection Hclose as <- <-. }
    destruct r3 as [u|e]; destruct Hres as [-> ->].
    + split.
      * intros j Hj. rewrite lookup_upd_ne by lia. apply H3. lia.
      * intros w0 [= <-]. exists (mark_closed w).
        rewrite lookup_upd_eq, H3, Hw by lia. auto.
    + split.
      * intros j Hj. apply H3. lia.
      * intros w0 [= <-]. exists w. rewrite H3, Hw by lia.
        repeat split; auto. discriminate.
  - injection Hclose as <- <-. split.
    + intros j Hj. rewrite lookup_upd_ne by lia. now rewrite wrappers_unregister.
    + intros w0 [= <-]. exists (mark_closed w).
      rewrite lookup_upd_eq, wrappers_unregister, Hw. auto.
Qed.

Lemma counter_at_close_one self h w p :
  wrappers h !! self = Some w -> parent_stream w = Some p -> p < self ->
  counter_at (close_one self h) p = (counter_at h p - 1)%Z /\
  closed_at (close_one self h) p = closed_at h p /\
  autoclose_at (close_one self h) p = autoclose_at h p /\
  closed_at (close_one self h) self = true.
Proof.
  intros Hw Hp Hlt. unfold counter_at, closed_at, autoclose_at.
  rewrite (wrappers_close_one self h w Hw), Hp.
  rewrite list_lookup_alter_ne, !list_lookup_alter_eq by lia.
  rewrite list_lookup_alter_ne, Hw by lia.
  pose proof (lookup_lt_Some _ _ _ Hw) as Hlen.
  destruct (lookup_lt_is_Some_2 (wrappers h) p ltac:(lia)) as [pw Hpw].
  rewrite Hpw. simpl. repeat split; lia.
Qed.

(** On a heap that satisfies the invariant, [close] of an open wrapper
    with a parent takes one from the parent's counter, and closes the
    parent exactly when the counter reaches zero and the parent closes
    with its last child. *)
Lemma close_fuel_child fuel self h w p :
  good h -> self < fuel ->
  wrappers h !! self = Some w -> closed w = false -> parent_stream w = Some p ->
  exists h',
    close_fuel fuel self h = (Ok tt, h') /\
    counter_at h' p = (counter_at h p - 1)%Z /\
    closed_at h' p =
      closed_at h p || ((counter_at h p - 1 =? 0)%Z && autoclose_at h p).
Proof.
  intros Hg Hf Hw Hopen Hp. destruct fuel as [|fuel]; [lia|].
  assert (p < self) as Hlt by (eapply (good_parents _ Hg); eassumption).
  pose proof (lookup_lt_Some _ _ _ Hw) as Hlen.
  destruct (lookup_lt_is_Some_2 (wrappers h) p ltac:(lia)) as [pw Hpw].
  pose proof (close_fuel_open fuel self h w (good_parents _ Hg) Hw Hopen
                (fun Hd => good_registered _ Hg Hd self w Hw Hopen)) as Hstep.
  rewrite Hp in Hstep. specialize (Hstep pw Hpw).
  destruct (counter_at_close_one self h w p Hw Hp Hlt) as (Hc1 & Hcl1 & Ha1 & _).
  pose proof (good_close_one self h w Hg Hw Hopen) as Hg1.
  assert (counter_at h p = child_counter pw /\ autoclose_at h p = close_on_last_child pw)
    as [Ec Ea].
  { unfold counter_at, autoclose_at. now rewrite Hpw. }
  rewrite Ec, Ea. destruct ((child_counter pw - 1 =? 0)%Z && close_on_last_child pw).
  - destruct (close_fuel_good p fuel (close_one self h) Hg1 ltac:(lia)
                ltac:(rewrite length_close_one; lia)) as (h' & Hh' & _ & _).
    exists h'. split; [now apply Hstep|].
    destruct (close_fuel_frame fuel p _ _ _ (good_parents _ Hg1) Hh') as [_ Hself].
    destruct (lookup_lt_is_Some_2 (wrappers (close_one self h)) p
                ltac:(rewrite length_close_one; lia)) as [pw1 Hpw1].
    destruct (Hself pw1 Hpw1) as (pw' & Hpw' & Hsame & Hcl).
    assert (child_counter pw' = child_counter pw1) as Hcnt
      by (destruct Hsame as [->| ->]; reflexivity).
    rewrite <- Ec, <- Hc1. unfold counter_at, closed_at. rewrite Hpw', Hpw1.
    split; [assumption|]. rewrite Hcl by reflexivity. now rewrite orb_true_r.
  - exists (close_one self h). split; [assumption|].
    rewrite Hc1, Hcl1, Ec. split; [reflexivity|]. now rewrite orb_false_r.
Qed.

(** *** The reference-count invariant *)

Definition parent_at (h : heap) (i : nat) : option nat :=
  match wrappers h !! i with Some w => parent_stream w | None => None end.

(** What the specification asks of a heap of stream wrappers. *)
Record reference_counts (h : heap) : Prop := mkReferenceCounts {
  (** the counter of a wrapper is the number of its open children *)
  rc_counter : forall p w,
    wrappers h !! p = Some w -> child_counter w = Z.of_nat (open_children h p);
  (** constructing a child adds one to the counter of its parent *)
  rc_construct : forall file p nm,
    p < length (wrappers h) ->
    exists h', __init__ file (Some p) nm h = (Ok (length (wrappers h)), h') /\
               counter_at h' p = (counter_at h p + 1)%Z;
  (** [close] returns, leaves the wrapper closed, and a second [close]
      changes nothing; the first [close] of a child takes one from the
      counter of its parent, and an open parent is closed by it exactly
      when it closes with its last child and its counter reaches zero *)
  rc_close : forall self,
    self < length (wrappers h) ->
    exists h', close self h = (Ok tt, h') /\
               closed_at h' self = true /\
               close self h' = (Ok tt, h') /\
               (closed_at h self = true -> h' = h) /\
               (forall p, closed_at h self = false -> parent_at h self = Some p ->
                  counter_at h' p = (counter_at h p - 1)%Z /\
                  (closed_at h p = false ->
                   (closed_at h' p = true <->
                    autoclose_at h p = true /\ counter_at h' p = 0%Z)))
}.

Lemma close_closed self h w :
  wrappers h !! self = Some w -> closed w = true -> close self h = (Ok tt, h).
Proof.
  intros Hw Hcl. unfold close.
  pose proof (lookup_lt_Some _ _ _ Hw) as Hlen.
  destruct (length (wrappers h)) as [|n]; [lia|].
  now rewrite close_fuel_S, Hw, Hcl.
Qed.

(** C9: in every heap reached from the empty one by constructions,
    [close], [autoclose] and [read] calls, each wrapper's child counter is
    the number of wrappers constructed with it as parent and not yet
    closed; constructing a child adds one to its parent's counter; [close]
    is idempotent; the first [close] of a child takes one from its parent's
    counter, and a parent that was open is closed by that call exactly when
    its autoclose flag is set and its counter reaches zero. *)
Theorem stream_reference_counts h : reachable h -> reference_counts h.
Proof.
  intros Hreach. pose proof (reachable_good h Hreach) as Hg. split.
  - exact (good_counters _ Hg).
  - intros file p nm Hp. destruct (lookup_lt_is_Some_2 _ _ Hp) as [pw Hpw].
    exists (snd (__init__ file (Some p) nm h)). split.
    { unfold __init__. now rewrite Hpw. }
    rewrite init_heap, Hpw. unfold counter_at. rewrite wrappers_register. simpl.
    rewrite lookup_app_l by (rewrite length_alter; lia).
    now rewrite list_lookup_alter_eq, Hpw.
  - intros self Hself. destruct (lookup_lt_is_Some_2 _ _ Hself) as [w Hw].
    destruct (closed w) eqn:Hopen.
    { exists h. pose proof (close_closed self h w Hw Hopen) as Hc.
      unfold closed_at, parent_at. rewrite Hw, Hopen.
      repeat split; auto; discriminate. }
    destruct (close_fuel_good self _ h Hg Hself Hself) as (h' & Hh' & Hg' & Hl').
    destruct (close_fuel_frame _ _ _ _ _ (good_parents _ Hg) Hh') as [_ Hfr].
    destruct (Hfr w Hw) as (w' & Hw' & _ & Hcl'). specialize (Hcl' eq_refl).
    exists h'. split; [exact Hh'|]. unfold closed_at at 1. rewrite Hw', Hcl'.
    split; [reflexivity|]. split; [exact (close_closed self h' w' Hw' Hcl')|].
    split; [unfold closed_at; rewrite Hw, Hopen; discriminate|].
    intros p _ Hp. unfold parent_at in Hp. rewrite Hw in Hp.
    destruct (close_fuel_child _ self h w p Hg Hself Hw Hopen Hp)
      as (h'' & Hh'' & Hcnt & Hcl).
    unfold close in Hh'. rewrite Hh' in Hh''. injection Hh'' as <-.
    split; [exact Hcnt|]. intros Hpopen. rewrite Hcl, Hpopen, Hcnt. simpl.
    rewrite andb_true_iff, Z.eqb_eq. tauto.
Qed.

Definition sample_file : File :=
  {| f_data := [x68; x69]; f_pos := 0; f_closed := false |}.

(** A shard stream with two member streams, marked to close with its
    last child. *)
Definition sample_heap : heap :=
  exec (Autoclose 0)
    (exec (New sample_file (Some 0) None)
       (exec (New sample_file (Some 0) None)
          (exec (New sample_file None None) (empty_heap false)))).

Lemma stream_reference_counts_witness :
  reachable sample_heap /\ reference_counts sample_heap.
Proof.
  assert (reachable sample_heap) as H by (repeat constructor).
  split; [exact H|]. exact (stream_reference_counts sample_heap H).
Defined.

(** On [sample_heap]: closing one member leaves the shard open, closing
    the other closes it. *)
Example last_child_closes_shard :
  let h1 := snd (close 1 sample_heap) in
  let h2 := snd (close 2 h1) in
  (closed_at h1 0, counter_at h1 0, closed_at h2 0, counter_at h2 0)
  = (false, 1%Z, true, 0%Z).
Proof. reflexivity. Qed.

End UtilsFacts.

(** ** The nested traversal *)

Module FeaturesFacts.
Import Features PyFacts.

Definition is_mapping (schema : FeatureType) : bool :=
  match schema with
  | Dict _ => true
  | _ => false
  end.

(** C6, as amended: for every [Sequence] schema whose feature is not a
    mapping, [encode_nested_example] applied to a string raises
    [ValueError] (the source raises [ValueError], not [TypeError]): a
    string is never taken for a list of elements. *)
Theorem string_for_sequence_raises_ValueError `{Runtime} feature len s level :
  is_mapping feature = false ->
  encode_nested_example (Sequence feature len) (VStr s) level = Raise ValueError.
Proof. destruct feature; simpl; intros Hm; try reflexivity. discriminate. Qed.

Lemma string_for_sequence_raises_ValueError_witness :
  is_mapping Text = false /\
  @encode_nested_example Sample.runtime (Sequence Text (-1)) (VStr "abc") 0
  = Raise ValueError.
Proof.
  split; [reflexivity|].
  apply (@string_for_sequence_raises_ValueError Sample.runtime Text (-1) "abc" 0).
  reflexivity.
Defined.

(** C6 as stated fails: the exception is not a [TypeError]. *)
Lemma string_for_sequence_counterexample :
  is_mapping Text = false /\
  @encode_nested_example Sample.runtime (Sequence Text (-1)) (VStr "abc") 0
  <> Raise TypeError.
Proof. split; [reflexivity|]. discriminate. Qed.

(** *** The struct-of-lists transform *)

(** [o] has exactly the keys of the schema. *)
Definition same_keys {V W} (fields : list (string * V)) (o : list (string * W)) : Prop :=
  forall k, dict_get o k = None <-> dict_get fields k = None.

Lemma getitem_field {V W} (fields : list (string * V)) (o : list (string * W)) k S :
  same_keys fields o -> In (k, S) fields -> exists v, dict_get o k = Some v.
Proof.
  intros Hk Hin. destruct (dict_get o k) as [v|] eqn:E; [eauto|].
  apply Hk, dict_get_None_keys in E. exfalso. apply E.
  apply in_map_iff. now exists (k, S).
Qed.

Lemma no_extra_keys_same {V} (fields : list (string * V)) objs :
  Forall (same_keys fields) objs -> no_extra_keys fields objs = Ok tt.
Proof.
  intros Hall. unfold no_extra_keys.
  assert (extra_keys fields objs = []) as ->; [|reflexivity].
  unfold extra_keys. induction Hall as [|o objs Ho _ IH]; [reflexivity|].
  simpl. rewrite List.filter_app, IH, app_nil_r.
  clear IH. assert (forall k, In k (keys o) -> dict_get fields k <> None) as Hin.
  { intros k Hk Hnone. apply Ho, dict_get_None_keys in Hnone. contradiction. }
  induction (keys o) as [|k ks IHk]; [reflexivity|]. simpl.
  destruct (dict_get fields k) eqn:E.
  - apply IHk. intros k' Hk'. apply Hin. now right.
  - exfalso. apply (Hin k); [now left|assumption].
Qed.

(** The entries of an encoded or decoded struct of lists: field by field,
    the name of the field with the list [col] that [column] describes. *)
Definition struct_of_lists {V} (column : string * V -> list Py.value -> Prop)
    (fields : list (string * V)) (d : list (string * Py.value)) : Prop :=
  Forall2 (fun f c => fst c = fst f /\ exists col, snd c = VList col /\ column f col)
    fields d.

Section StructOfLists.
Context `{Runtime}.

Lemma mapM_Forall2 {A B} (f : A -> result B) xs :
  (forall x, In x xs -> exists y, f x = Ok y) ->
  exists ys, mapM f xs = Ok ys /\ Forall2 (fun x y => f x = Ok y) xs ys.
Proof.
  induction xs as [|x xs IH]; intros Hall; simpl.
  - exists []. split; [reflexivity|constructor].
  - destruct (Hall x (or_introl eq_refl)) as [y Hy].
    destruct IH as (ys & Hys & Hall2); [intros; apply Hall; now right|].
    exists (y :: ys). rewrite Hy, Hys. split; [reflexivity|now constructor].
Qed.

Lemma mapM_compose {A B C} (g : A -> result B) (f : B -> result C) xs col :
  mapM (fun x => bind (g x) f) xs = Ok col ->
  bind (mapM g xs) (mapM f) = Ok col.
Proof.
  revert col. induction xs as [|x xs IH]; simpl; intros col Hcol; [exact Hcol|].
  apply bind_Ok in Hcol as (e & He & Hcol).
  apply bind_Ok in He as (v & Hv & He).
  apply bind_Ok in Hcol as (es & Hes & [= <-]).
  specialize (IH es Hes). apply bind_Ok in IH as (vs & Hvs & Hfs).
  rewrite Hv. simpl. rewrite Hvs. simpl. rewrite He. simpl. now rewrite Hfs.
Qed.

Lemma encode_columns_struct_of_lists rec fields structs :
  (forall k S o, In (k, S) fields -> In o structs ->
     exists v e, dict_get o k = Some v /\ rec S v = Ok e) ->
  exists d,
    encode_columns rec fields structs = Ok d /\
    struct_of_lists
      (fun f col => Forall2 (fun o e => exists v, dict_get o (fst f) = Some v /\
                                                   rec (snd f) v = Ok e) structs col)
      fields d.
Proof.
  induction fields as [|[k S] fields IH]; intros Hall; simpl.
  - exists []. split; [reflexivity|constructor].
  - destruct (mapM_Forall2 (fun o => bind (getitem o k) (rec S)) structs)
      as (col & Hcol & Hcol2).
    { intros o Ho. destruct (Hall k S o (or_introl eq_refl) Ho) as (v & e & Hv & He).
      exists e. unfold getitem. now rewrite Hv. }
    destruct IH as (d & Hd & Hd2); [intros; eapply Hall; eauto; now right|].
    exists ((k, VList col) :: d). split.
    + pose proof (mapM_compose _ _ _ _ Hcol) as Hsplit.
      apply bind_Ok in Hsplit as (vs & Hvs & Hes).
      rewrite Hvs. simpl. rewrite Hes. simpl. now rewrite Hd.
    + constructor; [|exact Hd2]. simpl. split; [reflexivity|].
      exists col. split; [reflexivity|].
      clear -Hcol2. induction Hcol2 as [|o e structs col Ho _ IHc]; constructor; auto.
      unfold getitem in Ho. destruct (dict_get o k) as [v|]; [|discriminate]. eauto.
Qed.

Lemma encode_lists_struct_of_lists rec fields items :
  (forall k S, In (k, S) fields ->
     exists xs, dict_get items k = Some (VList xs) /\
                forall x, In x xs -> exists e, rec S x = Ok e) ->
  exists d,
    encode_lists rec fields items = Ok d /\
    struct_of_lists
      (fun f col => exists xs, dict_get items (fst f) = Some (VList xs) /\
                               Forall2 (fun x e => rec (snd f) x = Ok e) xs col)
      fields d.
Proof.
  induction fields as [|[k S] fields IH]; intros Hall; simpl.
  - exists []. split; [reflexivity|constructor].
  - destruct (Hall k S (or_introl eq_refl)) as (xs & Hxs & Hok).
    destruct (mapM_Forall2 (rec S) xs Hok) as (col & Hcol & Hcol2).
    destruct IH as (d & Hd & Hd2); [intros; eapply Hall; now right|].
    exists ((k, VList col) :: d). split.
    + unfold getitem. rewrite Hxs. simpl. now rewrite Hcol, Hd.
    + constructor; [|exact Hd2]. simpl. split; [reflexivity|]. eauto.
Qed.

Lemma mapMM_Forall2 {A B} (f : A -> M B) xs :
  (forall x h, In x xs -> exists y h', f x h = (Ok y, h')) ->
  forall h, exists ys h',
    mapMM f xs h = (Ok ys, h') /\
    Forall2 (fun x y => exists h1 h2, f x h1 = (Ok y, h2)) xs ys.
Proof.
  induction xs as [|x xs IH]; intros Hall h; simpl.
  - exists [], h. split; [reflexivity|constructor].
  - destruct (Hall x h (or_introl eq_refl)) as (y & h1 & Hy).
    destruct (IH (fun x h Hx => Hall x h (or_intror Hx)) h1) as (ys & h2 & Hys & Hall2).
    exists (y :: ys), h2. unfold bindM, ret. rewrite Hy, Hys.
    split; [reflexivity|]. constructor; eauto.
Qed.

Lemma decode_columns_struct_of_lists rec fields items :
  (forall k S, In (k, S) fields ->
     exists xs, dict_get items k = Some (VList xs) /\
                forall x h, In x xs -> exists y h', rec S x h = (Ok y, h')) ->
  forall h, exists d h',
    decode_columns rec fields (VDict items) h = (Ok d, h') /\
    struct_of_lists
      (fun f col => exists xs, dict_get items (fst f) = Some (VList xs) /\
                               Forall2 (fun x y => exists h1 h2,
                                                     rec (snd f) x h1 = (Ok y, h2))
                                 xs col)
      fields d.
Proof.
  induction fields as [|[k S] fields IH]; intros Hall h; simpl.
  - exists [], h. split; [reflexivity|constructor].
  - destruct (Hall k S (or_introl eq_refl)) as (xs & Hxs & Hok).
    destruct (mapMM_Forall2 (rec S) xs Hok h) as (col & h1 & Hcol & Hcol2).
    destruct (IH (fun k S Hin => Hall k S (or_intror Hin)) h1) as (d & h2 & Hd & Hd2).
    exists ((k, VList col) :: d), h2. split.
    + unfold bindM, lift, ret, getitem, decode_elements. simpl. rewrite Hxs.
      unfold bindM, lift, ret. simpl. now rewrite Hcol, Hd.
    + constructor; [|exact Hd2]. simpl. split; [reflexivity|]. eauto.
Qed.

End StructOfLists.

Lemma mapM_as_dict structs : mapM as_dict (map VDict structs) = Ok structs.
Proof. induction structs as [|o structs IH]; simpl; [reflexivity|]. now rewrite IH. Qed.

(** C2: for a [Sequence] whose feature is a mapping of fields,
    - [encode_nested_example] of a list of structs that have exactly the
      fields of the schema returns the struct of lists: for each field, in
      the order of the schema, the list of the encodings of that field's
      value in each struct;
    - [encode_nested_example] of one struct whose values are lists returns
      that struct with every element of every list encoded;
    - [decode_nested_example] of a struct of lists returns a struct of
      lists again, every element decoded: a dictionary, never a list of
      structs.
    The encodings and decodings of the elements are assumed to succeed. *)
Theorem sequence_of_struct_is_struct_of_lists `{Runtime} fields len level :
  (forall structs,
     Forall (same_keys fields) structs ->
     (forall k S o v, In (k, S) fields -> In o structs -> dict_get o k = Some v ->
        exists e, encode_nested_example S v (Datatypes.S level) = Ok e) ->
     exists d,
       encode_nested_example (Sequence (Dict fields) len)
         (VList (map VDict structs)) level = Ok (VDict d) /\
       struct_of_lists
         (fun f col =>
            Forall2 (fun o e => exists v,
                       dict_get o (fst f) = Some v /\
                       encode_nested_example (snd f) v (Datatypes.S level) = Ok e)
              structs col)
         fields d) /\
  (forall items,
     same_keys fields items ->
     (forall k S, In (k, S) fields ->
        exists xs, dict_get items k = Some (VList xs) /\
                   forall x, In x xs ->
                     exists e, encode_nested_example S x (Datatypes.S level) = Ok e) ->
     exists d,
       encode_nested_example (Sequence (Dict fields) len) (VDict items) level
       = Ok (VDict d) /\
       struct_of_lists
         (fun f col => exists xs,
            dict_get items (fst f) = Some (VList xs) /\
            Forall2 (fun x e => encode_nested_example (snd f) x (Datatypes.S level) = Ok e)
              xs col)
         fields d) /\
  (forall items h,
     (forall k S, In (k, S) fields ->
        exists xs, dict_get items k = Some (VList xs) /\
                   forall x h, In x xs ->
                     exists y h', decode_nested_example S x h = (Ok y, h')) ->
     exists d h',
       decode_nested_example (Sequence (Dict fields) len) (VDict items) h
       = (Ok (VDict d), h') /\
       struct_of_lists
         (fun f col => exists xs,
            dict_get items (fst f) = Some (VList xs) /\
            Forall2 (fun x y => exists h1 h2,
                       decode_nested_example (snd f) x h1 = (Ok y, h2)) xs col)
         fields d).
Proof.
  split; [|split].
  - intros structs Hkeys Henc.
    destruct (encode_columns_struct_of_lists
                (fun s o => encode_nested_example s o (Datatypes.S level)) fields structs)
      as (d & Hd & Hd2).
    { intros k S o Hin Ho.
      destruct (getitem_field fields o k S) as [v Hv]; [|assumption|].
      - rewrite Forall_forall in Hkeys. apply Hkeys. now apply list_elem_of_In.
      - destruct (Henc k S o v Hin Ho Hv) as [e He]. eauto. }
    exists d. split; [|exact Hd2].
    cbn [encode_nested_example]. rewrite mapM_as_dict. cbn [bind].
    rewrite Hd. cbn [bind]. now rewrite no_extra_keys_same.
  - intros items Hkeys Henc.
    destruct (encode_lists_struct_of_lists
                (fun s o => encode_nested_example s o (Datatypes.S level)) fields items Henc)
      as (d & Hd & Hd2).
    exists d. split; [|exact Hd2].
    cbn [encode_nested_example as_dict bind]. rewrite Hd. cbn [bind].
    rewrite no_extra_keys_same; [reflexivity|]. now constructor.
  - intros items h Hdec.
    destruct (decode_columns_struct_of_lists decode_nested_example fields items Hdec h)
      as (d & h' & Hd & Hd2).
    exists d, h'. split; [|exact Hd2].
    cbn [decode_nested_example]. unfold bindM, ret. now rewrite Hd.
Qed.

(** The schema and the posts of a reader's timeline. *)
Definition post_fields : list (string * FeatureType) :=
  [("text", Text); ("upvotes", Scalar "uint8")].

Definition posts : list (list (string * Py.value)) :=
  [[("text", VStr "x"); ("upvotes", VInt 1)];
   [("upvotes", VInt 2); ("text", VStr "y")]].

Example posts_encoded :
  @encode_nested_example Sample.runtime (Sequence (Dict post_fields) (-1))
    (VList (map VDict posts)) 1
  = Ok (VDict [("text", VList [VBytes [x78]; VBytes [x79]]);
               ("upvotes", VList [VBytes [x01]; VBytes [x02]])]).
Proof. reflexivity. Qed.

Example posts_decoded h :
  @decode_nested_example Sample.runtime (Sequence (Dict post_fields) (-1))
    (VDict [("text", VList [VBytes [x78]; VBytes [x79]]);
            ("upvotes", VList [VBytes [x01]; VBytes [x02]])]) h
  = (Ok (VDict [("text", VList [VStr "x"; VStr "y"]);
                ("upvotes",
                 VList [VArray {| a_dtype := "uint8"; a_shape := []; a_data := [x01] |};
                        VArray {| a_dtype := "uint8"; a_shape := []; a_data := [x02] |}])]),
     h).
Proof. reflexivity. Qed.

Lemma sequence_of_struct_is_struct_of_lists_witness :
  exists d,
    @encode_nested_example Sample.runtime (Sequence (Dict post_fields) (-1))
      (VList (map VDict posts)) 1 = Ok (VDict d) /\
    struct_of_lists
      (fun f col =>
         Forall2 (fun o e => exists v,
                    dict_get o (fst f) = Some v /\
                    @encode_nested_example Sample.runtime (snd f) v 2 = Ok e)
           posts col)
      post_fields d.
Proof.
  apply (proj1 (@sequence_of_struct_is_struct_of_lists Sample.runtime
                  post_fields (-1) 1) posts).
  - apply Forall_forall. intros o Ho%list_elem_of_In.
    destruct Ho as [<-|[<-|[]]]; intros k; unfold post_fields; cbn [dict_get];
      destruct (String.eqb "text" k), (String.eqb "upvotes" k); split; congruence.
  - intros k S o v [[= <- <-]|[[= <- <-]|[]]] [<-|[<-|[]]] [= <-];
      eexists; reflexivity.
Defined.

End FeaturesFacts.

(** ** The leaf codecs *)

Module CodecFacts.
Import Utils UtilsFacts Features PyFacts.

(** What [read()] returns on a wrapper: the bytes from its position on. *)
Definition remaining (w : StreamWrapper) : bytes :=
  skipn (f_pos (file_obj w)) (f_data (file_obj w)).

Definition fully_read (w : StreamWrapper) : Prop :=
  f_pos (file_obj w) = length (f_data (file_obj w)).

(** The decoders that take the content of a stream wrapper at once. *)
Definition reads_at_once (schema : FeatureType) : bool :=
  match schema with
  | Text | Json | Tensor _ _ | Scalar _ => true
  | _ => false
  end.

Definition null_when_empty (schema : FeatureType) : bool :=
  match schema with
  | Text | Tensor _ _ | Scalar _ => true
  | _ => false
  end.

Lemma read_and_close_good h fobj w :
  good h -> wrappers h !! fobj = Some w -> f_closed (file_obj w) = false ->
  exists h' w',
    read_and_close fobj h = (Ok (remaining w), h') /\
    good h' /\
    wrappers h' !! fobj = Some w' /\ closed w' = true /\ fully_read w'.
Proof.
  intros Hg Hw Hopen. unfold read_and_close, bindM, read. rewrite Hw, Hopen.
  set (f1 := {| f_data := f_data (file_obj w);
                f_pos := length (f_data (file_obj w)); f_closed := false |}).
  set (w1 := set_file f1 w). set (h1 := upd fobj (set_file f1) h).
  assert (good h1) as Hg1 by now apply good_upd_attr.
  assert (wrappers h1 !! fobj = Some w1) as Hw1.
  { unfold h1. now rewrite lookup_upd_eq, Hw. }
  pose proof (lookup_lt_Some _ _ _ Hw1) as Hlen.
  destruct (close_fuel_good fobj _ h1 Hg1 Hlen Hlen) as (h' & Hh' & Hg' & _).
  destruct (close_fuel_frame _ _ _ _ _ (good_parents _ Hg1) Hh') as [_ Hfr].
  destruct (Hfr w1 Hw1) as (w' & Hw' & Hsame & Hcl).
  specialize (Hcl eq_refl).
  exists h', w'. unfold Utils.close. split.
  { rewrite Hh'. reflexivity. }
  split; [exact Hg'|]. split; [exact Hw'|]. split; [exact Hcl|].
  unfold fully_read. destruct Hsame as [E|E]; subst w'; reflexivity.
Qed.

Section Decoders.
Context `{Runtime}.

(** The claim as the specification states it, for one feature class. *)
Definition null_on_empty_stream (schema : FeatureType) : Prop :=
  forall h fobj w,
    reachable h -> wrappers h !! fobj = Some w ->
    f_closed (file_obj w) = false -> remaining w = [] ->
    exists h', decode_example schema (VStream fobj) h = (Ok VNone, h') /\
               closed_at h' fobj = true.

(** C4, as amended: [Text], [Json], [Tensor] and [Scalar] decode a stream
    wrapper by reading it to the end and closing it, and for [Text],
    [Tensor] and [Scalar] a read of zero bytes gives [None]; [Audio]
    neither reads nor closes the wrapper and returns a decoder bound to
    it. *)
Theorem decode_of_stream_wrapper :
  (forall schema h fobj w,
     reads_at_once schema = true ->
     reachable h -> wrappers h !! fobj = Some w ->
     f_closed (file_obj w) = false ->
     exists r h' w',
       decode_example schema (VStream fobj) h = (r, h') /\
       wrappers h' !! fobj = Some w' /\ closed w' = true /\ fully_read w' /\
       (remaining w = [] -> null_when_empty schema = true -> r = Ok VNone)) /\
  (forall shape dtype sample_rate h fobj,
     decode_example (Audio shape dtype sample_rate) (VStream fobj) h =
     (Ok (VAudioDecoder (VStream fobj) dtype shape sample_rate), h)).
Proof.
  split; [|reflexivity].
  intros schema h fobj w Hs Hreach Hw Hopen.
  destruct (read_and_close_good h fobj w (reachable_good h Hreach) Hw Hopen)
    as (h' & w' & Hrc & _ & Hw' & Hcl & Hfull).
  destruct schema; try discriminate; cbn [decode_example].
  - unfold Tensor.decode_example, bindM. rewrite Hrc.
    destruct (remaining w) as [|b bs] eqn:Hrem.
    + exists (Ok VNone), h', w'. repeat split; auto.
    + eexists _, h', w'. split.
      * unfold Tensor.decode_bytes, lift. reflexivity.
      * repeat split; auto. discriminate.
  - unfold Tensor.decode_example, bindM. rewrite Hrc.
    destruct (remaining w) as [|b bs] eqn:Hrem.
    + exists (Ok VNone), h', w'. repeat split; auto.
    + eexists _, h', w'. split.
      * unfold Tensor.decode_bytes, lift. reflexivity.
      * repeat split; auto. discriminate.
  - unfold Text.decode_example, bindM. rewrite Hrc.
    destruct (remaining w) as [|b bs] eqn:Hrem.
    + exists (Ok VNone), h', w'. repeat split; auto.
    + eexists _, h', w'. split.
      * unfold Text.decode_bytes, lift. reflexivity.
      * repeat split; auto. discriminate.
  - unfold Json.decode_example, Text.decode_example, bindM. rewrite Hrc.
    destruct (remaining w) as [|b bs] eqn:Hrem.
    + eexists _, h', w'. split; [reflexivity|]. repeat split; auto. discriminate.
    + unfold Text.decode_bytes, lift.
      destruct (utf8_decode (b :: bs)) as [s|e]; simpl.
      * eexists _, h', w'. split; [reflexivity|]. repeat split; auto. discriminate.
      * eexists _, h', w'. split; [reflexivity|]. repeat split; auto. discriminate.
Qed.

End Decoders.

(** One shard stream with one member stream that has no content. *)
Definition empty_member_heap : heap :=
  exec (New {| f_data := []; f_pos := 0; f_closed := false |} (Some 0) None)
    (exec (New {| f_data := []; f_pos := 0; f_closed := false |} None None)
       (empty_heap false)).

Lemma reachable_empty_member_heap : reachable empty_member_heap.
Proof. repeat constructor. Qed.

Lemma decode_of_stream_wrapper_witness :
  exists r h' w',
    @decode_example Sample.runtime Text (VStream 1) empty_member_heap = (r, h') /\
    wrappers h' !! 1 = Some w' /\ closed w' = true /\ fully_read w' /\
    (remaining (mkStreamWrapper {| f_data := []; f_pos := 0; f_closed := false |}
                  0 (Some 0) false None false) = [] ->
     null_when_empty Text = true -> r = Ok VNone).
Proof.
  apply (proj1 (@decode_of_stream_wrapper Sample.runtime) Text empty_member_heap 1).
  - reflexivity.
  - exact reachable_empty_member_heap.
  - reflexivity.
  - reflexivity.
Defined.

(** C4 as stated fails for [Audio]: on a stream without content it returns
    a decoder, not [None], and leaves the stream open. *)
Lemma null_on_empty_stream_counterexample :
  ~ @null_on_empty_stream Sample.runtime (Audio [None] "float32" None).
Proof.
  intros Hclaim.
  destruct (Hclaim empty_member_heap 1 _ reachable_empty_member_heap
              eq_refl eq_refl eq_refl) as (h' & Hdec & _).
  discriminate Hdec.
Qed.

(** [Json] reads and closes the stream, then hands [None] to
    [json.loads], which raises. *)
Example json_on_empty_stream :
  fst (@decode_example Sample.runtime Json (VStream 1) empty_member_heap)
  = Raise TypeError.
Proof. reflexivity. Qed.

(** *** Round trips *)

(** The values [json] writes and reads back as they are. *)
Fixpoint json_native (v : Py.value) : bool :=
  match v with
  | VNone | VBool _ | VInt _ | VStr _ => true
  | VList xs => forallb json_native xs
  | VDict items => forallb (fun kv => json_native (snd kv)) items
  | _ => false
  end.

(** The buffer of an array holds its elements and nothing else. *)
Definition array_wf `{Runtime} (a : ndarray) : Prop :=
  length (a_data a) = np_itemsize (a_dtype a) * Np.prod (a_shape a).

(** What the round trips assume of the codecs, of [json] and of [numpy]. *)
Class RuntimeLaws `{Runtime} : Prop := {
  utf8_decode_encode : forall s b, utf8_encode s = Ok b -> utf8_decode b = Ok s;
  json_loads_dumps : forall v s,
    json_native v = true -> json_dumps v = Ok s -> json_loads s = Ok v;
  np_itemsize_pos : forall s d, np_dtype s = Some d -> 0 < np_itemsize d;
  np_asarray_wf : forall v s a, np_asarray v s = Ok a -> array_wf a
}.

Definition unknown_dims (shape : list (option Z)) : nat :=
  length (List.filter (fun o => match o with None => true | Some _ => false end) shape).

Fixpoint known_of (shape : list (option Z)) : list nat :=
  match shape with
  | [] => []
  | Some d :: rest => Z.to_nat d :: known_of rest
  | None :: rest => known_of rest
  end.

Definition known_size (shape : list (option Z)) : nat := Np.prod (known_of shape).

(** Declared shapes from which [reshape] can infer the shape of the data:
    no unknown dimension, or one and no known dimension of size zero. *)
Definition decodable (shape : list (option Z)) : bool :=
  match unknown_dims shape with
  | 0 => true
  | 1 => negb (known_size shape =? 0)
  | _ => false
  end.

Definition matches (n : nat) (o : option Z) : Prop :=
  match o with
  | None => True
  | Some d => d = Z.of_nat n
  end.

Lemma new_TensorShape_of_nat shape1 :
  Shape.new_TensorShape (map (fun n => Some (Z.of_nat n)) shape1)
  = Ok (Shape.mkTensorShape
          (Some (map (fun n => Shape.mkDimension (Some (Z.of_nat n))) shape1))).
Proof.
  unfold Shape.new_TensorShape.
  assert (mapM Shape.new_Dimension (map (fun n => Some (Z.of_nat n)) shape1)
          = Ok (map (fun n => Shape.mkDimension (Some (Z.of_nat n))) shape1)) as ->;
    [|reflexivity].
  induction shape1 as [|n l IH]; simpl; [reflexivity|].
  destruct (Z.ltb_spec (Z.of_nat n) 0); [lia|]. simpl. now rewrite IH.
Qed.

Lemma new_Dimension_Ok o d :
  Shape.new_Dimension o = Ok d -> d = Shape.mkDimension o /\
  match o with Some z => (0 <= z)%Z | None => True end.
Proof.
  destruct o as [z|]; simpl.
  - destruct (Z.ltb_spec z 0); [discriminate|]. intros [= <-]. auto.
  - intros [= <-]. auto.
Qed.

Lemma zip_compatible_matches shape1 : forall shape2 ds,
  mapM Shape.new_Dimension shape2 = Ok ds ->
  length shape1 = length ds ->
  Shape.zip_compatible
    (map (fun n => Shape.mkDimension (Some (Z.of_nat n))) shape1) ds = true ->
  Forall2 matches shape1 shape2.
Proof.
  induction shape1 as [|n shape1 IH]; intros [|o shape2] ds Hds Hlen Hzip;
    simpl in *.
  - constructor.
  - apply bind_Ok in Hds as (d & _ & Hds). apply bind_Ok in Hds as (ds' & _ & [= <-]).
    discriminate.
  - injection Hds as <-. discriminate.
  - apply bind_Ok in Hds as (d & Hd & Hds).
    apply bind_Ok in Hds as (ds' & Hds' & [= <-]).
    apply new_Dimension_Ok in Hd as [-> Hpos]. simpl in *.
    destruct (negb (Shape.Dimension_is_compatible_with
                      {| Shape.value := Some (Z.of_nat n) |}
                      {| Shape.value := o |})) eqn:Hc; [discriminate|].
    apply negb_false_iff in Hc. constructor.
    + destruct o as [z|]; simpl; [|exact I].
      unfold Shape.Dimension_is_compatible_with in Hc. simpl in Hc.
      apply Z.eqb_eq in Hc. congruence.
    + apply (IH shape2 ds'); auto.
Qed.

Lemma assert_shape_match_matches shape1 shape2 :
  Shape.assert_shape_match shape1 shape2 = Ok tt -> Forall2 matches shape1 shape2.
Proof.
  unfold Shape.assert_shape_match. rewrite new_TensorShape_of_nat. cbn [bind].
  unfold Shape.new_TensorShape.
  destruct (mapM Shape.new_Dimension shape2) as [ds|] eqn:Hds; [|discriminate].
  cbn [bind]. unfold Shape.ndims, Shape.rank, Shape.assert_same_rank,
    Shape.assert_is_compatible_with, Shape.is_compatible_with, Shape.rank.
  cbn [Shape.dims option_map]. rewrite !length_map.
  destruct (Nat.eqb_spec (length shape1) (length ds)) as [Hlen|]; [|discriminate].
  cbn [negb bind].
  destruct (Shape.zip_compatible _ ds) eqn:Hzip; [|discriminate].
  intros _. eapply zip_compatible_matches; eassumption.
Qed.

(** [[-1 if dim is None else dim for dim in self.shape]] *)
Definition pattern_of (shape : list (option Z)) : list Z :=
  map (fun dim => match dim with None => (-1)%Z | Some d => d end) shape.

Definition infer (q : nat) (newshape : list Z) : list nat :=
  map (fun d => if (d =? -1)%Z then q else Z.to_nat d) newshape.

Lemma pattern_of_matches actual declared :
  Forall2 matches actual declared ->
  existsb (fun d => (d <? -1)%Z) (pattern_of declared) = false /\
  length (List.filter (fun d => (d =? -1)%Z) (pattern_of declared))
  = unknown_dims declared /\
  Np.prod (Np.known_dims (pattern_of declared)) = known_size declared.
Proof.
  unfold unknown_dims, known_size, Np.known_dims, Np.prod.
  induction 1 as [|n o actual declared Hm _ IH]; [auto|].
  destruct IH as (IH1 & IH2 & IH3). destruct o as [d|]; simpl in *.
  - subst d. destruct (Z.ltb_spec (Z.of_nat n) (-1)); [lia|].
    destruct (Z.eqb_spec (Z.of_nat n) (-1)); [lia|]. simpl.
    rewrite IH3. auto.
  - auto.
Qed.

Lemma pattern_of_known actual declared :
  Forall2 matches actual declared ->
  unknown_dims declared = 0 ->
  map Z.to_nat (pattern_of declared) = actual /\
  known_size declared = Np.prod actual.
Proof.
  unfold unknown_dims, known_size, Np.prod.
  induction 1 as [|n o actual declared Hm _ IH]; [auto|].
  destruct o as [d|]; simpl in *; [|discriminate].
  intros Hu. destruct (IH Hu) as [IH1 IH2]. subst d.
  rewrite Nat2Z.id, IH1, IH2. auto.
Qed.

Lemma matches_nonneg actual declared d :
  Forall2 matches actual declared -> In (Some d) declared -> (0 <= d)%Z.
Proof.
  induction 1 as [|n o actual declared Hm _ IH]; simpl; [tauto|].
  intros [Hin|Hin]; auto. subst o. simpl in Hm. lia.
Qed.

Lemma pattern_of_one_unknown actual declared :
  Forall2 matches actual declared ->
  unknown_dims declared = 1 ->
  exists u, Np.prod actual = u * known_size declared /\
            infer u (pattern_of declared) = actual.
Proof.
  unfold unknown_dims, known_size, Np.prod.
  induction 1 as [|n o actual declared Hm Hrest IH]; [discriminate|].
  destruct o as [d|]; simpl in *.
  - intros Hu. destruct (IH Hu) as (u & Hprod & Hinf). exists u. subst d.
    destruct (Z.eqb_spec (Z.of_nat n) (-1)); [lia|].
    rewrite Nat2Z.id, Hinf, Hprod. split; [lia|reflexivity].
  - intros [= Hu]. destruct (pattern_of_known _ _ Hrest Hu) as [Hmap Hsize].
    exists n. unfold known_size, Np.prod in Hsize. rewrite Hsize.
    split; [reflexivity|].
    f_equal. rewrite <- Hmap. unfold infer. apply map_ext_in.
    intros z Hz. destruct (Z.eqb_spec z (-1)) as [->|]; [|reflexivity].
    exfalso. clear -Hz Hrest Hu. unfold pattern_of in Hz.
    apply in_map_iff in Hz as (o & Ho & Hin).
    assert (o = None) as ->.
    { destruct o as [d|]; [|reflexivity]. subst d.
      apply (matches_nonneg _ _ _ Hrest) in Hin. lia. }
    unfold unknown_dims in Hu. apply length_zero_iff_nil in Hu.
    assert (In None (List.filter (fun o : option Z =>
                                    match o with None => true | Some _ => false end)
                       declared)) as Hf by (apply filter_In; auto).
    rewrite Hu in Hf. destruct Hf.
Qed.

Section RoundTrip.
Context `{RuntimeLaws}.

(** Decoding the buffer of an array of the declared element type, whose
    shape matches the declared shape, gives the array back. *)
Lemma reshape_frombuffer (a : ndarray) shape dtype :
  array_wf a ->
  np_dtype dtype = Some (a_dtype a) ->
  Forall2 matches (a_shape a) shape ->
  decodable shape = true ->
  bind (Np.frombuffer (a_data a) dtype) (fun a1 => Np.reshape a1 (pattern_of shape))
  = Ok a.
Proof.
  intros Hwf Hdt Hmatch Hdec. unfold Np.frombuffer. rewrite Hdt.
  pose proof (np_itemsize_pos _ _ Hdt) as Hpos. unfold array_wf in Hwf.
  destruct (Nat.eqb_spec (np_itemsize (a_dtype a)) 0); [lia|].
  rewrite Hwf, Nat.mul_comm, Nat.Div0.mod_mul, Nat.div_mul by lia.
  cbn [Nat.eqb bind]. unfold Np.reshape. cbn [a_shape a_dtype a_data Np.prod fold_right].
  destruct (pattern_of_matches _ _ Hmatch) as (-> & -> & ->).
  unfold decodable in Hdec. rewrite Nat.mul_1_r.
  destruct (unknown_dims shape) as [|[|more]] eqn:Hu; [| |discriminate].
  - destruct (pattern_of_known _ _ Hmatch Hu) as [-> ->].
    rewrite Nat.eqb_refl. now destruct a.
  - destruct (pattern_of_one_unknown _ _ Hmatch Hu) as (u & Hprod & Hinf).
    apply negb_true_iff in Hdec. rewrite Hdec. cbn [orb].
    apply Nat.eqb_neq in Hdec.
    change (fold_right Nat.mul 1 (a_shape a)) with (Np.prod (a_shape a)).
    rewrite Hprod, Nat.Div0.mod_mul, Nat.div_mul by assumption.
    cbn [Nat.eqb negb]. fold (infer u (pattern_of shape)). rewrite Hinf.
    now destruct a.
Qed.

End RoundTrip.

Section Leaves.
Context `{RuntimeLaws}.

(** The array [Tensor.encode_example] writes: the value itself when it is
    an array, [np.asarray] of it otherwise. *)
Definition as_array (dtype : string) (v : Py.value) : result ndarray :=
  match v with
  | VArray a => Ok a
  | _ => np_asarray v dtype
  end.

(** The values a feature class is meant to encode. *)
Definition valid_for (schema : FeatureType) (v : Py.value) : Prop :=
  match schema with
  | Text => exists s, v = VStr s
  | Json => json_native v = true
  | Tensor shape _ => decodable shape = true /\ forall a, v = VArray a -> array_wf a
  | Scalar _ => forall a, v = VArray a -> array_wf a
  | _ => False
  end.

(** What the value is compared with after the round trip: for [Tensor]
    and [Scalar] the array that was written. *)
Definition written (schema : FeatureType) (v : Py.value) : result Py.value :=
  match schema with
  | Tensor _ dtype | Scalar dtype => bind (as_array dtype v) (fun a => Ok (VArray a))
  | _ => Ok v
  end.

(** The claim as the specification states it, for one feature class and
    one value. *)
Definition leaf_round_trip (schema : FeatureType) (v : Py.value) : Prop :=
  forall e h, encode_example schema v = Ok e ->
              fst (decode_example schema e h) = Ok v.

Lemma tensor_round_trip shape dtype v e h :
  decodable shape = true ->
  (forall a, v = VArray a -> array_wf a) ->
  Tensor.encode_example shape dtype v = Ok e ->
  Tensor.decode_example shape dtype e h
  = (bind (as_array dtype v) (fun a => Ok (VArray a)), h).
Proof.
  intros Hdec Hwf Henc. unfold Tensor.encode_example in Henc.
  fold (as_array dtype v) in Henc.
  destruct (as_array dtype v) as [a|] eqn:Ha; [|discriminate]. cbn [bind] in *.
  unfold Tensor.dtype_differs in Henc.
  destruct (np_dtype dtype) as [d|] eqn:Hd; [|discriminate].
  destruct (String.eqb_spec (a_dtype a) d) as [Heq|]; [|discriminate].
  cbn [negb] in Henc. apply bind_Ok in Henc as ([] & Hshape & [= <-]).
  assert (array_wf a) as Hwfa.
  { destruct v; try (apply (np_asarray_wf _ _ _ Ha)). injection Ha as <-. auto. }
  cbn [Tensor.decode_example]. unfold Tensor.decode_bytes, lift.
  fold (pattern_of shape).
  assert (bind (Np.frombuffer (a_data a) dtype)
            (fun a1 => Np.reshape a1 (pattern_of shape)) = Ok a) as Hrt.
  { apply reshape_frombuffer; auto; [congruence|].
    now apply assert_shape_match_matches. }
  destruct (Np.frombuffer (a_data a) dtype) as [a1|]; cbn [bind] in Hrt |- *;
    [|discriminate].
  now rewrite Hrt.
Qed.

(** C5, as amended: for [Text], [Json], [Tensor] and [Scalar] and every
    value valid for the class (a string; a value [json] represents as it
    is; an array, or a value [np.asarray] accepts, of the declared element
    type, whose shape matches a declared shape with at most one unknown
    dimension and, if one, no known dimension of size zero), decoding the
    encoding gives the value back, for [Tensor] and [Scalar] as the array
    that was written; the stream heap is not touched.  The codecs of the
    runtime are assumed to invert each other ([RuntimeLaws]). *)
Theorem leaf_decode_encode schema v e h :
  valid_for schema v ->
  encode_example schema v = Ok e ->
  decode_example schema e h = (written schema v, h).
Proof.
  destruct schema; cbn [valid_for encode_example decode_example written];
    try contradiction.
  - intros [Hdec Hwf]. now apply tensor_round_trip.
  - intros Hwf. now apply tensor_round_trip.
  - intros [s ->] Henc. unfold Text.encode_example in Henc.
    apply bind_Ok in Henc as (b & Hb & [= <-]).
    cbn [Text.decode_example]. unfold Text.decode_bytes, lift.
    now rewrite (utf8_decode_encode _ _ Hb).
  - intros Hnative Henc. unfold Json.encode_example in Henc.
    apply bind_Ok in Henc as (s & Hs & Henc). unfold Text.encode_example in Henc.
    apply bind_Ok in Henc as (b & Hb & [= <-]).
    unfold Json.decode_example, bindM. cbn [Text.decode_example].
    unfold Text.decode_bytes, lift. rewrite (utf8_decode_encode _ _ Hb).
    cbn [bind Json.loads]. now rewrite (json_loads_dumps _ _ Hnative Hs).
Qed.

End Leaves.

(** The sample runtime satisfies the laws. *)
Lemma ascii_bytes l :
  forallb (fun c => Sample.is_ascii (ascii_of_byte c)) (map byte_of_ascii l)
  = forallb Sample.is_ascii l /\
  map ascii_of_byte (map byte_of_ascii l) = l.
Proof.
  induction l as [|c l [IH1 IH2]]; simpl; [auto|].
  now rewrite ascii_of_byte_of_ascii, IH1, IH2.
Qed.

Lemma ascii_decode_encode s b :
  Sample.ascii_encode s = Ok b -> Sample.ascii_decode b = Ok s.
Proof.
  unfold Sample.ascii_encode, Sample.ascii_decode.
  destruct (forallb Sample.is_ascii (list_ascii_of_string s)) eqn:Hall;
    [|discriminate].
  intros [= <-]. destruct (ascii_bytes (list_ascii_of_string s)) as [-> ->].
  now rewrite Hall, string_of_list_ascii_of_string.
Qed.

#[export] Instance sample_laws : @RuntimeLaws Sample.runtime.
Proof.
  split.
  - exact ascii_decode_encode.
  - intros v s _. destruct v as [| [|] | | | | | | | | | |]; simpl;
      try discriminate; now intros [= <-].
  - intros s d _. simpl. unfold Sample.dtype_itemsize.
    destruct (String.eqb d "uint8"); lia.
  - intros v s a. simpl. unfold Sample.small_asarray, array_wf.
    destruct v; try discriminate.
    destruct (Sample.dtype_name s) as [d|]; [|discriminate].
    destruct (String.eqb_spec d "uint8") as [->|Hne].
    + destruct ((0 <=? n)%Z && (n <? 256)%Z); [|discriminate].
      destruct (Byte.of_N (Z.to_N n)); [|discriminate]. now intros [= <-].
    + intros Ha. exfalso.
      destruct d as [|c0 d]; [discriminate|].
      repeat (match type of Ha with
              | context [match ?x with _ => _ end] =>
                  destruct x; try discriminate
              end).
      now apply Hne.
Qed.

Definition sample_array : ndarray :=
  {| a_dtype := "uint8"; a_shape := [2; 3];
     a_data := [x01; x02; x03; x04; x05; x06] |}.

Lemma leaf_decode_encode_witness :
  @decode_example Sample.runtime (Tensor [None; Some 3%Z] "u1")
    (VBytes (a_data sample_array)) (empty_heap false)
  = (Ok (VArray sample_array), empty_heap false).
Proof.
  apply (@leaf_decode_encode Sample.runtime sample_laws
           (Tensor [None; Some 3%Z] "u1") (VArray sample_array)).
  - split; [reflexivity|]. intros a [= <-]. reflexivity.
  - reflexivity.
Defined.

(** C5 as stated fails for [Audio]: the encoding of a file is its bytes,
    their decoding a decoder bound to them, not the path that was given. *)
Lemma leaf_round_trip_counterexample :
  ~ @leaf_round_trip Sample.runtime (Audio [None] "float32" None) (VStr "clip.wav").
Proof.
  intros Hclaim. specialize (Hclaim _ (empty_heap false) eq_refl). discriminate Hclaim.
Qed.

(** Text, JSON and scalars of the tests of the package. *)
Example text_round_trip h :
  bind (@encode_example Sample.runtime Text (VStr "hello, world"))
    (fun e => fst (@decode_example Sample.runtime Text e h))
  = Ok (VStr "hello, world").
Proof. reflexivity. Qed.

Example scalar_round_trip h :
  bind (@encode_example Sample.runtime (Scalar "uint8") (VInt 1))
    (fun e => fst (@decode_example Sample.runtime (Scalar "uint8") e h))
  = Ok (VArray {| a_dtype := "uint8"; a_shape := []; a_data := [x01] |}).
Proof. reflexivity. Qed.

(** With two unknown dimensions the array is encoded, and its encoding is
    not decoded: [reshape] infers one dimension only. *)
Example two_unknown_dimensions h :
  @encode_example Sample.runtime (Tensor [None; None] "uint8") (VArray sample_array)
  = Ok (VBytes (a_data sample_array)) /\
  fst (@decode_example Sample.runtime (Tensor [None; None] "uint8")
         (VBytes (a_data sample_array)) h)
  = Raise ValueError.
Proof. split; reflexivity. Qed.

End CodecFacts.

(** ** The manifest written and read back *)

Module InfoFacts.
Import Info PyFacts.

(** Induction on schemas that reaches the fields of a mapping and the
    elements of a list. *)
Fixpoint FeatureType_ind' (P : FeatureType -> Prop)
    (HDict : forall fields, Forall (fun kv => P (snd kv)) fields -> P (Dict fields))
    (HList : forall elems, Forall P elems -> P (ListOf elems))
    (HSequence : forall feature length, P feature -> P (Sequence feature length))
    (HTensor : forall shape dtype, P (Tensor shape dtype))
    (HScalar : forall dtype, P (Scalar dtype))
    (HText : P Text) (HJson : P Json)
    (HAudio : forall shape dtype sample_rate, P (Audio shape dtype sample_rate))
    (f : FeatureType) {struct f} : P f :=
  let rec := FeatureType_ind' P HDict HList HSequence HTensor HScalar HText HJson
               HAudio in
  match f with
  | Dict fields =>
      HDict fields ((fix go fields : Forall (fun kv => P (snd kv)) fields :=
                       match fields with
                       | [] => @List.Forall_nil _ _
                       | kv :: r => @List.Forall_cons _ _ kv r (rec (snd kv)) (go r)
                       end) fields)
  | ListOf elems =>
      HList elems ((fix go elems : Forall P elems :=
                      match elems with
                      | [] => @List.Forall_nil _ _
                      | x :: r => @List.Forall_cons _ _ x r (rec x) (go r)
                      end) elems)
  | Sequence feature length => HSequence feature length (rec feature)
  | Tensor shape dtype => HTensor shape dtype
  | Scalar dtype => HScalar dtype
  | Text => HText
  | Json => HJson
  | Audio shape dtype sample_rate => HAudio shape dtype sample_rate
  end.

(** The schemas that exist: the constructors of [Tensor], [Scalar] and
    [Audio] refuse a dtype [np.dtype] does not understand. *)
Fixpoint constructible `{Runtime} (f : FeatureType) : bool :=
  match f with
  | Dict fields => forallb (fun kv => constructible (snd kv)) fields
  | ListOf elems => forallb constructible elems
  | Sequence feature _ => constructible feature
  | Tensor _ dtype | Scalar dtype | Audio _ dtype _ =>
      match np_dtype dtype with
      | Some _ => true
      | None => false
      end
  | Text | Json => true
  end.

Definition is_list (f : FeatureType) : bool :=
  match f with
  | ListOf _ => true
  | _ => false
  end.

(** No mapping of the schema has a column named [_type] whose schema is a
    list. *)
Fixpoint no_list_named_type (f : FeatureType) : bool :=
  match f with
  | Dict fields =>
      match dict_get fields "_type" with
      | Some g => negb (is_list g)
      | None => true
      end && forallb (fun kv => no_list_named_type (snd kv)) fields
  | ListOf elems => forallb no_list_named_type elems
  | Sequence feature _ => no_list_named_type feature
  | _ => true
  end.

(** The manifests the round trip is stated for. *)
Record writable `{Runtime} (info : DatasetInfo) : Prop := {
  features_constructible :
    forall fs, features info = Some fs -> constructible (Dict fs) = true;
  features_no_list_named_type :
    forall fs, features info = Some fs -> no_list_named_type (Dict fs) = true;
  metadata_native :
    forall md, metadata info = Some md -> CodecFacts.json_native (VDict md) = true
}.

(** The property of claim C8 at one manifest. *)
Definition round_trip `{Runtime} (info : DatasetInfo) : Prop :=
  (let* file := to_json info in from_json file) = Ok info.

Lemma jsonify_native v : CodecFacts.json_native v = true -> jsonify v = v.
Proof.
  induction v using TarFacts.value_ind'; simpl; intros Hn; try reflexivity;
    try discriminate.
  - f_equal. induction xs as [|x r IH]; [reflexivity|].
    simpl in Hn. apply andb_prop in Hn as [Hx Hr].
    simpl. f_equal.
    + apply (List.Forall_inv H); exact Hx.
    + apply IH; [exact (List.Forall_inv_tail H) | exact Hr].
  - f_equal. induction items as [|[k x] r IH]; [reflexivity|].
    simpl in Hn. apply andb_prop in Hn as [Hx Hr].
    simpl. f_equal.
    + f_equal. apply (List.Forall_inv H); exact Hx.
    + apply IH; [exact (List.Forall_inv_tail H) | exact Hr].
Qed.

Lemma dict_get_map {A B} (g : A -> B) (d : list (string * A)) k :
  dict_get (map (fun kv => (fst kv, g (snd kv))) d) k = option_map g (dict_get d k).
Proof.
  induction d as [|[k' v] r IH]; [reflexivity|].
  simpl. destruct (String.eqb k' k); [reflexivity | exact IH].
Qed.

Lemma dims_back (shape : list (option Z)) :
  mapM as_optional_int (map jsonify (map (of_option VInt) shape)) = Ok shape.
Proof.
  induction shape as [|[n|] r IH]; [reflexivity| |]; simpl; rewrite IH; reflexivity.
Qed.

Section Schema.
Context `{Runtime}.

Lemma checked_tensor_back shape dtype :
  (match np_dtype dtype with Some _ => true | None => false end) = true ->
  checked_tensor (VList (map jsonify (map (of_option VInt) shape))) (VStr dtype)
  = Ok (shape, dtype).
Proof.
  intros Hd. unfold checked_tensor. simpl. rewrite dims_back. simpl.
  destruct (np_dtype dtype); [reflexivity | discriminate].
Qed.

Lemma asdict_feature_is_dict f :
  is_list f = false -> exists items, jsonify (asdict_feature f) = VDict items.
Proof. destruct f; simpl; intros Hf; try discriminate; eexists; reflexivity. Qed.

(** [generate_from_dict] rebuilds a schema from what [asdict] wrote. *)
Lemma generate_from_dict_asdict f :
  constructible f = true -> no_list_named_type f = true ->
  generate_from_dict (jsonify (asdict_feature f)) = Ok f.
Proof.
  induction f using FeatureType_ind'; intros Hc Hn.
  - (* a mapping *)
    simpl in Hc, Hn. apply andb_prop in Hn as [Ht Hn].
    assert (Hfields :
      mapM (fun kr : string * result FeatureType => let* v := snd kr in Ok (fst kr, v))
        (map (fun kv => (fst kv, generate_from_dict (snd kv)))
           (map (fun kv => (fst kv, jsonify (snd kv)))
              (map (fun kv => (fst kv, asdict_feature (snd kv))) fields)))
      = Ok fields).
    { clear Ht. induction fields as [|[k g] r IH]; [reflexivity|].
      simpl in Hc, Hn. apply andb_prop in Hc as [Hg Hr].
      apply andb_prop in Hn as [Hg' Hr'].
      cbn [map mapM fst snd]. pose proof (List.Forall_inv H0 Hg Hg') as E.
      cbn [snd] in E. rewrite E. cbn [bind fst snd].
      rewrite (IH (List.Forall_inv_tail H0) Hr Hr'). reflexivity. }
    cbn [asdict_feature jsonify generate_from_dict].
    rewrite !dict_get_map.
    destruct (dict_get fields "_type") as [g|] eqn:Eg; simpl.
    + apply negb_true_iff in Ht.
      destruct (asdict_feature_is_dict g Ht) as [items Hi]. rewrite Hi.
      rewrite Hfields. reflexivity.
    + rewrite Hfields. reflexivity.
  - (* a list *)
    simpl in Hc, Hn. cbn [asdict_feature jsonify generate_from_dict].
    assert (Helems :
      mapM generate_from_dict (map jsonify (map asdict_feature elems)) = Ok elems).
    { induction elems as [|g r IH]; [reflexivity|].
      simpl in Hc, Hn. apply andb_prop in Hc as [Hg Hr].
      apply andb_prop in Hn as [Hg' Hr'].
      cbn [map mapM]. rewrite (List.Forall_inv H0 Hg Hg'). cbn [bind].
      rewrite (IH (List.Forall_inv_tail H0) Hr Hr'). reflexivity. }
    rewrite Helems. reflexivity.
  - (* Sequence *)
    simpl in Hc, Hn. specialize (IHf Hc Hn).
    cbn [asdict_feature]. destruct (length =? -1)%Z eqn:El.
    + apply Z.eqb_eq in El. subst length. simpl. rewrite IHf. reflexivity.
    + simpl. rewrite IHf. reflexivity.
  - simpl in Hc. cbn [asdict_feature jsonify generate_from_dict]. simpl.
    unfold construct. simpl. unfold required. simpl.
    rewrite (checked_tensor_back shape dtype Hc). reflexivity.
  - simpl in Hc. simpl. unfold construct. simpl. unfold required. simpl.
    unfold checked_tensor. simpl. destruct (np_dtype dtype); [reflexivity|discriminate].
  - reflexivity.
  - reflexivity.
  - simpl in Hc. cbn [asdict_feature jsonify generate_from_dict]. simpl.
    unfold construct, with_default. simpl.
    rewrite (checked_tensor_back shape dtype Hc). simpl.
    destruct sample_rate; reflexivity.
Qed.

End Schema.

Section Manifest.
Context `{Runtime}.

Lemma Features_from_dict_asdict fs :
  constructible (Dict fs) = true -> no_list_named_type (Dict fs) = true ->
  Features_from_dict (jsonify (asdict_feature (Dict fs))) = Ok fs.
Proof.
  intros Hc Hn. unfold Features_from_dict.
  rewrite (generate_from_dict_asdict (Dict fs) Hc Hn). reflexivity.
Qed.

Lemma file_list_back (l : list string) :
  mapM as_str (map jsonify (map VStr l)) = Ok l.
Proof. induction l as [|s r IH]; [reflexivity|]. simpl. rewrite IH. reflexivity. Qed.

(** The manifest can be written. *)
Lemma serialisable_feature f : serialisable (asdict_feature f) = true.
Proof.
  induction f using FeatureType_ind'; cbn [asdict_feature serialisable];
    try reflexivity.
  - induction fields as [|[k g] r IH]; [reflexivity|]. cbn [map forallb fst snd].
    pose proof (List.Forall_inv H0) as E. cbn [snd] in E. rewrite E.
    exact (IH (List.Forall_inv_tail H0)).
  - induction elems as [|g r IH]; [reflexivity|]. cbn [map forallb].
    rewrite (List.Forall_inv H0). exact (IH (List.Forall_inv_tail H0)).
  - cbn [app forallb snd]. rewrite IHf. destruct (length =? -1)%Z; reflexivity.
  - cbn [forallb snd serialisable]. rewrite !andb_true_r.
    induction shape as [|[n|] r IH]; simpl; auto.
  - cbn [forallb snd serialisable]. rewrite !andb_true_r.
    assert (forallb serialisable (map (of_option VInt) shape) = true) as ->
      by (induction shape as [|[n|] r IH]; simpl; auto).
    destruct sample_rate; reflexivity.
Qed.

Lemma serialisable_native v : CodecFacts.json_native v = true -> serialisable v = true.
Proof.
  induction v as [| | | | |xs IHxs|xs IHxs|items IHitems| | | |]
    using TarFacts.value_ind'; simpl; intros Hn; try reflexivity; try discriminate.
  - induction xs as [|x r IH]; [reflexivity|].
    simpl in Hn. apply andb_prop in Hn as [Hx Hr]. simpl.
    rewrite (List.Forall_inv IHxs Hx). exact (IH (List.Forall_inv_tail IHxs) Hr).
  - induction items as [|[k x] r IH]; [reflexivity|].
    simpl in Hn. apply andb_prop in Hn as [Hx Hr]. simpl.
    pose proof (List.Forall_inv IHitems) as E. cbn [snd] in E. rewrite (E Hx).
    exact (IH (List.Forall_inv_tail IHitems) Hr).
Qed.

Lemma serialisable_files (l : list string) : forallb serialisable (map VStr l) = true.
Proof. induction l; simpl; auto. Qed.

Lemma serialisable_asdict (info : DatasetInfo) :
  (forall md, metadata info = Some md -> serialisable (VDict md) = true) ->
  serialisable (asdict info) = true.
Proof.
  destruct info as [d fl fs sz md]. cbn [metadata]. intros Hm.
  unfold asdict. cbn [description file_list features size_in_bytes metadata].
  cbn [serialisable app forallb snd]. rewrite (serialisable_files fl).
  rewrite !forallb_app.
  assert (Hfs : forallb (fun kv => serialisable (snd kv))
                  (unless_None "features"
                     (of_option (fun fs => asdict_feature (Dict fs)) fs)) = true).
  { destruct fs as [fs|]; [|reflexivity].
    pose proof (serialisable_feature (Dict fs)) as Hs.
    cbn [of_option asdict_feature unless_None forallb snd]. simpl in Hs.
    cbn [serialisable]. rewrite Hs. reflexivity. }
  assert (Hmd : forallb (fun kv => serialisable (snd kv))
                  (unless_None "metadata" (of_option VDict md)) = true).
  { destruct md as [md|]; [|reflexivity].
    cbn [of_option unless_None forallb snd]. rewrite (Hm md eq_refl). reflexivity. }
  rewrite Hfs, Hmd. destruct sz; reflexivity.
Qed.

(** The file, with the schema and the metadata still to be converted. *)
Lemma jsonify_asdict (info : DatasetInfo) :
  jsonify (asdict info) =
  VDict ([("description", VStr (description info));
          ("file_list", VList (map jsonify (map VStr (file_list info))))]
         ++ unless_None "features"
              (of_option (fun fs => jsonify (asdict_feature (Dict fs))) (features info))
         ++ unless_None "size_in_bytes" (of_option VInt (size_in_bytes info))
         ++ unless_None "metadata"
              (of_option (fun md => jsonify (VDict md)) (metadata info))).
Proof. destruct info as [d fl [fs|] [sz|] [md|]]; reflexivity. Qed.

(** *** The round trip *)

(** C8, as the code has it: a manifest whose schema is built from the
    supported variants (mappings, lists, [Sequence], [Tensor], [Scalar],
    [Text], [Json], [Audio]) with no list-valued column named [_type], and
    whose metadata holds JSON-native values, is read back from the file
    [write_to_json] wrote equal to itself: description, file list in its
    order, schema with shapes, dtypes, sample rates and sequence lengths,
    size and metadata. *)
Theorem manifest_round_trip (info : DatasetInfo) :
  writable info -> (let* file := to_json info in from_json file) = Ok info.
Proof.
  intros [Hc Hn Hm]. unfold to_json.
  rewrite serialisable_asdict
    by (intros md Hmd; apply serialisable_native, Hm, Hmd).
  cbn [bind]. rewrite jsonify_asdict.
  destruct info as [d fl fs sz md]. simpl in Hc, Hn, Hm.
  unfold from_json, from_dict.
  cbn [description file_list features size_in_bytes metadata].
  assert (Hfs : forall l, fs = Some l ->
            exists items, jsonify (asdict_feature (Dict l)) = VDict items
                          /\ Features_from_dict (VDict items) = Ok l).
  { intros l ->. eexists. split; [reflexivity|].
    apply (Features_from_dict_asdict l (Hc l eq_refl) (Hn l eq_refl)). }
  assert (Hmd : forall l, md = Some l -> jsonify (VDict l) = VDict l).
  { intros l ->. apply jsonify_native. apply Hm. reflexivity. }
  clear Hc Hn Hm.
  destruct fs as [fs|]; [destruct (Hfs fs eq_refl) as (items & Ei & Ef)|];
    clear Hfs; cbn [of_option]; try rewrite Ei;
    (destruct md as [md|]; cbn [of_option]; [rewrite (Hmd md eq_refl)|]); clear Hmd;
    destruct sz as [sz|];
    cbn [of_option unless_None app Features.as_dict bind];
    unfold with_default; cbn [dict_get as_str bind Features.iter];
    simpl String.eqb; cbn iota;
    cbn [as_str bind Features.iter as_optional_int]; rewrite file_list_back;
    try rewrite Ef; reflexivity.
Qed.

End Manifest.

(** A manifest with every field set and every variant in its schema. *)
Definition sample_info : DatasetInfo := {|
  description := "speech corpus";
  file_list := ["000000.tar"; "000001.tar"];
  features := Some [("text", Text);
                    ("wave", Audio [None] "float32" (Some 16000%Z));
                    ("mel", Tensor [None; Some 80%Z] "float32");
                    ("speaker", Scalar "int32");
                    ("meta", Json);
                    ("_type", Text);
                    ("tags", ListOf [Text]);
                    ("posts", Sequence (Dict [("body", Text); ("votes", Scalar "int32")]) 3);
                    ("frames", Sequence (Tensor [Some 2%Z] "uint8") (-1))];
  size_in_bytes := Some 1024%Z;
  metadata := Some [("lang", VStr "en"); ("splits", VList [VInt 1; VInt 2])]
|}.

Lemma manifest_round_trip_witness :
  (let* file := to_json sample_info in @from_json Sample.runtime file)
  = Ok sample_info.
Proof.
  apply (@manifest_round_trip Sample.runtime sample_info).
  split; simpl; intros l [= <-]; reflexivity.
Defined.

(** A manifest whose metadata holds a tuple. *)
Definition tuple_info : DatasetInfo := {|
  description := EmptyString;
  file_list := ["000000.tar"];
  features := Some [("text", Text)];
  size_in_bytes := None;
  metadata := Some [("range", VTuple [VInt 1; VInt 2])]
|}.

(** C8 as stated fails for a manifest whose metadata holds a tuple: it is
    written, JSON has lists only, and the manifest read back holds a
    list. *)
Lemma manifest_round_trip_counterexample :
  ~ @round_trip Sample.runtime tuple_info.
Proof. unfold round_trip. intros Hclaim. discriminate Hclaim. Qed.

Example tuple_read_back_as_list :
  (let* file := to_json tuple_info in
   let* info := @from_json Sample.runtime file in
   Ok (metadata info))
  = Ok (Some [("range", VList [VInt 1; VInt 2])]).
Proof. reflexivity. Qed.

(** A schema with a column named [_type] whose schema is a list is written
    but not read back: [generate_from_dict] takes the list for the name of
    a class. *)
Definition type_list_info : DatasetInfo := {|
  description := EmptyString;
  file_list := [];
  features := Some [("_type", ListOf [Text])];
  size_in_bytes := None;
  metadata := None
|}.

Example list_named_type :
  to_json type_list_info
  = Ok (VDict [("description", VStr EmptyString); ("file_list", VList []);
               ("features",
                VDict [("_type", VList [VDict [("_type", VStr "Text")]])])])
  /\ (let* file := to_json type_list_info in @from_json Sample.runtime file)
     = Raise TypeError.
Proof. split; reflexivity. Qed.

(** A manifest whose metadata holds bytes is not written. *)
Example bytes_not_written :
  to_json {| description := EmptyString; file_list := []; features := None;
             size_in_bytes := None;
             metadata := Some [("raw", VBytes [x00])] |}
  = Raise TypeError.
Proof. reflexivity. Qed.

(** The same column with a schema that is not a list is read back. *)
Example column_named_type :
  @Features_from_dict Sample.runtime
    (jsonify (asdict_feature (Dict [("_type", Sequence Text (-1))])))
  = Ok [("_type", Sequence Text (-1))].
Proof. reflexivity. Qed.

End InfoFacts.

(** ** The writers: indices of a shard and the count of shards *)

Module WritersFacts.
Import Writers PyFacts.

(** *** An index is written once *)

Section Uniqueness.
Context `{Runtime}.
Import TarWriter.

Definition is_dict (v : Py.value) : bool :=
  match v with
  | VDict _ => true
  | _ => false
  end.

(** A write that succeeds records its index and nothing else. *)
Lemma write_Ok (w : TarWriter) idx objects sz w1 :
  write w idx objects = (Ok sz, w1) ->
  (idx ∉ written_idx w)
  /\ written_idx w1 = {[idx]} ∪ written_idx w
  /\ features w1 = features w /\ tar_name w1 = tar_name w
  /\ exists items fields written_obj,
       objects = VDict items /\ features w = Some fields
       /\ keys_differ (keys items) (keys fields) = false
       /\ Features.Features_encode_example fields objects = Ok written_obj
       /\ Tar._write_to_tar (tar_stream w) idx written_obj = (tar_stream w1, Ok sz).
Proof.
  unfold write. intros Hw.
  destruct objects; try (destruct (features w); discriminate).
  destruct (features w) as [fields|] eqn:Ef; [|discriminate].
  destruct (keys_differ _ _) eqn:Ek; [discriminate|].
  destruct (bool_decide (idx ∈ written_idx w)) eqn:Ei; [discriminate|].
  apply bool_decide_eq_false in Ei.
  destruct (Features.Features_encode_example fields _) as [e|?] eqn:Ee; [|discriminate].
  destruct (Tar._write_to_tar _ _ _) as [tar [n|?]] eqn:Et; [|discriminate].
  injection Hw as <- <-. simpl. repeat split; auto.
  exists items, fields, e. auto.
Qed.

(** C7: after [write(i, r1)] has succeeded, [write(i, r2)] on the same
    writer raises for every [r2] ([ValueError] when [r2] is a dictionary)
    and leaves the writer as it was: the set of written indices, which
    holds [i] and the indices written before, and the archive too. *)
Theorem index_written_once (w : TarWriter) (i : string) (r1 : Py.value) sz w1 :
  write w i r1 = (Ok sz, w1) ->
  written_idx w1 = {[i]} ∪ written_idx w
  /\ forall r2,
       write w1 i r2
       = (Raise (if is_dict r2 then ValueError else AttributeError), w1).
Proof.
  intros Hw. destruct (write_Ok _ _ _ _ _ Hw) 
    as (_ & Hi & Hf & _ & items & fields & _ & _ & Ef & _).
  split; [exact Hi|].
  intros r2. unfold write. rewrite Hf, Ef.
  destruct r2; try reflexivity. simpl.
  destruct (keys_differ _ _); [reflexivity|].
  rewrite bool_decide_eq_true_2; [reflexivity|].
  rewrite Hi. apply elem_of_union_l, elem_of_singleton. reflexivity.
Qed.

End Uniqueness.

Definition text_writer : TarWriter.TarWriter :=
  fst (TarWriter.__init__ "00000.tar" (Some [("text", Text)]) ∅).

Definition first_record : Py.value := VDict [("text", VStr "hello")].
Definition second_record : Py.value := VDict [("text", VStr "again")].

Lemma index_written_once_witness :
  @TarWriter.write Sample.runtime
    (snd (@TarWriter.write Sample.runtime text_writer "0" first_record))
    "0" second_record
  = (Raise ValueError,
     snd (@TarWriter.write Sample.runtime text_writer "0" first_record)).
Proof.
  apply (proj2 (@index_written_once Sample.runtime text_writer "0" first_record 5
                  (snd (@TarWriter.write Sample.runtime text_writer "0" first_record))
                  eq_refl)
           second_record).
Defined.

(** *** Sizes *)

(** What [_write_to_tar] returns depends on the data only, not on the
    archive or on the name the data is written under. *)
Lemma write_to_tar_result data :
  forall tar prefix tar' prefix',
    snd (Tar._write_to_tar tar prefix data) = snd (Tar._write_to_tar tar' prefix' data).
Proof.
  induction data using TarFacts.value_ind'; intros tar prefix tar' prefix';
    try reflexivity.
  - (* a list *)
    cbn [Tar._write_to_tar].
    generalize (Tar._add_dir_to_tar tar prefix) (Tar._add_dir_to_tar tar' prefix').
    generalize 0 at 1 3. generalize 0.
    induction xs as [|x r IH]; intros i sz t t'; [reflexivity|].
    cbn [Tar.write_elems].
    pose proof (List.Forall_inv H (t) (prefix +:+ "/" +:+ str i) t'
                  (prefix' +:+ "/" +:+ str i)) as Hx.
    cbn [snd] in Hx.
    destruct (Tar._write_to_tar t _ x) as [t1 r1] eqn:E1.
    destruct (Tar._write_to_tar t' _ x) as [t2 r2] eqn:E2.
    rewrite ?E1, ?E2 in Hx. simpl in Hx. subst r2. destruct r1; [|reflexivity].
    apply IH. exact (List.Forall_inv_tail H).
  - (* a dictionary *)
    cbn [Tar._write_to_tar].
    generalize (Tar._add_dir_to_tar tar prefix) (Tar._add_dir_to_tar tar' prefix').
    generalize 0.
    induction items as [|[k x] r IH]; intros sz t t'; [reflexivity|].
    cbn [Tar.write_items]. destruct (isdigit k); [reflexivity|].
    pose proof (List.Forall_inv H (t) (prefix +:+ "/" +:+ k) t'
                  (prefix' +:+ "/" +:+ k)) as Hx.
    cbn [snd] in Hx.
    destruct (Tar._write_to_tar t _ x) as [t1 r1] eqn:E1.
    destruct (Tar._write_to_tar t' _ x) as [t2 r2] eqn:E2.
    rewrite ?E1, ?E2 in Hx. simpl in Hx. subst r2. destruct r1; [|reflexivity].
    apply IH. exact (List.Forall_inv_tail H).
Qed.

Section Records.
Context `{Runtime}.

(** The size [TarWriter.write] returns for a record. *)
Definition written_size (fields : list (string * FeatureType)) (r : Py.value)
  : result nat :=
  let* written_obj := Features.Features_encode_example fields r in
  snd (Tar._write_to_tar [] EmptyString written_obj).

(** A record the writer takes: a dictionary with the keys of the schema
    that is encoded and written, in [sz] bytes. *)
Definition conforms (fields : list (string * FeatureType)) (r : Py.value) (sz : nat)
  : Prop :=
  match r with
  | VDict items => keys_differ (keys items) (keys fields) = false
  | _ => False
  end
  /\ written_size fields r = Ok sz.

Lemma write_conforms (w : TarWriter.TarWriter) fields idx r sz :
  TarWriter.features w = Some fields ->
  idx ∉ TarWriter.written_idx w ->
  conforms fields r sz ->
  exists tar,
    TarWriter.write w idx r
    = (Ok sz, {| TarWriter.tar_name := TarWriter.tar_name w;
                 TarWriter.tar_stream := tar;
                 TarWriter.features := Some fields;
                 TarWriter.written_idx := {[idx]} ∪ TarWriter.written_idx w |}).
Proof.
  intros Hf Hi [Hk Hs]. unfold TarWriter.write. rewrite Hf.
  destruct r; try contradiction. rewrite Hk.
  rewrite bool_decide_eq_false_2 by exact Hi.
  unfold written_size in Hs.
  destruct (Features.Features_encode_example fields (VDict items)) as [e|?];
    [|discriminate].
  simpl in Hs.
  rewrite (write_to_tar_result e [] EmptyString (TarWriter.tar_stream w) idx) in Hs.
  destruct (Tar._write_to_tar (TarWriter.tar_stream w) idx e) as [tar r].
  simpl in Hs. subst r. exists tar. reflexivity.
Qed.

End Records.

(** The indices of the records of a shard. *)
Lemma str_not_written c : str c ∉ (list_to_set (map str (seq 0 c)) : gset string).
Proof.
  rewrite elem_of_list_to_set, list_elem_of_In, in_map_iff.
  intros (i & Hi & Hin). apply str_inj in Hi. apply in_seq in Hin. lia.
Qed.

Lemma written_next c :
  ({[str c]} ∪ list_to_set (map str (seq 0 c)) : gset string)
  = list_to_set (map str (seq 0 (S c))).
Proof.
  rewrite seq_S, map_app, list_to_set_app_L. simpl.
  rewrite (right_id_L ∅ (∪)). apply (comm_L (∪)).
Qed.

(** *** Counting shards *)

(** [ceil_div N M] is the least [k] with [N <= k * M]. *)
Definition ceil_div (N M : nat) : nat := (N + M - 1) / M.

(** One shard is opened by the constructor, the others by the records. *)
Definition shards_for (N M : nat) : nat := Nat.max 1 (ceil_div N M).

Lemma ceil_div_lt N M i : 1 <= M -> i < ceil_div N M <-> i * M < N.
Proof.
  intros HM. unfold ceil_div. split; intros Hi.
  - destruct (Nat.lt_ge_cases (i * M) N) as [|Hge]; [assumption|].
    exfalso. assert ((N + M - 1) / M < S i); [|lia].
    apply Nat.Div0.div_lt_upper_bound. nia.
  - apply Nat.div_le_lower_bound; [lia|]. nia.
Qed.

Lemma shards_for_lt N M i : 1 <= M -> i < shards_for N M <-> i = 0 \/ i * M < N.
Proof.
  intros HM. unfold shards_for. rewrite Nat.max_lt_iff, (ceil_div_lt N M i HM). lia.
Qed.

Lemma shards_for_eq N M j c :
  1 <= M -> j * M + c = N -> c <= M -> (c = 0 -> N = 0) -> S j = shards_for N M.
Proof.
  intros HM Hn Hc H0.
  assert (Hlt : j < shards_for N M).
  { apply shards_for_lt; [assumption|]. destruct j; [now left|]. right. nia. }
  assert (Hge : ~ S j < shards_for N M).
  { rewrite shards_for_lt by assumption. intros [|Hlt']; [discriminate|]. nia. }
  lia.
Qed.

(** *** Writing a list of records *)

Ltac fields_of_writer :=
  cbn [ShardWriter.path ShardWriter.pattern ShardWriter.info ShardWriter.max_count
       ShardWriter.max_size ShardWriter.writer_stream ShardWriter.shard
       ShardWriter.count ShardWriter.size ShardWriter.total_count ShardWriter.fname
       TarWriter.tar_name TarWriter.tar_stream TarWriter.features
       TarWriter.written_idx] in *.

Section Rolling.
Variable percent : string -> nat -> result string.
Context `{Runtime}.

(** [for obj in records: writer.write(obj)] *)
Fixpoint write_all (self : ShardWriter.ShardWriter) (records : list Py.value)
    (fs : filesystem) : ShardWriter.outcome :=
  match records with
  | [] => (Ok tt, self, fs)
  | obj :: rest =>
      match ShardWriter.write percent self obj fs with
      | (Ok _, self, fs) => write_all self rest fs
      | failed => failed
      end
  end.

(** A writer is constructed, the records are written and the writer is
    closed. *)
Definition run (path : string) (info : Info.DatasetInfo) (pattern : string)
    (max_count max_size : Z) (records : list Py.value) (fs : filesystem)
  : ShardWriter.outcome :=
  match ShardWriter.__init__ percent path info pattern max_count max_size fs with
  | (Ok _, self, fs) =>
      match write_all self records fs with
      | (Ok _, self, fs) => ShardWriter.close self fs
      | failed => failed
      end
  | failed => failed
  end.

Variables (path0 pattern0 : string) (info0 : Info.DatasetInfo).
Variables (fields : list (string * FeatureType)) (M : nat) (budget : Z).
Variables (fs0 : filesystem) (name : nat -> string).
Hypothesis Hfields : Info.features info0 = Some fields.
Hypothesis Hmetadata :
  forall md, Info.metadata info0 = Some md -> Info.serialisable (VDict md) = true.
Hypothesis HM : 1 <= M.

(** The files of the first [k] shards, in the order they are created. *)
Definition shard_names (k : nat) : list string := map name (seq 0 k).

Definition with_files (i : Info.DatasetInfo) (l : list string) : Info.DatasetInfo :=
  {| Info.description := Info.description i;
     Info.file_list := Info.file_list i ++ l;
     Info.features := Info.features i;
     Info.size_in_bytes := Info.size_in_bytes i;
     Info.metadata := Info.metadata i |}.

(** The writer after [n] records, in its shard [j], with the sizes of the
    records still to come. *)
Record rolling (n : nat) (rest : list nat) (j : nat)
    (self : ShardWriter.ShardWriter) (fs : filesystem) : Prop := {
  r_path : ShardWriter.path self = path0;
  r_pattern : ShardWriter.pattern self = path0 +:+ "/" +:+ pattern0 +:+ ".tar";
  r_info : ShardWriter.info self = with_files info0 (map basename (shard_names j));
  r_max_count : ShardWriter.max_count self = Z.of_nat M;
  r_max_size : ShardWriter.max_size self = budget;
  r_stream : exists tar,
    ShardWriter.writer_stream self
    = Some {| TarWriter.tar_name := name j; TarWriter.tar_stream := tar;
              TarWriter.features := Some fields;
              TarWriter.written_idx :=
                list_to_set (map str (seq 0 (ShardWriter.count self))) |};
  r_shard : ShardWriter.shard self = S j;
  r_count : j * M + ShardWriter.count self = n;
  r_count_le : ShardWriter.count self <= M;
  r_count_0 : ShardWriter.count self = 0 -> n = 0;
  r_total : ShardWriter.total_count self = n;
  r_fname : ShardWriter.fname self = Some (name j);
  r_size : (Z.of_nat (ShardWriter.size self + sum_list rest) <= budget)%Z;
  r_dom : dom fs = dom fs0 ∪ list_to_set (shard_names (S j))
}.

Lemma shard_names_S k : shard_names (S k) = shard_names k ++ [name k].
Proof. unfold shard_names. rewrite seq_S, map_app. reflexivity. Qed.

Lemma names_S k :
  (list_to_set (shard_names (S k)) : gset string)
  = {[name k]} ∪ list_to_set (shard_names k).
Proof.
  rewrite shard_names_S, list_to_set_app_L. simpl.
  rewrite (right_id_L ∅ (∪)). apply (comm_L (∪)).
Qed.

Lemma append_with_files i l x :
  ShardWriter.append_file (with_files i l) x = with_files i (l ++ [x]).
Proof. unfold ShardWriter.append_file, with_files. simpl. now rewrite app_assoc. Qed.

Lemma with_no_files i : with_files i [] = i.
Proof. destruct i. unfold with_files. simpl. now rewrite app_nil_r. Qed.

Lemma rolling_init sizes :
  percent (path0 +:+ "/" +:+ pattern0 +:+ ".tar") 0 = Ok (name 0) ->
  (Z.of_nat (sum_list sizes) <= budget)%Z ->
  exists self fs,
    ShardWriter.__init__ percent path0 info0 pattern0 (Z.of_nat M) budget fs0
    = (Ok tt, self, fs)
    /\ rolling 0 sizes 0 self fs.
Proof.
  intros Hp Hb. unfold ShardWriter.__init__, ShardWriter.next_stream, ShardWriter.finish.
  cbn [ShardWriter.writer_stream ShardWriter.pattern ShardWriter.shard].
  rewrite Hp. cbn [TarWriter.__init__ ShardWriter.info]. rewrite Hfields.
  eexists _, _. split; [reflexivity|].
  split; fields_of_writer; try reflexivity; try lia.
  - symmetry. apply with_no_files.
  - eexists. reflexivity.
  - rewrite dom_insert_L. cbn [shard_names seq map list_to_set]. rewrite (right_id_L ∅ (∪)). apply (comm_L (∪)).
Qed.

Lemma no_size_roll n sz rest j self fs :
  rolling n (sz :: rest) j self fs ->
  ShardWriter.rolls self = bool_decide (ShardWriter.count self = M).
Proof.
  intros R. unfold ShardWriter.rolls.
  destruct (r_stream _ _ _ _ _ R) as [tar ->].
  rewrite (r_max_count _ _ _ _ _ R), (r_max_size _ _ _ _ _ R).
  pose proof (r_size _ _ _ _ _ R) as Hs. pose proof (r_count_le _ _ _ _ _ R) as Hc.
  simpl in Hs.
  replace (Z.of_nat (ShardWriter.size self) >? budget)%Z with false
    by (symmetry; rewrite Z.gtb_ltb; apply Z.ltb_ge; lia).
  rewrite orb_false_r.
  destruct (bool_decide_reflect (ShardWriter.count self = M)) as [E|E].
  - apply Z.geb_le. lia.
  - rewrite Z.geb_leb. apply Z.leb_gt. lia.
Qed.

(** One more record: the shard is rolled exactly when it is full. *)
Lemma rolling_write n sz rest j self fs obj :
  rolling n (sz :: rest) j self fs ->
  conforms fields obj sz ->
  (forall i, i * M < S n ->
     percent (path0 +:+ "/" +:+ pattern0 +:+ ".tar") i = Ok (name i)) ->
  exists j' self' fs',
    ShardWriter.write percent self obj fs = (Ok tt, self', fs')
    /\ rolling (S n) rest j' self' fs'.
Proof.
  intros R Hobj Hp. unfold ShardWriter.write.
  rewrite (no_size_roll _ _ _ _ _ _ R).
  pose proof R as [Rpath Rpat Rinfo Rmc Rms [tar Rw] Rsh Rc Rle R0 Rt Rf Rsz Rdom].
  simpl in Rsz.
  destruct (bool_decide_reflect (ShardWriter.count self = M)) as [E|E].
  - (* the shard is full *)
    unfold ShardWriter.next_stream, ShardWriter.finish.
    rewrite Rw, Rf. fields_of_writer.
    rewrite Rpat, Rsh, (Hp (S j)) by nia.
    rewrite Rinfo. unfold TarWriter.__init__.
    cbn [ShardWriter.append_file Info.features with_files]. rewrite Hfields.
    fields_of_writer.
    match goal with
    | |- context [TarWriter.write ?w ?i obj] =>
        destruct (write_conforms w fields i obj sz eq_refl (str_not_written 0) Hobj)
          as [tar' ->]
    end.
    exists (S j). eexists _, _. split; [reflexivity|].
    split; fields_of_writer; try reflexivity; try assumption; try lia.
    + fold (ShardWriter.append_file
              (with_files info0 (map basename (shard_names j))) (basename (name j))).
      rewrite append_with_files, shard_names_S, map_app. reflexivity.
    + eexists. reflexivity.
    + unfold TarWriter.close. fields_of_writer.
      rewrite !dom_insert_L, Rdom, (names_S (S j)), (names_S j). set_solver.
  - (* there is room *)
    rewrite Rw.
    match goal with
    | |- context [TarWriter.write ?w ?i obj] =>
        destruct (write_conforms w fields i obj sz eq_refl
                    (str_not_written (ShardWriter.count self)) Hobj) as [tar' ->]
    end.
    fields_of_writer.
    exists j. eexists _, _. split; [reflexivity|].
    split; fields_of_writer; try reflexivity; try assumption; try lia.
    eexists. rewrite written_next, Nat.add_1_r. reflexivity.
Qed.

Lemma rolling_write_all records sizes :
  Forall2 (conforms fields) records sizes ->
  forall n j self fs,
    rolling n sizes j self fs ->
    (forall i, i * M < n + length records ->
       percent (path0 +:+ "/" +:+ pattern0 +:+ ".tar") i = Ok (name i)) ->
    exists j' self' fs',
      write_all self records fs = (Ok tt, self', fs')
      /\ rolling (n + length records) [] j' self' fs'.
Proof.
  induction 1 as [|obj sz records sizes Hobj _ IH]; intros n j self fs R Hp.
  - exists j, self, fs. rewrite Nat.add_0_r. split; [reflexivity | assumption].
  - cbn [write_all].
    destruct (rolling_write n sz sizes j self fs obj R Hobj) as (j1 & s1 & fs1 & -> & R1).
    { intros i Hi. apply Hp. simpl. lia. }
    destruct (IH (S n) j1 s1 fs1 R1) as (j2 & s2 & fs2 & -> & R2).
    { intros i Hi. apply Hp. simpl. lia. }
    exists j2, s2, fs2. split; [reflexivity|].
    simpl. rewrite Nat.add_succ_r. exact R2.
Qed.

Lemma rolling_close n j self fs :
  rolling n [] j self fs ->
  exists self' fs',
    ShardWriter.close self fs = (Ok tt, self', fs')
    /\ ShardWriter.shard self' = S j
    /\ ShardWriter.total_count self' = n
    /\ ShardWriter.info self' = with_files info0 (map basename (shard_names (S j)))
    /\ dom fs' = dom fs0 ∪ list_to_set (shard_names (S j))
                 ∪ {[path0 +:+ "/dataset_info.json"]}
    /\ fs' !! (path0 +:+ "/dataset_info.json")
       = Some (Manifest (Info.jsonify (Info.asdict (ShardWriter.info self')))).
Proof.
  intros [Rpath Rpat Rinfo Rmc Rms [tar Rw] Rsh Rc Rle R0 Rt Rf Rsz Rdom].
  unfold ShardWriter.close, ShardWriter.finish. rewrite Rw, Rf.
  fields_of_writer. rewrite Rpath, Rinfo. unfold Info.to_json.
  rewrite InfoFacts.serialisable_asdict by exact Hmetadata.
  eexists _, _. split; [reflexivity|]. fields_of_writer.
  repeat split; try assumption.
  - rewrite append_with_files, shard_names_S, map_app. reflexivity.
  - unfold TarWriter.close. fields_of_writer.
    rewrite !dom_insert_L, Rdom, (names_S j). set_solver.
  - apply lookup_insert_eq.
Qed.

(** *** The count of shards *)

(** C3, as the code has it: with [max_count = M >= 1], a manifest that has
    a schema and metadata that JSON takes, a pattern that formats the
    numbers of the shards to distinct names, records that the writer takes
    and a byte budget that holds them all, constructing a [ShardWriter],
    writing [N] records and closing succeeds and leaves
    [max 1 (ceil (N / M))] shards, which is [ceil (N / M)] when there is a
    record; the constructor opens the first shard, so there is one shard
    when [N = 0].  The file list of the manifest is the one it had
    followed by the base names of the shards in the order they were
    created, the shards and the manifest are the files written, and the
    manifest file holds that manifest. *)
Theorem shard_rolling_count (records : list Py.value) (sizes : list nat) :
  Forall2 (conforms fields) records sizes ->
  (Z.of_nat (sum_list sizes) <= budget)%Z ->
  (forall i, i < shards_for (length records) M ->
     percent (path0 +:+ "/" +:+ pattern0 +:+ ".tar") i = Ok (name i)) ->
  NoDup (shard_names (shards_for (length records) M)) ->
  exists self fs,
    run path0 info0 pattern0 (Z.of_nat M) budget records fs0 = (Ok tt, self, fs)
    /\ ShardWriter.shard self = shards_for (length records) M
    /\ (1 <= length records ->
        shards_for (length records) M = ceil_div (length records) M)
    /\ ShardWriter.total_count self = length records
    /\ Info.file_list (ShardWriter.info self)
       = Info.file_list info0
         ++ map basename (shard_names (shards_for (length records) M))
    /\ dom fs = dom fs0 ∪ list_to_set (shard_names (shards_for (length records) M))
                ∪ {[path0 +:+ "/dataset_info.json"]}
    /\ size (list_to_set (shard_names (shards_for (length records) M)) : gset string)
       = shards_for (length records) M
    /\ fs !! (path0 +:+ "/dataset_info.json")
       = Some (Manifest (Info.jsonify (Info.asdict (ShardWriter.info self)))).
Proof.
  intros Hrecords Hbudget Hp Hnames. unfold run.
  destruct (rolling_init sizes) as (s0 & f0 & -> & R0); [|assumption|].
  { apply Hp, shards_for_lt; [assumption | now left]. }
  destruct (rolling_write_all records sizes Hrecords 0 0 s0 f0 R0)
    as (j & s1 & f1 & -> & R1).
  { intros i Hi. apply Hp, shards_for_lt; [assumption | now right]. }
  simpl in R1.
  destruct (rolling_close _ _ _ _ R1) as (s2 & f2 & -> & Hsh & Ht & Hi & Hd & Hm).
  assert (Hk : S j = shards_for (length records) M).
  { destruct R1. eapply shards_for_eq; eauto. }
  rewrite <- Hk. exists s2, f2. repeat split; try assumption.
  - intros HN. rewrite Hk. unfold shards_for.
    assert (0 < ceil_div (length records) M) by (apply ceil_div_lt; lia). lia.
  - rewrite Hi. reflexivity.
  - rewrite size_list_to_set by (rewrite Hk; exact Hnames).
    unfold shard_names. rewrite length_map, length_seq. reflexivity.
Qed.

End Rolling.

(** *** A formatter, records and a manifest to run the writers on *)

Fixpoint zeros (n : nat) : string :=
  match n with
  | 0 => EmptyString
  | S n => String "0" (zeros n)
  end.

(** ["%05d" % n] *)
Definition pad5 (n : nat) : string :=
  zeros (5 - String.length (str n)) +:+ str n.

(** [pattern % n] for a pattern whose only conversion is one [%05d]; a
    pattern without it does not take the argument. *)
Fixpoint percent_05d (pattern : string) (n : nat) : result string :=
  match pattern with
  | EmptyString => Raise TypeError
  | String c rest =>
      if String.prefix "%05d" pattern
      then Ok (pad5 n +:+ String.substring 4 (String.length pattern - 4) pattern)
      else let* r := percent_05d rest n in Ok (String c r)
  end.

Definition corpus : Info.DatasetInfo := {|
  Info.description := "corpus";
  Info.file_list := [];
  Info.features := Some [("text", Text)];
  Info.size_in_bytes := None;
  Info.metadata := None
|}.

Definition out_name (i : nat) : string := "out/" +:+ pad5 i +:+ ".tar".

Lemma shard_rolling_count_witness :
  exists self fs,
    @run percent_05d Sample.runtime "out" corpus "%05d" 2 3000000000
      [first_record; second_record; first_record] ∅
    = (Ok tt, self, fs)
    /\ ShardWriter.shard self = 2
    /\ Info.file_list (ShardWriter.info self) = ["00000.tar"; "00001.tar"].
Proof.
  destruct (@shard_rolling_count percent_05d Sample.runtime "out" "%05d" corpus
              [("text", Text)] 2 3000000000 ∅ out_name eq_refl
              ltac:(intros md E; discriminate E)
              (le_S 1 1 (le_n 1))
              [first_record; second_record; first_record] [5; 5; 5])
    as (self & fs & Hrun & Hshard & _ & _ & Hfiles & _).
  - repeat constructor.
  - vm_compute. discriminate.
  - intros [|[|i]] Hi; [reflexivity | reflexivity |].
    exfalso. vm_compute in Hi. lia.
  - refine (bool_decide_unpack _ _). vm_compute. exact I.
  - exists self, fs. split; [exact Hrun|]. split; [exact Hshard | exact Hfiles].
Defined.

(** The property of claim C3 for one run: the shards are as many as
    [ceil (N / M)] and the manifest lists that many files. *)
Definition ceil_shards `{Runtime} (percent : string -> nat -> result string)
    (path : string) (info : Info.DatasetInfo) (pattern : string) (M : nat)
    (budget : Z) (records : list Py.value) (fs0 : filesystem) : Prop :=
  exists self fs,
    run percent path info pattern (Z.of_nat M) budget records fs0 = (Ok tt, self, fs)
    /\ ShardWriter.shard self = ceil_div (length records) M
    /\ length (Info.file_list (ShardWriter.info self)) = ceil_div (length records) M.

(** C3 as stated fails for [N = 0]: the constructor opens a shard, which
    [close] finishes and lists, where [ceil (0 / M)] is 0. *)
Lemma shard_rolling_count_counterexample :
  ~ @ceil_shards Sample.runtime percent_05d "out" corpus "%05d" 1 3000000000 [] ∅.
Proof.
  intros (self & fs & Hrun & Hshard & _).
  vm_compute in Hrun. injection Hrun as <- _. discriminate Hshard.
Qed.

Example no_record_one_shard :
  let '(r, self, fs) :=
    @run percent_05d Sample.runtime "out" corpus "%05d" 1 3000000000 [] ∅ in
  r = Ok tt
  /\ ShardWriter.shard self = 1
  /\ Info.file_list (ShardWriter.info self) = ["00000.tar"]
  /\ fs !! "out/00000.tar" = Some (Archive []).
Proof. vm_compute. repeat split. Qed.

End WritersFacts.
